(** * The run orchestrator of cannoli (class [Run]): a shallow embedding

    The development follows the TypeScript class [Run]: the three-colour
    cycle check [isDAG], the stoppage paths ([stop], [error], the
    "all finished" check), the usage and cost bookkeeping, and the body of
    the task that [callLLM] hands to the concurrency limiter.

    Conventions of the embedding.
    - A JavaScript object is a reference into a store: work items live in
      [gmap ObjRef CannoliObject], the usage table of a run lives in
      [gmap Loc UsageTable].  Two references are the same object exactly
      when they are equal.
    - A [Record<string, T>] whose iteration order is observable is an
      association list of its own properties in the order of
      [Object.values]: the keys that are array indices in ascending
      order, then the others in insertion order.  A property read
      [obj[key]] also finds the names that a plain object inherits from
      [Object.prototype] ([getProperty]).
    - A JavaScript [number] is an exact rational ([Qc]); no rounding is
      modelled.
    - Work items, the language-model backend and the chat clients'
      constructors are not among the sources: items are followed through
      the status events they publish, the others are arguments of the
      definitions that call them.
    - A string is a list of characters; its [String.length] stands for the
      [length] of the JavaScript string.
    - Methods that mutate the run are state transformers over [World]; a
      JavaScript exception is an [Outcome] next to the state reached when it
      was raised. *)

From Stdlib Require Import QArith Qcanon Qround.
From stdpp Require Import gmap strings list relations.

Local Open Scope string_scope.

(** ** Work items *)

(** A reference to a work item (object identity). *)
Definition ObjRef := nat.

Inductive CannoliObjectStatus :=
| Pending | Executing | Complete | Rejected | Error | Warning.

(** The part of a [CannoliObject] that [Run] reads.  [allDependencies] is
    what [getAllDependencies()] returns; the [instanceof] tests that [Run]
    performs are one flag each. *)
Record CannoliObject := {
  id : string;
  text : string;
  status : CannoliObjectStatus;
  dependencies : list string;
  allDependencies : list ObjRef;
  instanceofCallNode : bool;
  instanceofDisplayNode : bool;
  instanceofDynamicReferenceNode : bool;
  instanceofFloatingNode : bool;
  instanceofCannoliVertex : bool
}.

#[global] Instance CannoliObjectStatus_eq_dec : EqDecision CannoliObjectStatus.
Proof. solve_decision. Defined.

(** ** The cycle check *)

Inductive DagCheckState := UNVISITED | VISITING | VISITED.

#[global] Instance DagCheckState_eq_dec : EqDecision DagCheckState.
Proof. solve_decision. Defined.

(** [obj.getAllDependencies()]; a reference outside the store has none. *)
Definition getAllDependencies (objects : gmap ObjRef CannoliObject)
    (obj : ObjRef) : list ObjRef :=
  match objects !! obj with
  | Some o => allDependencies o
  | None => []
  end.

(** The [for (const dependency of ...)] loop of [visit]: stops at the first
    dependency whose visit reports a cycle. *)
Fixpoint visitEach
    (visit1 : gmap ObjRef DagCheckState -> ObjRef ->
              option (bool * gmap ObjRef DagCheckState))
    (deps : list ObjRef) (states : gmap ObjRef DagCheckState)
    : option (bool * gmap ObjRef DagCheckState) :=
  match deps with
  | [] => Some (true, states)
  | dependency :: rest =>
      match visit1 states dependency with
      | None => None
      | Some (false, states') => Some (false, states')
      | Some (true, states') => visitEach visit1 rest states'
      end
  end.

(** The inner function [visit] of [isDAG].  The map [states] that the
    closure mutates is threaded through; [fuel] bounds the recursion depth
    and [None] means the bound was hit. *)
Fixpoint visit (objects : gmap ObjRef CannoliObject) (fuel : nat)
    (states : gmap ObjRef DagCheckState) (obj : ObjRef)
    : option (bool * gmap ObjRef DagCheckState) :=
  match fuel with
  | O => None
  | S fuel' =>
      match states !! obj with
      | Some VISITING => Some (false, states)
      | Some VISITED => Some (true, states)
      | _ =>
          match visitEach (visit objects fuel')
                  (getAllDependencies objects obj)
                  (<[obj := VISITING]> states) with
          | None => None
          | Some (false, states') => Some (false, states')
          | Some (true, states') => Some (true, <[obj := VISITED]> states')
          end
      end
  end.

(** The outer loop of [isDAG] over [Object.values(objects)]. *)
Fixpoint isDAG_loop (objects : gmap ObjRef CannoliObject) (fuel : nat)
    (values : list ObjRef) (states : gmap ObjRef DagCheckState)
    : option bool :=
  match values with
  | [] => Some true
  | obj :: rest =>
      if decide (states !! obj = Some VISITED)
      then isDAG_loop objects fuel rest states
      else match visit objects fuel states obj with
           | None => None
           | Some (false, _) => Some false
           | Some (true, states') => isDAG_loop objects fuel rest states'
           end
  end.

(** [isDAG(objects)], on the values of the graph.  The recursion depth of
    [visit] never exceeds the number of stored objects plus one. *)
Definition isDAG (objects : gmap ObjRef CannoliObject)
    (values : list ObjRef) : option bool :=
  isDAG_loop objects (S (size objects)) values ∅.

(** The dependency relation and what a cycle of a graph is. *)
Definition dependsOn (objects : gmap ObjRef CannoliObject)
    (x y : ObjRef) : Prop :=
  y ∈ getAllDependencies objects x.

Definition cyclic (objects : gmap ObjRef CannoliObject)
    (values : list ObjRef) : Prop :=
  exists o c, o ∈ values /\ rtc (dependsOn objects) o c
              /\ tc (dependsOn objects) c c.

(** Invariants of the map [states] during the traversal: finished nodes
    only depend on finished nodes, and no finished node lies on a cycle. *)
Definition closed (objects : gmap ObjRef CannoliObject)
    (states : gmap ObjRef DagCheckState) : Prop :=
  forall x d, states !! x = Some VISITED -> dependsOn objects x d ->
              states !! d = Some VISITED.

Definition cycleFree (objects : gmap ObjRef CannoliObject)
    (states : gmap ObjRef DagCheckState) : Prop :=
  forall x, states !! x = Some VISITED -> ~ tc (dependsOn objects) x x.

(** What a call of [visit] that returns [true] leaves behind. *)
Record extends (objects : gmap ObjRef CannoliObject)
    (s s' : gmap ObjRef DagCheckState) : Prop := {
  ext_visited : forall x, s !! x = Some VISITED -> s' !! x = Some VISITED;
  ext_visiting : forall x, s' !! x = Some VISITING <-> s !! x = Some VISITING;
  ext_closed : closed objects s -> closed objects s';
  ext_cycleFree : closed objects s -> cycleFree objects s -> cycleFree objects s'
}.

(** A node is marked once [visit] has coloured it. *)
Definition marked (states : gmap ObjRef DagCheckState) (x : ObjRef) : bool :=
  match states !! x with
  | Some VISITING | Some VISITED => true
  | _ => false
  end.

(** Stored objects not coloured yet: the measure that bounds [visit]. *)
Definition unmarked (objects : gmap ObjRef CannoliObject)
    (states : gmap ObjRef DagCheckState) : nat :=
  length (List.filter (fun x => negb (marked states x))
                      (map_to_list objects).*1).

(** Colours are never taken back. *)
Definition mono (s s' : gmap ObjRef DagCheckState) : Prop :=
  forall x, marked s x = true -> marked s' x = true.

(** ** Numbers and records *)

(** The number literal [n / d]. *)
Definition num (n : Z) (d : positive) : Qc := Q2Qc (n # d).

(** A [Record<string, T>]: its own properties, in the order in which
    [Object.values] lists them.  [lookupKey] finds an own property; what
    [rec[key]] finds on a plain object, own or inherited, is [getProperty]
    below. *)
Fixpoint lookupKey {T : Type} (key : string) (rec : list (string * T))
    : option T :=
  match rec with
  | [] => None
  | (k, v) :: rest => if decide (k = key) then Some v else lookupKey key rest
  end.

(** In-place change of the value stored under [key]. *)
Fixpoint alterKey {T : Type} (f : T -> T) (key : string)
    (rec : list (string * T)) : list (string * T) :=
  match rec with
  | [] => []
  | (k, v) :: rest =>
      if decide (k = key) then (k, f v) :: rest
      else (k, v) :: alterKey f key rest
  end.

Definition digitOf (c : Ascii.ascii) : option N :=
  let n := Ascii.N_of_ascii c in
  if (48 <=? n)%N && (n <=? 57)%N then Some (n - 48)%N else None.

Fixpoint digitsValue (s : string) (acc : N) : option N :=
  match s with
  | EmptyString => Some acc
  | String c rest =>
      match digitOf c with
      | Some d => digitsValue rest (10 * acc + d)%N
      | None => None
      end
  end.

(** The keys that an object lists first, in ascending order: the array
    indices, which are the decimal numerals without a leading zero up to
    [2^32 - 2]. *)
Definition arrayIndex (key : string) : option N :=
  match key with
  | EmptyString => None
  | String c rest =>
      match digitsValue key 0 with
      | Some n =>
          if (negb (Ascii.eqb c (Ascii.ascii_of_nat 48))
              || bool_decide (rest = EmptyString))
             && (n <=? 4294967294)%N
          then Some n else None
      | None => None
      end
  end.

(** The place of a new array index [i]: after the smaller indices, before
    the larger ones and before every other key. *)
Fixpoint insertIndex {T : Type} (i : N) (key : string) (v : T)
    (rec : list (string * T)) : list (string * T) :=
  match rec with
  | [] => [(key, v)]
  | (k, x) :: rest =>
      match arrayIndex k with
      | Some j =>
          if (j <? i)%N then (k, x) :: insertIndex i key v rest
          else (key, v) :: (k, x) :: rest
      | None => (key, v) :: (k, x) :: rest
      end
  end.

(** [rec[key] = v] for a key other than [__proto__]: an own property is
    overwritten in place; a new array index goes to its place among the
    indices and any other new key goes last. *)
Definition setKey {T : Type} (key : string) (v : T)
    (rec : list (string * T)) : list (string * T) :=
  match lookupKey key rec with
  | Some _ => alterKey (fun _ => v) key rec
  | None =>
      match arrayIndex key with
      | Some i => insertIndex i key v rec
      | None => rec ++ [(key, v)]
      end
  end.

(** The properties that every plain object inherits from
    [Object.prototype]. *)
Definition prototypeNames : list string :=
  [ "constructor"; "__defineGetter__"; "__defineSetter__"; "hasOwnProperty";
    "__lookupGetter__"; "__lookupSetter__"; "isPrototypeOf";
    "propertyIsEnumerable"; "toString"; "valueOf"; "__proto__";
    "toLocaleString" ].

Definition inherited (key : string) : bool :=
  existsb (String.eqb key) prototypeNames.

(** What [rec[key]] finds on a plain object: an own property, a function or
    object inherited from the prototype, or nothing ([undefined]). *)
Inductive Property (T : Type) :=
| Own (v : T)
| Inherited
| Absent.

Arguments Own {T} v.
Arguments Inherited {T}.
Arguments Absent {T}.

Definition getProperty {T : Type} (key : string) (rec : list (string * T))
    : Property T :=
  match lookupKey key rec with
  | Some v => Own v
  | None => if inherited key then Inherited else Absent
  end.

(** The key that [inheritedValue.name] gives when it indexes an object:
    the inherited functions are named after their property, except that
    [constructor] is the function [Object]; [__proto__] is the prototype
    itself, which has no [name], and [undefined] as a key reads
    [undefined]. *)
Definition inheritedName (key : string) : string :=
  if String.eqb key "constructor" then "Object"
  else if String.eqb key "__proto__" then "undefined"
  else key.

(** ** Usage and cost records *)

Inductive StoppageReason := user | error_reason | complete.

Record Model := {
  name : string;
  promptTokenPrice : Qc;
  completionTokenPrice : Qc
}.

Record ModelUsage := {
  promptTokens : Qc;
  completionTokens : Qc;
  apiCalls : Qc;
  totalCost : Qc
}.

(** [model] is declared as [Model]; at run time it is [undefined] when the
    price table had no entry for the name (here [None]). *)
Record Usage := {
  model : option Model;
  modelUsage : ModelUsage
}.

Abbreviation UsageTable := (list (string * Usage)).

(** A reference to a usage table. *)
Definition Loc := nat.

Record Stoppage := {
  reason : StoppageReason;
  stoppage_usage : Loc;
  stoppage_totalCost : Qc;
  message : option string
}.

(** The static price table of the class. *)
Definition modelInfo : list (string * Model) :=
  [ ("gpt-4",
     {| name := "gpt-4";
        promptTokenPrice := (num 3 100 / num 1000 1)%Qc;
        completionTokenPrice := (num 6 100 / num 1000 1)%Qc |});
    ("gpt-3.5-turbo",
     {| name := "gpt-3.5-turbo";
        promptTokenPrice := (num 15 10000 / num 1000 1)%Qc;
        completionTokenPrice := (num 2 1000 / num 1000 1)%Qc |}) ].

(** ** Requests and responses of the model provider *)

Record FunctionCall := {
  fc_name : string;
  arguments : string
}.

Record ChatCompletionRequestMessage := {
  role : string;
  content : option string;
  function_call : option FunctionCall
}.

(** [parameters] of a function is an untyped JSON schema.  It is modelled
    down the path the mock reads, [parameters.properties.choice.enum], each
    key of which may be missing. *)
Record ChoiceProperty := {
  choice_type : string;
  enum : option (list string)
}.

Record SchemaProperties := {
  choice : option ChoiceProperty
}.

Record FunctionParameters := {
  parameters_type : string;
  properties : option SchemaProperties;
  required : list string
}.

Record ChatCompletionFunctions := {
  fn_name : string;
  description : option string;
  parameters : option FunctionParameters
}.

Record CreateChatCompletionRequest := {
  request_model : string;
  messages : list ChatCompletionRequestMessage;
  functions : option (list ChatCompletionFunctions)
}.

Record CompletionUsage := {
  prompt_tokens : Qc;
  completion_tokens : Qc
}.

Record ResponseChoice := {
  choice_message : option ChatCompletionRequestMessage
}.

(** [response.data] *)
Record ResponseData := {
  data_usage : option CompletionUsage;
  choices : list ResponseChoice
}.

(** ** Exceptions and the state of a run *)

Inductive Exception :=
| TypeError (msg : string)
| ErrorObject (msg : string).

(** What [createChatCompletion] does once awaited. *)
Inductive ApiOutcome :=
| ApiResolved (data : ResponseData)
| ApiRejected (e : Exception).

(** The value [callLLM] resolves to: a chat message or an error value. *)
Inductive CallResult :=
| Message (m : ChatCompletionRequestMessage)
| ErrorValue (e : Exception).

Inductive CanvasOp :=
| ChangeNodeColor (node color : string)
| ChangeNodeText (node newText : string)
| AddErrorNode (node msg : string)
| AddWarningNode (node msg : string)
| RemoveAllErrorNodes.

(** The fields of [Run].  [graph] lists the entries in the order of
    [Object.values]; [canvas] and [openai] say whether the collaborator is
    present; [usage] is the reference held in [this.usage]; [llmLimit] is the
    concurrency the limiter was built with. *)
Record Run := {
  graph : list (string * ObjRef);
  isMock : bool;
  isStopped : bool;
  canvas : bool;
  openai : bool;
  usage : Loc;
  llmLimit : nat
}.

(** A run together with everything it can reach or change: the work items,
    the usage tables, the calls of [onFinish] (oldest first), the operations
    queued on the canvas and the items whose [execute()] was called. *)
Record World := {
  run : Run;
  store : gmap ObjRef CannoliObject;
  tables : gmap Loc UsageTable;
  finished : list Stoppage;
  canvasQueue : list CanvasOp;
  executed : list ObjRef
}.

Definition withRun (f : Run -> Run) (w : World) : World :=
  {| run := f (run w); store := store w; tables := tables w;
     finished := finished w; canvasQueue := canvasQueue w;
     executed := executed w |}.

Definition setStopped (b : bool) (r : Run) : Run :=
  {| graph := graph r; isMock := isMock r; isStopped := b;
     canvas := canvas r; openai := openai r; usage := usage r;
     llmLimit := llmLimit r |}.

Definition withStore (f : gmap ObjRef CannoliObject -> gmap ObjRef CannoliObject)
    (w : World) : World :=
  {| run := run w; store := f (store w); tables := tables w;
     finished := finished w; canvasQueue := canvasQueue w;
     executed := executed w |}.

(** The table behind [this.usage]. *)
Definition usageOf (w : World) : UsageTable := tables w !!! usage (run w).

Definition withUsage (f : UsageTable -> UsageTable) (w : World) : World :=
  {| run := run w; store := store w;
     tables := <[usage (run w) := f (usageOf w)]> (tables w);
     finished := finished w; canvasQueue := canvasQueue w;
     executed := executed w |}.

(** [this.onFinish(stoppage)] *)
Definition notify (s : Stoppage) (w : World) : World :=
  {| run := run w; store := store w; tables := tables w;
     finished := finished w ++ [s]; canvasQueue := canvasQueue w;
     executed := executed w |}.

Definition enqueue (op : CanvasOp) (w : World) : World :=
  {| run := run w; store := store w; tables := tables w;
     finished := finished w; canvasQueue := canvasQueue w ++ [op];
     executed := executed w |}.

Definition recordExecute (obj : ObjRef) (w : World) : World :=
  {| run := run w; store := store w; tables := tables w;
     finished := finished w; canvasQueue := canvasQueue w;
     executed := executed w ++ [obj] |}.

(** ** Methods as state transformers that may throw *)

(** How a call ends: it returns, it throws, or the embedding gives no
    result ([OutOfFuel]): the cycle check ran out of fuel, or the state
    reached has no counterpart among the values used here. *)
Inductive Outcome (A : Type) :=
| Returned (a : A)
| Thrown (e : Exception)
| OutOfFuel.

Arguments Returned {A} a.
Arguments Thrown {A} e.
Arguments OutOfFuel {A}.

Definition M (A : Type) : Type := World -> World * Outcome A.

Definition ret {A : Type} (a : A) : M A := fun w => (w, Returned a).

Definition throw {A : Type} (e : Exception) : M A := fun w => (w, Thrown e).

Definition bind {A B : Type} (m : M A) (k : A -> M B) : M B :=
  fun w =>
    match m w with
    | (w', Returned a) => k a w'
    | (w', Thrown e) => (w', Thrown e)
    | (w', OutOfFuel) => (w', OutOfFuel)
    end.

Definition get : M World := fun w => (w, Returned w).

Definition modify (f : World -> World) : M unit := fun w => (f w, Returned tt).

(** [try { m } catch (e) { handler e }] *)
Definition tryCatch {A : Type} (m : M A) (handler : Exception -> M A) : M A :=
  fun w =>
    match m w with
    | (w', Thrown e) => handler e w'
    | other => other
    end.

Declare Scope run_scope.
Delimit Scope run_scope with run.

Notation "'let*' x ':=' m 'in' k" := (bind m (fun x => k))
  (at level 10, x name, m at level 100, k at level 200) : run_scope.
Notation "m ;; k" := (bind m (fun _ => k))
  (at level 100, k at level 200, right associativity) : run_scope.

Local Open Scope run_scope.

Definition when (b : bool) (m : M unit) : M unit :=
  if b then m else ret tt.

(** [for (const x of xs) { body x }] *)
Fixpoint forEach {A : Type} (body : A -> M unit) (xs : list A) : M unit :=
  match xs with
  | [] => ret tt
  | x :: rest => body x ;; forEach body rest
  end.

(** [Object.values(this.graph)] *)
Definition graphValues (r : Run) : list ObjRef := (graph r).*2.

(** ** Cost accounting *)

(** [calculateLLMCostForModel(usage)].  Reading a price off an [undefined]
    model is a [TypeError]. *)
Definition calculateLLMCostForModel (u : Usage) : Exception + Qc :=
  match model u with
  | None =>
      inl (TypeError
             "Cannot read properties of undefined (reading 'promptTokenPrice')")
  | Some m =>
      let promptCost := (promptTokenPrice m * promptTokens (modelUsage u))%Qc in
      let completionCost :=
        (completionTokenPrice m * completionTokens (modelUsage u))%Qc in
      inr (promptCost + completionCost)%Qc
  end.

Definition setTotalCost (cost : Qc) (u : Usage) : Usage :=
  {| model := model u;
     modelUsage :=
       {| promptTokens := promptTokens (modelUsage u);
          completionTokens := completionTokens (modelUsage u);
          apiCalls := apiCalls (modelUsage u);
          totalCost := cost |} |}.

(** The loop of [calculateAllLLMCosts] over the entries of the table, each
    one changed in place; it ends at the first entry whose cost throws. *)
Fixpoint recomputeCosts (t : UsageTable) : UsageTable * option Exception :=
  match t with
  | [] => ([], None)
  | (k, u) :: rest =>
      match calculateLLMCostForModel u with
      | inl e => ((k, u) :: rest, Some e)
      | inr cost =>
          let (rest', r) := recomputeCosts rest in
          ((k, setTotalCost cost u) :: rest', r)
      end
  end.

(** [calculateAllLLMCosts()]: returns [this.usage], the reference. *)
Definition calculateAllLLMCosts : M Loc :=
  fun w =>
    let (t', r) := recomputeCosts (usageOf w) in
    let w' := withUsage (fun _ => t') w in
    match r with
    | Some e => (w', Thrown e)
    | None => (w', Returned (usage (run w)))
    end.

(** The loop of [getTotalCost]. *)
Fixpoint sumCosts (t : UsageTable) (acc : Qc) : Exception + Qc :=
  match t with
  | [] => inr acc
  | (_, u) :: rest =>
      match calculateLLMCostForModel u with
      | inl e => inl e
      | inr cost => sumCosts rest (acc + cost)%Qc
      end
  end.

Definition getTotalCost : M Qc :=
  fun w =>
    match sumCosts (usageOf w) (num 0 1) with
    | inl e => (w, Thrown e)
    | inr cost => (w, Returned cost)
    end.

(** ** Stopping *)

(** [this.onFinish({ reason, usage: this.calculateAllLLMCosts(),
    totalCost: this.getTotalCost(), message })], the call that every
    stopping path makes. *)
Definition emitStoppage (why : StoppageReason) (msg : option string)
    : M unit :=
  let* u := calculateAllLLMCosts in
  let* cost := getTotalCost in
  modify (notify {| reason := why; stoppage_usage := u;
                    stoppage_totalCost := cost; message := msg |}).

(** [error(message)] *)
Definition error {A : Type} (msg : string) : M A :=
  modify (withRun (setStopped true)) ;;
  emitStoppage error_reason (Some msg) ;;
  throw (ErrorObject msg).

(** [stop()] *)
Definition stop : M unit :=
  modify (withRun (setStopped true)) ;;
  emitStoppage user None.

Definition setStatus (s : CannoliObjectStatus) (o : CannoliObject)
    : CannoliObject :=
  {| id := id o; text := text o; status := s;
     dependencies := dependencies o; allDependencies := allDependencies o;
     instanceofCallNode := instanceofCallNode o;
     instanceofDisplayNode := instanceofDisplayNode o;
     instanceofDynamicReferenceNode := instanceofDynamicReferenceNode o;
     instanceofFloatingNode := instanceofFloatingNode o;
     instanceofCannoliVertex := instanceofCannoliVertex o |}.

(** [allObjectsFinished()]; a reference outside the store has no status. *)
Definition allObjectsFinished (w : World) : bool :=
  forallb
    (fun obj =>
       match store w !! obj with
       | Some o =>
           bool_decide (status o = Complete) || bool_decide (status o = Rejected)
       | None => false
       end)
    (graphValues (run w)).

(** ** Reactions to status events *)

(** [objectCompleted(object)] *)
Definition objectCompleted (object : CannoliObject) : M unit :=
  let* w := get in
  when (negb (isMock (run w)) && canvas (run w))
    (if instanceofCallNode object
     then modify (enqueue (ChangeNodeColor (id object) "4"))
     else if instanceofDisplayNode object
             || instanceofDynamicReferenceNode object
             || instanceofFloatingNode object
     then modify (enqueue (ChangeNodeText (id object) (text object)))
     else ret tt) ;;
  let* w := get in
  when (allObjectsFinished w && negb (isStopped (run w)))
    (modify (withRun (setStopped true)) ;;
     emitStoppage complete None).

(** [objectRejected(object)] *)
Definition objectRejected (object : CannoliObject) : M unit :=
  let* w := get in
  when (allObjectsFinished w && negb (isStopped (run w)))
    (modify (withRun (setStopped true)) ;;
     emitStoppage complete None).

(** [objectExecuting(object)] *)
Definition objectExecuting (object : CannoliObject) : M unit :=
  let* w := get in
  when (negb (isMock (run w)) && canvas (run w) && instanceofCallNode object)
    (modify (enqueue (ChangeNodeColor (id object) "3"))).

(** [objectPending(object)] *)
Definition objectPending (object : CannoliObject) : M unit :=
  let* w := get in
  when (canvas (run w) && instanceofCallNode object)
    (modify (enqueue (ChangeNodeColor (id object) "0"))).

(** [objectError(object, message)] *)
Definition objectError (object : CannoliObject) (msg : option string)
    : M unit :=
  let* w := get in
  when (canvas (run w) && instanceofCannoliVertex object)
    (modify (enqueue (AddErrorNode (id object)
                                   (default "Unknown error" msg)))) ;;
  error (default "Unknown error" msg).

(** [objectWarning(object, message)] *)
Definition objectWarning (object : CannoliObject) (msg : option string)
    : M unit :=
  let* w := get in
  when (canvas (run w) && instanceofCannoliVertex object)
    (modify (enqueue (AddWarningNode (id object)
                                     (default "Unknown warning" msg)))).

(** [objectUpdated(object, status, message)]; the [default] branch of the
    switch has no counterpart, the status type being closed. *)
Definition objectUpdated (object : CannoliObject)
    (newStatus : CannoliObjectStatus) (msg : option string) : M unit :=
  match newStatus with
  | Complete => objectCompleted object
  | Rejected => objectRejected object
  | Executing => objectExecuting object
  | Pending => objectPending object
  | Error => objectError object msg
  | Warning => objectWarning object msg
  end.

(** ** Validation and start *)

(** The item publishes its status on its status channel; from
    [setupListeners()] on the run answers with [objectUpdated].  [start()]
    subscribes before it resets and validates, and the embedding follows
    the run from there. *)
Definition publish (obj : ObjRef) (msg : option string) : M unit :=
  let* w := get in
  match store w !! obj with
  | Some o => objectUpdated o (status o) msg
  | None => ret tt
  end.

(** Modelled from the spec: [CannoliObject.reset()] (models/object is not
    among the sources) puts the item back to its initial status,
    [Pending], and publishes it. *)
Definition objectReset (obj : ObjRef) : M unit :=
  modify (withStore (alter (setStatus Pending) obj)) ;;
  publish obj None.

(** [reset()] *)
Definition reset : M unit :=
  modify (withRun (setStopped false)) ;;
  let* w := get in
  forEach objectReset (graphValues (run w)).

(** Modelled from the spec: [CannoliObject.validate()] (models/object is
    not among the sources) checks the item itself and leaves the run as it
    is. *)
Definition objectValidate (obj : ObjRef) : M unit := ret tt.

(** Modelled from the spec: [CannoliVertex.error(message)] (models/object
    is not among the sources) reports a structural error: the vertex takes
    the status [Error] and publishes it with the message. *)
Definition vertexError (obj : ObjRef) (msg : string) : M unit :=
  modify (withStore (alter (setStatus Error) obj)) ;;
  publish obj (Some msg).

Definition cycleMessage : string :=
  "Cycle detected in graph. Please make sure the graph is a DAG." ++
  String (Ascii.ascii_of_nat 10) "(exception: edges between groups and their members)".

(** [validate()] *)
Definition validate : M unit :=
  let* w := get in
  forEach objectValidate (graphValues (run w)) ;;
  let* w := get in
  match isDAG (store w) (graphValues (run w)) with
  | None => fun w' => (w', OutOfFuel)
  | Some true => ret tt
  | Some false =>
      forEach
        (fun obj =>
           let* w' := get in
           match store w' !! obj with
           | Some o => when (instanceofCannoliVertex o)
                            (vertexError obj cycleMessage)
           | None => ret tt
           end)
        (graphValues (run w))
  end.

(** Modelled from the spec: [CannoliObject.execute()] (models/object is not
    among the sources) starts the item.  Of the call itself the embedding
    keeps that it was made; what the item does from there reaches the run
    as status events and calls of [callLLM], the steps of [runStep]. *)
Definition objectExecute (obj : ObjRef) : M unit :=
  modify (recordExecute obj).

(** [start()].  [logGraph] and [setupListeners] change nothing of the
    modelled state: the listeners are the calls of [objectUpdated]. *)
Definition start : M unit :=
  reset ;;
  validate ;;
  let* w := get in
  when (canvas (run w)) (modify (enqueue RemoveAllErrorNodes)) ;;
  forEach
    (fun obj =>
       let* w' := get in
       match store w' !! obj with
       | Some o => when (bool_decide (length (dependencies o) = 0))
                        (objectExecute obj)
       | None => ret tt
       end)
    (graphValues (run w)).

(** ** The task that [callLLM] hands to the limiter *)

(** A template literal prints an absent value as [undefined] and an object
    as [[object Object]]. *)
Definition printString (v : option string) : string :=
  match v with
  | Some s => s
  | None => "undefined"
  end.

(** The text added for one message by the loop over [request.messages]. *)
Definition messageText (m : ChatCompletionRequestMessage) : string :=
  match function_call m with
  | Some _ =>
      role m ++ ": " ++ printString (content m) ++ " " ++ "[object Object]"
             ++ " "
  | None => role m ++ ": " ++ printString (content m) ++ " "
  end.

Definition textMessages (request : CreateChatCompletionRequest) : string :=
  fold_left (fun acc m => acc ++ messageText m) (messages request) EmptyString.

(** The record stored for a model seen for the first time. *)
Definition freshUsage (m : option Model) : Usage :=
  {| model := m;
     modelUsage := {| promptTokens := num 0 1; completionTokens := num 0 1;
                      apiCalls := num 0 1; totalCost := num 0 1 |} |}.

Definition addPromptTokens (n : Qc) (u : Usage) : Usage :=
  {| model := model u;
     modelUsage :=
       {| promptTokens := (promptTokens (modelUsage u) + n)%Qc;
          completionTokens := completionTokens (modelUsage u);
          apiCalls := apiCalls (modelUsage u);
          totalCost := totalCost (modelUsage u) |} |}.

Definition addCompletionTokens (n : Qc) (u : Usage) : Usage :=
  {| model := model u;
     modelUsage :=
       {| promptTokens := promptTokens (modelUsage u);
          completionTokens := (completionTokens (modelUsage u) + n)%Qc;
          apiCalls := apiCalls (modelUsage u);
          totalCost := totalCost (modelUsage u) |} |}.

Definition addApiCalls (n : Qc) (u : Usage) : Usage :=
  {| model := model u;
     modelUsage :=
       {| promptTokens := promptTokens (modelUsage u);
          completionTokens := completionTokens (modelUsage u);
          apiCalls := (apiCalls (modelUsage u) + n)%Qc;
          totalCost := totalCost (modelUsage u) |} |}.

(** [if (!this.usage[key]) { this.usage[key] = { model, modelUsage: ... } }]
    where [model] is what [this.modelInfo[...]] has found.  An own or
    inherited property under [key] counts as a record that is there.  A new
    record whose [model] would be a function or object inherited from the
    prototype has no counterpart among the values of [Usage]: there the
    embedding gives no result. *)
Definition ensureUsage (key : string) (found : Property Model) : M unit :=
  let* w := get in
  match getProperty key (usageOf w) with
  | Absent =>
      match found with
      | Own m => modify (withUsage (setKey key (freshUsage (Some m))))
      | Absent => modify (withUsage (setKey key (freshUsage None)))
      | Inherited => fun w' => (w', OutOfFuel)
      end
  | _ => ret tt
  end.

(** [this.usage[key].modelUsage.field += n]: a [TypeError] where
    [this.usage[key]] is an inherited function or object, which has no
    [modelUsage], or is [undefined]. *)
Definition addUsage (key field : string) (f : Usage -> Usage) : M unit :=
  let* w := get in
  match getProperty key (usageOf w) with
  | Own _ => modify (withUsage (alterKey f key))
  | Inherited =>
      throw (TypeError ("Cannot read properties of undefined (reading '"
                        ++ field ++ "')"))
  | Absent =>
      throw (TypeError
               "Cannot read properties of undefined (reading 'modelUsage')")
  end.

(** [choiceFunction.parameters.properties.choice.enum], a [TypeError] where
    the path runs into [undefined]. *)
Definition choiceEnum (params : FunctionParameters)
    : Exception + list string :=
  match properties params with
  | None =>
      inl (TypeError "Cannot read properties of undefined (reading 'choice')")
  | Some props =>
      match choice props with
      | None =>
          inl (TypeError "Cannot read properties of undefined (reading 'enum')")
      | Some c =>
          match enum c with
          | None =>
              inl (TypeError
                     "Cannot read properties of undefined (reading 'length')")
          | Some options => inr options
          end
      end
  end.

(** [options[Math.floor(random * options.length)]], the product taken
    exactly: its rounding to a double, which moves a draw just below the
    edge of a bin into the next one, is not modelled.  The index stays
    within the array either way. *)
Definition pick (random : Qc) (options : list string) : option string :=
  let index := Qfloor (random * num (Z.of_nat (length options)) 1)%Qc in
  if (index <? 0)%Z then None else options !! Z.to_nat index.

Definition doubleQuote : string := String (Ascii.ascii_of_nat 34) EmptyString.
Definition newline : string := String (Ascii.ascii_of_nat 10) EmptyString.
Definition tab : string := String (Ascii.ascii_of_nat 9) EmptyString.

Fixpoint tabs (n : nat) : string :=
  match n with
  | O => EmptyString
  | S n' => tab ++ tabs n'
  end.

(** The template literal of [arguments], with the line breaks and the
    indentation it has in the source. *)
Definition choiceArguments (randomChoice : option string) : string :=
  "{" ++ newline ++ tabs 9 ++ doubleQuote ++ "choice" ++ doubleQuote ++ " : "
      ++ doubleQuote ++ printString randomChoice ++ doubleQuote
      ++ newline ++ tabs 8 ++ "}".

Definition choiceResponse (randomChoice : option string)
    : ChatCompletionRequestMessage :=
  {| role := "assistant";
     content := Some "Mock response";
     function_call :=
       Some {| fc_name := "enter_choice";
               arguments := choiceArguments randomChoice |} |}.

Definition placeholderResponse : ChatCompletionRequestMessage :=
  {| role := "assistant";
     content := Some "Mock response";
     function_call := None |}.

(** [request.functions?.find((fn) => fn.name === "enter_choice")] *)
Definition findChoiceFunction (request : CreateChatCompletionRequest)
    : option ChatCompletionFunctions :=
  match functions request with
  | Some fns => List.find (fun fn => String.eqb (fn_name fn) "enter_choice") fns
  | None => None
  end.

(** The response that the mock branch makes up, from the search for the
    choice function on; [random] is the value of [Math.random()]. *)
Definition mockResponse (request : CreateChatCompletionRequest)
    (random : Qc) : M CallResult :=
  match findChoiceFunction request with
  | Some choiceFunction =>
      match parameters choiceFunction with
      | Some params =>
          match choiceEnum params with
          | inl e => throw e
          | inr options =>
              if bool_decide (0 < length options)
              then ret (Message (choiceResponse (pick random options)))
              else ret (Message placeholderResponse)
          end
      | None => ret (Message placeholderResponse)
      end
  | None => ret (Message placeholderResponse)
  end.

(** The branch [if (this.isMock || !this.openai)]: the token estimate, the
    bookkeeping under [request.model], then the response. *)
Definition callLLM_mock (request : CreateChatCompletionRequest)
    (random : Qc) : M CallResult :=
  let promptTokens :=
    (num (Z.of_nat (String.length (textMessages request))) 1 / num 4 1)%Qc in
  ensureUsage (request_model request)
              (getProperty (request_model request) modelInfo) ;;
  addUsage (request_model request) "promptTokens"
           (addPromptTokens promptTokens) ;;
  addUsage (request_model request) "apiCalls" (addApiCalls (num 1 1)) ;;
  mockResponse request random.

(** [model.name] as a key, for the [model] found under [key] in the price
    table; nothing where [model] is [undefined]. *)
Definition modelName (key : string) (found : Property Model)
    : option string :=
  match found with
  | Own m => Some (name m)
  | Inherited => Some (inheritedName key)
  | Absent => None
  end.

(** [response.data.choices[0].message] *)
Definition firstMessage (data : ResponseData)
    : M (option ChatCompletionRequestMessage) :=
  match choices data with
  | [] =>
      throw (TypeError "Cannot read properties of undefined (reading 'message')")
  | c :: _ => ret (choice_message c)
  end.

(** [if (response.data.usage) { ... }]: the bookkeeping of the real call,
    under the key [model.name]. *)
Definition recordUsage (request : CreateChatCompletionRequest)
    (data : ResponseData) : M unit :=
  match data_usage data with
  | Some reported =>
      let found := getProperty (request_model request) modelInfo in
      match modelName (request_model request) found with
      | None =>
          throw (TypeError
                   "Cannot read properties of undefined (reading 'name')")
      | Some key =>
          ensureUsage key found ;;
          addUsage key "promptTokens"
                   (addPromptTokens (prompt_tokens reported)) ;;
          addUsage key "completionTokens"
                   (addCompletionTokens (completion_tokens reported)) ;;
          addUsage key "apiCalls" (addApiCalls (num 1 1))
      end
  | None => ret tt
  end.

(** The body of the [try] block; [api] is what awaiting
    [createChatCompletion(request)] gives. *)
Definition callLLM_try (request : CreateChatCompletionRequest)
    (verbose : bool) (api : ApiOutcome) : M CallResult :=
  match api with
  | ApiRejected e => throw e
  | ApiResolved data =>
      when verbose (firstMessage data ;; ret tt) ;;
      recordUsage request data ;;
      let* answer := firstMessage data in
      match answer with
      | Some m => ret (Message m)
      | None => ret (ErrorValue (ErrorObject "No message returned"))
      end
  end.

(** The real call: [try { ... } catch (e) { return e; }] *)
Definition callLLM_real (request : CreateChatCompletionRequest)
    (verbose : bool) (api : ApiOutcome) : M CallResult :=
  tryCatch (callLLM_try request verbose api) (fun e => ret (ErrorValue e)).

(** The task of [callLLM(request, verbose)], run once the limiter admits
    it. *)
Definition callLLM (request : CreateChatCompletionRequest) (verbose : bool)
    (random : Qc) (api : ApiOutcome) : M CallResult :=
  let* w := get in
  if isMock (run w) || negb (openai (run w))
  then callLLM_mock request random
  else callLLM_real request verbose api.

(** [createChoiceFunction(choices)] *)
Definition createChoiceFunction (choices : list string)
    : ChatCompletionFunctions :=
  {| fn_name := "enter_choice";
     description :=
       Some "Enter your answer to the question above using this function.";
     parameters :=
       Some {| parameters_type := "object";
               properties :=
                 Some {| choice :=
                           Some {| choice_type := "string";
                                   enum := Some choices |} |};
               required := ["choice"] |} |}.

(** The constructor: [isMock ?? false], [this.usage = {}] (a table of its
    own, at a fresh reference), [pLimit(llmLimit ?? 10)]. *)
Definition newRun (graphArg : list (string * ObjRef))
    (objects : gmap ObjRef CannoliObject)
    (isMockArg : option bool) (canvasArg openaiArg : bool)
    (llmLimitArg : option nat) : World :=
  {| run := {| graph := graphArg;
               isMock := default false isMockArg;
               isStopped := false;
               canvas := canvasArg;
               openai := openaiArg;
               usage := 0;
               llmLimit := default 10 llmLimitArg |};
     store := objects;
     tables := {[ 0 := [] ]};
     finished := [];
     canvasQueue := [];
     executed := [] |}.

(** ** The concurrency limiter *)

Module Limiter.

(** Modelled from the spec: the limiter that [pLimit(n)] returns (the
    package p-limit is not among the sources).  At most [concurrency]
    tasks are in flight; a task submitted beyond that waits in [queue], in
    submission order, and is let in when a slot frees up.  [started]
    records the order in which tasks were started.  (p-limit refuses a
    concurrency below 1; here such a limiter never starts a task.) *)
Record State := {
  concurrency : nat;
  running : list nat;
  queue : list nat;
  started : list nat
}.

Inductive Event :=
| Submit (task : nat)
| Settle (task : nat).

Definition init (n : nat) : State :=
  {| concurrency := n; running := []; queue := []; started := [] |}.

(** Modelled from the spec: waiting tasks are started, oldest first, while
    a slot is free (the queue of p-limit, not among the sources). *)
Fixpoint startWaiting (n : nat) (active waiting begun : list nat)
    : list nat * list nat * list nat :=
  match waiting with
  | [] => (active, waiting, begun)
  | task :: rest =>
      if bool_decide (length active < n)
      then startWaiting n (active ++ [task]) rest (begun ++ [task])
      else (active, waiting, begun)
  end.

Definition refill (s : State) : State :=
  let '(active, waiting, begun) :=
    startWaiting (concurrency s) (running s) (queue s) (started s) in
  {| concurrency := concurrency s; running := active; queue := waiting;
     started := begun |}.

(** Modelled from the spec: a submission joins the queue, a completion
    frees its slot; either way the free slots are filled from the queue
    (p-limit, not among the sources). *)
Definition step (s : State) (e : Event) : State :=
  match e with
  | Submit task =>
      refill {| concurrency := concurrency s; running := running s;
                  queue := queue s ++ [task]; started := started s |}
  | Settle task =>
      refill {| concurrency := concurrency s;
                  running := List.filter (fun t => negb (Nat.eqb t task))
                                         (running s);
                  queue := queue s; started := started s |}
  end.

Definition exec (s : State) (events : list Event) : State :=
  fold_left step events s.

(** The tasks submitted by a sequence of events, in order. *)
Definition submitted (events : list Event) : list nat :=
  flat_map (fun e => match e with Submit t => [t] | Settle _ => [] end)
           events.

(** The limiter of a run. *)
Definition ofRun (r : Run) : State := init (llmLimit r).

End Limiter.

(** ** Notions used in the statements *)

(** The usage table has its declared type: every record holds a model. *)
Definition typed (t : UsageTable) : Prop :=
  Forall (fun entry => is_Some (model entry.2)) t.

(** The prompt tokens recorded for a model name, zero before its first
    call. *)
Definition promptTokensOf (key : string) (t : UsageTable) : Qc :=
  match lookupKey key t with
  | Some u => promptTokens (modelUsage u)
  | None => num 0 1
  end.

(** [new] is the entry [old] after [calculateAllLLMCosts]: same key, same
    model and counters, and the cost computed from them in [totalCost]. *)
Definition recomputed (old new : string * Usage) : Prop :=
  new.1 = old.1
  /\ model new.2 = model old.2
  /\ promptTokens (modelUsage new.2) = promptTokens (modelUsage old.2)
  /\ completionTokens (modelUsage new.2) = completionTokens (modelUsage old.2)
  /\ apiCalls (modelUsage new.2) = apiCalls (modelUsage old.2)
  /\ calculateLLMCostForModel old.2 = inr (totalCost (modelUsage new.2)).

(** The table after [if (!this.usage[key]) { this.usage[key] = ... }]. *)
Definition ensured (key : string) (m : option Model) (t : UsageTable)
    : UsageTable :=
  match getProperty key t with
  | Absent => setKey key (freshUsage m) t
  | _ => t
  end.

(** [this.usage[key]] is a usage record or nothing, not a function or
    object inherited from the prototype. *)
Definition recordable (key : string) (t : UsageTable) : Prop :=
  getProperty key t <> Inherited.

(** [w'] differs from [w] in the usage tables at most. *)
Definition sameButUsage (w w' : World) : Prop :=
  run w' = run w /\ store w' = store w /\ finished w' = finished w
  /\ canvasQueue w' = canvasQueue w /\ executed w' = executed w.

(** The characters that one message adds to the text of the mock. *)
Definition messageLength (m : ChatCompletionRequestMessage) : nat :=
  String.length (role m)
  + match content m with
    | Some s => String.length s
    | None => 9
    end
  + 3
  + match function_call m with
    | Some _ => 16
    | None => 0
    end.

(** The graph holds an item that can carry an error. *)
Definition hasVertex (w : World) : Prop :=
  exists obj o, obj ∈ graphValues (run w) /\ store w !! obj = Some o
                /\ instanceofCannoliVertex o = true.

(** The first function named [enter_choice], if any, has the shape that
    [createChoiceFunction] gives it, or no parameters at all. *)
Definition choiceShaped (request : CreateChatCompletionRequest) : Prop :=
  forall fn params, findChoiceFunction request = Some fn ->
                    parameters fn = Some params ->
                    exists options, choiceEnum params = inr options.

(** The ways in which a run is told to stop or may find that it is done:
    a call of [stop()], a call of [error(message)], a status event. *)
Inductive StoppingPath :=
| ByStop
| ByError (msg : string)
| ByUpdate (object : CannoliObject) (newStatus : CannoliObjectStatus)
           (msg : option string).

Definition follow (p : StoppingPath) : M unit :=
  match p with
  | ByStop => stop
  | ByError msg => error msg
  | ByUpdate object newStatus msg => objectUpdated object newStatus msg
  end.

(** ** Concrete runs used in examples *)

(** A work item that is no call, display, reference or floating node. *)
Definition plainItem (key : string) (deps : list string)
    (allDeps : list ObjRef) (vertex : bool) : CannoliObject :=
  {| id := key; text := EmptyString; status := Pending;
     dependencies := deps; allDependencies := allDeps;
     instanceofCallNode := false; instanceofDisplayNode := false;
     instanceofDynamicReferenceNode := false;
     instanceofFloatingNode := false;
     instanceofCannoliVertex := vertex |}.

(** A run in mock mode on the empty graph, as the constructor leaves it. *)
Definition mockRun : World := newRun [] ∅ (Some true) false false None.

(** A run with a model backend on the empty graph. *)
Definition liveRun : World := newRun [] ∅ None false true None.

Definition userMessage (txt : string) : ChatCompletionRequestMessage :=
  {| role := "user"; content := Some txt; function_call := None |}.

Definition plainRequest (modelName txt : string) : CreateChatCompletionRequest :=
  {| request_model := modelName;
     messages := [userMessage txt];
     functions := None |}.


(** What the provider answers in the examples: token counts and one
    message. *)
Definition sampleAnswer : ApiOutcome :=
  ApiResolved
    {| data_usage := Some {| prompt_tokens := num 7 1;
                             completion_tokens := num 5 1 |};
       choices := [ {| choice_message :=
                         Some {| role := "assistant";
                                 content := Some "Hello";
                                 function_call := None |} |} ] |}.

(** A request whose [enter_choice] function has a schema without
    [properties]. *)
Definition bareChoiceRequest : CreateChatCompletionRequest :=
  {| request_model := "gpt-4";
     messages := [userMessage "pick one"];
     functions :=
       Some [ {| fn_name := "enter_choice";
                 description := None;
                 parameters := Some {| parameters_type := "object";
                                       properties := None;
                                       required := [] |} |} ] |}.

(** A request with two functions named [enter_choice]: the first offers no
    choice, the second offers one. *)
Definition twoChoiceFunctions : list ChatCompletionFunctions :=
  [createChoiceFunction []; createChoiceFunction ["yes"]].

Definition twoChoiceRequest : CreateChatCompletionRequest :=
  {| request_model := "gpt-4";
     messages := [userMessage "pick one"];
     functions := Some twoChoiceFunctions |}.

Definition choiceRequest (choices : list string)
    : CreateChatCompletionRequest :=
  {| request_model := "gpt-4";
     messages := [userMessage "pick one"];
     functions := Some [createChoiceFunction choices] |}.

(** What [reset] and [error] leave untouched in a work item. *)
Definition shape (o : CannoliObject)
    : list ObjRef * bool * list string * string :=
  (allDependencies o, instanceofCannoliVertex o, dependencies o, id o).

Definition sameShape (s1 s2 : gmap ObjRef CannoliObject) : Prop :=
  forall obj, shape <$> s1 !! obj = shape <$> s2 !! obj.

(** Two edges that depend on each other and an item without
    dependencies; none of them is a vertex. *)
Definition edgeLoopRun : World :=
  newRun [("e1", 0); ("e2", 1); ("f", 2)]
         (list_to_map [ (0, plainItem "e1" ["e2"] [1] false);
                        (1, plainItem "e2" ["e1"] [0] false);
                        (2, plainItem "f" [] [] false) ])
         None false false None.

(** Two vertices that depend on each other and a vertex without
    dependencies. *)
Definition vertexLoopRun : World :=
  newRun [("a", 0); ("b", 1); ("c", 2)]
         (list_to_map [ (0, plainItem "a" ["b"] [1] true);
                        (1, plainItem "b" ["a"] [0] true);
                        (2, plainItem "c" [] [] true) ])
         None false false None.

(** ** Notions used in the further properties *)

(** The first vertex of the graph, in the order of [Object.values]. *)
Definition firstVertex (objects : gmap ObjRef CannoliObject)
    (values : list ObjRef) : option ObjRef :=
  List.find
    (fun obj =>
       match objects !! obj with
       | Some o => instanceofCannoliVertex o
       | None => false
       end)
    values.

(** The canvas operations that add an error node. *)
Definition isErrorNode (op : CanvasOp) : bool :=
  match op with
  | AddErrorNode _ _ => true
  | _ => false
  end.

(** A world that differs from [w] in the canvas queue only. *)
Definition withCanvasOps (ops : list CanvasOp) (w : World) : World :=
  {| run := run w; store := store w; tables := tables w;
     finished := finished w; canvasQueue := canvasQueue w ++ ops;
     executed := executed w |}.

(** A diamond: [d] depends on [b] and [c], which depend on [a]. *)
Definition diamondRun : World :=
  newRun [("a", 0); ("b", 1); ("c", 2); ("d", 3)]
         (list_to_map [ (0, plainItem "a" [] [] true);
                        (1, plainItem "b" ["a"] [0] true);
                        (2, plainItem "c" ["a"] [0] true);
                        (3, plainItem "d" ["b"; "c"] [1; 2] true) ])
         None true true None.

(** The [totalCost] fields stored in a usage table, and their sum. *)
Definition storedCosts (t : UsageTable) : list Qc :=
  (fun entry => totalCost (modelUsage entry.2)) <$> t.

Definition total (costs : list Qc) : Qc := fold_left Qcplus costs (num 0 1).

(** The reason and the message that a stopping path gives to its
    stoppage. *)
Definition pathReason (p : StoppingPath) : StoppageReason :=
  match p with
  | ByStop => user
  | ByError _ => error_reason
  | ByUpdate _ Error _ => error_reason
  | ByUpdate _ _ _ => complete
  end.

Definition pathMessage (p : StoppingPath) : option string :=
  match p with
  | ByError msg => Some msg
  | ByUpdate _ Error msg => Some (default "Unknown error" msg)
  | _ => None
  end.

(** What can happen to a run between two looks at it: a status event other
    than [Error] is handled, an item changes on its own, or a call to the
    model is carried out. *)
Inductive runStep : World -> World -> Prop :=
| step_event (w : World) (object : CannoliObject)
    (newStatus : CannoliObjectStatus) (msg : option string) :
    newStatus <> Error ->
    runStep w (objectUpdated object newStatus msg w).1
| step_item (w : World)
    (change : gmap ObjRef CannoliObject -> gmap ObjRef CannoliObject) :
    runStep w (withStore change w)
| step_call (w : World) (request : CreateChatCompletionRequest)
    (verbose : bool) (random : Qc) (api : ApiOutcome) :
    runStep w (callLLM request verbose random api w).1.

(** A step of the run whose call, if it is one, names a model that is not
    a property inherited from [Object.prototype]. *)
Inductive plainStep : World -> World -> Prop :=
| plain_event (w : World) (object : CannoliObject)
    (newStatus : CannoliObjectStatus) (msg : option string) :
    newStatus <> Error ->
    plainStep w (objectUpdated object newStatus msg w).1
| plain_item (w : World)
    (change : gmap ObjRef CannoliObject -> gmap ObjRef CannoliObject) :
    plainStep w (withStore change w)
| plain_call (w : World) (request : CreateChatCompletionRequest)
    (verbose : bool) (random : Qc) (api : ApiOutcome) :
    inherited (request_model request) = false ->
    plainStep w (callLLM request verbose random api w).1.

(** The counters recorded for a model name, zero before its first call. *)
Definition completionTokensOf (key : string) (t : UsageTable) : Qc :=
  match lookupKey key t with
  | Some u => completionTokens (modelUsage u)
  | None => num 0 1
  end.

Definition apiCallsOf (key : string) (t : UsageTable) : Qc :=
  match lookupKey key t with
  | Some u => apiCalls (modelUsage u)
  | None => num 0 1
  end.

(** The usage table after the real call has recorded what the provider
    reported. *)
Definition recordedReal (m : Model) (reported : CompletionUsage)
    (t : UsageTable) : UsageTable :=
  alterKey (addApiCalls (num 1 1)) (name m)
    (alterKey (addCompletionTokens (completion_tokens reported)) (name m)
       (alterKey (addPromptTokens (prompt_tokens reported)) (name m)
          (ensured (name m) (Some m) t))).

(** [message ? message : Error("No message returned")] *)
Definition answerOf (c : ResponseChoice) : CallResult :=
  match choice_message c with
  | Some m => Message m
  | None => ErrorValue (ErrorObject "No message returned")
  end.

(** A run with a backend that has already recorded one call. *)
Definition busyRun : World :=
  (callLLM (plainRequest "gpt-4" "hi") false (num 0 1) sampleAnswer
           liveRun).1.

(** An answer of the provider with usage counts and one message. *)
Definition fullAnswer : ResponseData :=
  {| data_usage := Some {| prompt_tokens := num 7 1;
                           completion_tokens := num 5 1 |};
     choices := [ {| choice_message := Some (userMessage "Hello") |} ] |}.

(** An answer of the provider that reports usage but holds no choice. *)
Definition emptyAnswer : ResponseData :=
  {| data_usage := Some {| prompt_tokens := num 7 1;
                           completion_tokens := num 5 1 |};
     choices := [] |}.

(** ** Notes of the vault *)

(** [s.split(c)] for a separator of one character: the pieces between the
    separators, at least one. *)
Fixpoint splitOn (sep : Ascii.ascii) (s : string) : list string :=
  match s with
  | EmptyString => [EmptyString]
  | String c rest =>
      if Ascii.eqb c sep then EmptyString :: splitOn sep rest
      else match splitOn sep rest with
           | piece :: pieces => String c piece :: pieces
           | [] => [String c EmptyString]
           end
  end.

(** [pieces.join(sep)] *)
Fixpoint join (sep : string) (pieces : list string) : string :=
  match pieces with
  | [] => EmptyString
  | [piece] => piece
  | piece :: rest => piece ++ sep ++ join sep rest
  end.

(** [s.slice(n)] for [n >= 0]. *)
Fixpoint sliceFrom (n : nat) (s : string) : string :=
  match n, s with
  | O, _ => s
  | S n', String _ rest => sliceFrom n' rest
  | S _, EmptyString => EmptyString
  end.

(** The white space and the line terminators of ECMAScript among the
    characters below 256: tab, line feed, vertical tab, form feed, carriage
    return, space and no-break space. *)
Definition isWhiteSpace (c : Ascii.ascii) : bool :=
  bool_decide (Ascii.nat_of_ascii c ∈ [9; 10; 11; 12; 13; 32; 160]).

Fixpoint trimStart (s : string) : string :=
  match s with
  | EmptyString => EmptyString
  | String c rest => if isWhiteSpace c then trimStart rest else s
  end.

Fixpoint trimEnd (s : string) : string :=
  match s with
  | EmptyString => EmptyString
  | String c rest =>
      match trimEnd rest with
      | EmptyString => if isWhiteSpace c then EmptyString
                       else String c EmptyString
      | rest' => String c rest'
      end
  end.

(** [s.trim()] *)
Definition trim (s : string) : string := trimEnd (trimStart s).

(** Whether [c] occurs in [s]. *)
Fixpoint occurs (c : Ascii.ascii) (s : string) : bool :=
  match s with
  | EmptyString => false
  | String c' rest => Ascii.eqb c' c || occurs c rest
  end.

Definition lineFeed : Ascii.ascii := Ascii.ascii_of_nat 10.

(** A file of the vault, as far as [Run] reads it. *)
Record TFile := {
  basename : string;
  filePath : string
}.

(** [this.vault.getMarkdownFiles().find((file) => file.basename === name)] *)
Definition findNote (files : list TFile) (name : string) : option TFile :=
  List.find (fun file => String.eqb (basename file) name) files.

(** What a call of [editNote] does: it returns [undefined] without touching
    the vault, returns [null], or calls [vault.process(file, onEdit)] with
    an [onEdit] that returns [written] whatever the file holds. *)
Inductive EditOutcome :=
| Skipped
| NotFound
| Processed (file : TFile) (written : string).

(** [editNote(name, newContent)]; [files] is what [getMarkdownFiles()]
    returns. *)
Definition editNote (r : Run) (files : list TFile)
    (name newContent : string) : EditOutcome :=
  if isMock r then Skipped
  else
    let lines := splitOn lineFeed newContent in
    let firstLine := hd EmptyString lines in
    let newContent' :=
      if String.prefix "#" firstLine
      then
        let header := sliceFrom 2 firstLine in
        if String.eqb header name
        then trim (join newline (tl lines))
        else newContent
      else newContent in
    match findNote files name with
    | None => NotFound
    | Some file => Processed file newContent'
    end.

(** [getNote(name)]; [read file] is what [vault.read(file)] resolves to. *)
Definition getNote (files : list TFile) (read : TFile -> string)
    (name : string) : option string :=
  match findNote files name with
  | None => None
  | Some file => Some ("# " ++ name ++ newline ++ read file)
  end.

(** A vault with two notes. *)
Definition sampleFiles : list TFile :=
  [ {| basename := "plan"; filePath := "notes/plan.md" |};
    {| basename := "log"; filePath := "log.md" |} ].

Definition sampleRead (file : TFile) : string :=
  if String.eqb (basename file) "plan"
  then " first" ++ newline ++ "second" ++ newline
  else "entry".

(** ** The provider of chat clients (class [LLMProvider]) *)

Module LLMProvider.

(** The values that a key of a configuration object can hold. *)
Inductive Value :=
| VUndefined
| VNull
| VBool (b : bool)
| VNumber (q : Qc)
| VString (s : string)
| VObject (ref : nat).

(** A configuration object: its own keys.  A key can be present and hold
    [undefined]. *)
Abbreviation Config := (gmap string Value).

Definition isUndefined (v : Value) : bool :=
  match v with
  | VUndefined => true
  | _ => false
  end.

(** [obj[key]], [undefined] for a key that the object does not have. *)
Definition readKey (obj : Config) (key : string) : Value :=
  default VUndefined (obj !! key).

(** [removeUndefinedKeys(obj)]: the object after the deletions, which is
    also what the function returns. *)
Definition removeUndefinedKeys (obj : Config) : Config :=
  filter (fun entry => isUndefined entry.2 = false) obj.

(** The fields of an [LLMProvider].  The callback may be missing, and may
    return nothing for a provider. *)
Record Provider := {
  baseConfig : Config;
  provider : string;
  getDefaultConfigByProvider : option (string -> option Config)
}.

(** [init(initArgs)] *)
Definition init (providerArg : string) (baseConfigArg : option Config)
    (callback : option (string -> option Config)) : Provider :=
  {| baseConfig := default ∅ baseConfigArg;
     provider := providerArg;
     getDefaultConfigByProvider := callback |}.

(** [getDefaultsByProvider(provider)] *)
Definition getDefaultsByProvider (this : Provider) (p : string) : Config :=
  removeUndefinedKeys
    (default ∅ (getDefaultConfigByProvider this ≫= fun callback => callback p)).

(** The argument of [getMergedConfig] and of [getChatClient]. *)
Record Args := {
  configOverrides : option Config;
  args_provider : option string;
  hasFunctionCall : option bool
}.

(** A string as a condition: the empty string counts as absent. *)
Definition truthy (s : option string) : option string :=
  match s with
  | Some s' => if String.eqb s' EmptyString then None else Some s'
  | None => None
  end.

(** [getMergedConfig(args)]; in a spread the later object wins. *)
Definition getMergedConfig (this : Provider) (args : option Args) : Config :=
  let overrides := default ∅ (args ≫= configOverrides) in
  let p := default (provider this) (truthy (args ≫= args_provider)) in
  let overrides' :=
    removeUndefinedKeys overrides ∪ getDefaultsByProvider this p in
  <["provider" := VString p]> (overrides' ∪ baseConfig this).

Definition questionMark : Ascii.ascii := Ascii.ascii_of_nat 63.

(** [config.baseURL?.split("?") || [undefined, undefined]], destructured
    into its first two elements.  A value that is neither a string nor
    absent has no [split]. *)
Definition splitBaseURL (baseURL : Value)
    : Exception + (option string * option string) :=
  match baseURL with
  | VUndefined | VNull => inr (None, None)
  | VString s =>
      let pieces := splitOn questionMark s in
      inr (pieces !! 0, pieces !! 1)
  | _ => inl (TypeError "config.baseURL?.split is not a function")
  end.

(** The constructor calls that [getChatClient] ends with: the class and
    the options it is constructed from, in the order of the source.
    [defaultQuery] holds the query string whose entries [URLSearchParams]
    reads. *)
Inductive Construction :=
| ChatOpenAI (apiKey model temperature : Value) (maxRetries : nat)
    (baseURL defaultQuery : option string)
| AzureChatOpenAI (temperature model apiKey azureOpenAIApiKey
                   azureOpenAIApiDeploymentName azureOpenAIApiInstanceName
                   azureOpenAIApiVersion : Value)
    (azureOpenAIBasePath : option string) (maxRetries : nat)
    (baseURL defaultQuery : option string)
| OllamaFunctions (baseUrl : option string) (model temperature : Value)
| ChatOllama (baseUrl : option string) (model temperature : Value)
| ChatGoogleGenerativeAI (maxRetries : nat) (model apiKey temperature : Value)
| ChatAnthropic (apiKey model temperature : Value) (maxRetries : nat)
| ChatGroq (apiKey model temperature : Value) (maxRetries : nat).

(** [getChatClient(args)].  The constructors belong to the client
    libraries and are not among the sources: [construct] stands for them,
    and gives the client built from the options or the exception that the
    constructor throws on them. *)
Definition getChatClient {BaseChatModel : Type}
    (construct : Construction -> Exception + BaseChatModel)
    (this : Provider) (args : option Args) : Exception + BaseChatModel :=
  let config := getMergedConfig this args in
  match splitBaseURL (readKey config "baseURL") with
  | inl e => inl e
  | inr (urlString, queryString) =>
      let url := truthy urlString in
      let query := truthy queryString in
      match readKey config "provider" with
      | VString p =>
          if String.eqb p "openai" then
            construct
              (ChatOpenAI (readKey config "apiKey") (readKey config "model")
                          (readKey config "temperature") 3 url query)
          else if String.eqb p "azure_openai" then
            construct
              (AzureChatOpenAI
                 (readKey config "temperature") (readKey config "model")
                 (readKey config "apiKey") (readKey config "apiKey")
                 (readKey config "azureOpenAIApiDeploymentName")
                 (readKey config "azureOpenAIApiInstanceName")
                 (readKey config "azureOpenAIApiVersion")
                 url 3 url query)
          else if String.eqb p "ollama" then
            if default false (args ≫= hasFunctionCall)
            then construct
                   (OllamaFunctions url (readKey config "model")
                                    (readKey config "temperature"))
            else construct
                   (ChatOllama url (readKey config "model")
                               (readKey config "temperature"))
          else if String.eqb p "gemini" then
            construct
              (ChatGoogleGenerativeAI 3 (readKey config "model")
                 (readKey config "apiKey") (readKey config "temperature"))
          else if String.eqb p "anthropic" then
            construct
              (ChatAnthropic (readKey config "apiKey")
                 (readKey config "model") (readKey config "temperature") 3)
          else if String.eqb p "groq" then
            construct
              (ChatGroq (readKey config "apiKey") (readKey config "model")
                        (readKey config "temperature") 3)
          else inl (ErrorObject "Unsupported provider")
      | _ => inl (ErrorObject "Unsupported provider")
      end
  end.

(** The names of the type [SupportedProviders]. *)
Definition supportedProviders : list string :=
  ["openai"; "ollama"; "gemini"; "anthropic"; "groq"; "azure_openai"].

(** The address that a client is constructed with, if any. *)
Definition clientURL (c : Construction) : option string :=
  match c with
  | ChatOpenAI _ _ _ _ url _ => url
  | AzureChatOpenAI _ _ _ _ _ _ _ _ _ url _ => url
  | OllamaFunctions url _ _ => url
  | ChatOllama url _ _ => url
  | ChatGoogleGenerativeAI _ _ _ _ => None
  | ChatAnthropic _ _ _ _ => None
  | ChatGroq _ _ _ _ => None
  end.

(** The provider whose client a constructor builds. *)
Definition clientProvider (c : Construction) : string :=
  match c with
  | ChatOpenAI _ _ _ _ _ _ => "openai"
  | AzureChatOpenAI _ _ _ _ _ _ _ _ _ _ _ => "azure_openai"
  | OllamaFunctions _ _ _ => "ollama"
  | ChatOllama _ _ _ => "ollama"
  | ChatGoogleGenerativeAI _ _ _ _ => "gemini"
  | ChatAnthropic _ _ _ _ => "anthropic"
  | ChatGroq _ _ _ _ => "groq"
  end.

(** A provider for a local model, with a key in its base configuration. *)
Definition localProvider : Provider :=
  init "ollama"
       (Some {[ "baseURL" := VString "http://localhost:11434?keep=1";
                "apiKey" := VString "base-key";
                "model" := VString "llama3" ]})
       (Some (fun p =>
                if String.eqb p "openai"
                then Some {[ "model" := VString "gpt-4o";
                             "apiKey" := VUndefined ]}
                else None)).

(** A call that switches to [openai] and passes an explicit [undefined]. *)
Definition openaiArgs : Args :=
  {| configOverrides := Some {[ "model" := VUndefined;
                                "temperature" := VNumber (num 1 2) ]};
     args_provider := Some "openai";
     hasFunctionCall := None |}.

End LLMProvider.

(** * Properties *)

Local Open Scope list_scope.

Section DagCheck.
Variable objects : gmap ObjRef CannoliObject.

Local Abbreviation edge := (dependsOn objects).
Local Abbreviation States := (gmap ObjRef DagCheckState).

Lemma extends_refl s : extends objects s s.
Proof. by split. Qed.

Lemma extends_trans s1 s2 s3 :
  extends objects s1 s2 -> extends objects s2 s3 -> extends objects s1 s3.
Proof.
  intros [a1 b1 c1 d1] [a2 b2 c2 d2]. split; auto.
  intros x. rewrite b2. apply b1.
Qed.

Lemma closed_rtc s x y :
  closed objects s -> s !! x = Some VISITED -> rtc edge x y ->
  s !! y = Some VISITED.
Proof.
  intros Hc Hx Hxy. induction Hxy as [|x y z Hxy _ IH]; [done|].
  apply IH. by apply (Hc x).
Qed.

Lemma visit_S fuel (s : States) (obj : ObjRef) :
  visit objects (S fuel) s obj =
  if decide (s !! obj = Some VISITING) then Some (false, s)
  else if decide (s !! obj = Some VISITED) then Some (true, s)
  else match visitEach (visit objects fuel)
               (getAllDependencies objects obj)
               (<[obj := VISITING]> s) with
       | None => None
       | Some (false, s') => Some (false, s')
       | Some (true, s') => Some (true, <[obj := VISITED]> s')
       end.
Proof.
  simpl. destruct (s !! obj) as [[]|]; repeat case_decide; congruence.
Qed.

(** Colouring a fresh node [VISITING] keeps the invariants. *)
Lemma enter_keeps (s : States) (obj : ObjRef) :
  s !! obj ≠ Some VISITED ->
  (closed objects s -> closed objects (<[obj := VISITING]> s)) /\
  (cycleFree objects s -> cycleFree objects (<[obj := VISITING]> s)).
Proof.
  intros Hobj. split.
  - intros Hc x d Hx Hd.
    destruct (decide (obj = x)) as [->|Hne]; [by rewrite lookup_insert_eq in Hx|].
    rewrite lookup_insert_ne in Hx by done.
    pose proof (Hc x d Hx Hd) as Hd'.
    rewrite lookup_insert_ne; [done|congruence].
  - intros Hc x Hx.
    destruct (decide (obj = x)) as [->|Hne]; [by rewrite lookup_insert_eq in Hx|].
    rewrite lookup_insert_ne in Hx by done. by apply Hc.
Qed.

(** Colouring a node [VISITED] once all its dependencies are. *)
Lemma leave_keeps (s : States) (obj : ObjRef) :
  s !! obj = Some VISITING ->
  (forall d, edge obj d -> s !! d = Some VISITED) ->
  closed objects s ->
  closed objects (<[obj := VISITED]> s) /\
  (cycleFree objects s -> cycleFree objects (<[obj := VISITED]> s)).
Proof.
  intros Hobj Hdeps Hc.
  assert (Hstay : forall d, s !! d = Some VISITED ->
                            <[obj := VISITED]> s !! d = Some VISITED).
  { intros d Hd. rewrite lookup_insert_ne; [done|congruence]. }
  split.
  - intros x d Hx Hd.
    destruct (decide (obj = x)) as [<-|Hne]; [by auto|].
    rewrite lookup_insert_ne in Hx by done. eauto.
  - intros Hf x Hx Hcyc.
    destruct (decide (obj = x)) as [<-|Hne].
    + assert (exists d, edge obj d /\ rtc edge d obj) as (d & Hd & Hback).
      { inversion Hcyc; subst; eauto using rtc_refl, tc_rtc. }
      pose proof (closed_rtc s d obj Hc (Hdeps d Hd) Hback). congruence.
    + rewrite lookup_insert_ne in Hx by done. by apply (Hf x).
Qed.

(** *** Calls that return [true] *)

Lemma visitEach_true (v : States -> ObjRef -> option (bool * States)) :
  (forall s obj s', v s obj = Some (true, s') ->
     extends objects s s' /\ s' !! obj = Some VISITED) ->
  forall deps s s', visitEach v deps s = Some (true, s') ->
    extends objects s s' /\ forall d, d ∈ deps -> s' !! d = Some VISITED.
Proof.
  intros Hv deps. induction deps as [|d deps IH]; intros s s' H; simpl in H.
  - simplify_eq. split; [apply extends_refl|]. by intros d ?%elem_of_nil.
  - destruct (v s d) as [[[] s1]|] eqn:Ed; simplify_eq.
    apply Hv in Ed as [He1 Hd]. apply IH in H as [He2 Hrest].
    split; [by eapply extends_trans|].
    intros d' [->|Hin]%elem_of_cons; [|by auto].
    by apply (ext_visited _ _ _ He2).
Qed.

Lemma visit_true fuel : forall s obj s',
  visit objects fuel s obj = Some (true, s') ->
  extends objects s s' /\ s' !! obj = Some VISITED.
Proof.
  induction fuel as [|fuel IH]; intros s obj s' H; [done|].
  rewrite visit_S in H. repeat case_decide; simplify_eq.
  { split; [apply extends_refl|done]. }
  destruct (visitEach _ _ _) as [[[] s2]|] eqn:E; simplify_eq.
  apply (visitEach_true _ IH) in E as [[Hvd Hvg Hcl Hcf] Hdeps].
  assert (Hobj2 : s2 !! obj = Some VISITING).
  { apply Hvg. by rewrite lookup_insert_eq. }
  destruct (enter_keeps s obj) as [Hin_c Hin_f]; [done|].
  split; [|by rewrite lookup_insert_eq]. split.
  - intros x Hx. destruct (decide (obj = x)) as [<-|Hne];
      [by rewrite lookup_insert_eq|].
    rewrite lookup_insert_ne by done. apply Hvd.
    by rewrite lookup_insert_ne.
  - intros x. destruct (decide (obj = x)) as [<-|Hne].
    + rewrite lookup_insert_eq. split; [done|congruence].
    + rewrite lookup_insert_ne by done. rewrite Hvg.
      by rewrite lookup_insert_ne.
  - intros Hc. apply leave_keeps; auto.
  - intros Hc Hf. apply leave_keeps; auto.
Qed.

(** *** Calls that return [false] *)

Lemma visitEach_false (v : States -> ObjRef -> option (bool * States)) :
  (forall s obj s', v s obj = Some (true, s') ->
     extends objects s s' /\ s' !! obj = Some VISITED) ->
  (forall s obj s', v s obj = Some (false, s') ->
     (forall x, s !! x = Some VISITING -> tc edge x obj) ->
     exists c, rtc edge obj c /\ tc edge c c) ->
  forall deps s s' root, visitEach v deps s = Some (false, s') ->
    (forall d, d ∈ deps -> edge root d) ->
    (forall x, s !! x = Some VISITING -> rtc edge x root) ->
    exists c, rtc edge root c /\ tc edge c c.
Proof.
  intros Hvt Hvf deps.
  induction deps as [|d deps IH]; intros s s' root H Hdeps Hstack;
    simpl in H; [done|].
  assert (Hd : edge root d) by (apply Hdeps, elem_of_cons; auto).
  destruct (v s d) as [[[] s1]|] eqn:Ed; simplify_eq.
  - apply Hvt in Ed as [He _].
    apply (IH s1 s' root H).
    + intros d' Hd'. apply Hdeps, elem_of_cons; auto.
    + intros x Hx. by apply Hstack, (ext_visiting _ _ _ He).
  - destruct (Hvf _ _ _ Ed) as (c & Hdc & Hcc).
    + intros x Hx. eapply tc_rtc_l; [by apply Hstack|by apply tc_once].
    + exists c. split; [by eapply rtc_l|done].
Qed.

Lemma visit_false fuel : forall s obj s',
  visit objects fuel s obj = Some (false, s') ->
  (forall x, s !! x = Some VISITING -> tc edge x obj) ->
  exists c, rtc edge obj c /\ tc edge c c.
Proof.
  induction fuel as [|fuel IH]; intros s obj s' H Hstack; [done|].
  rewrite visit_S in H. repeat case_decide; simplify_eq.
  { exists obj. split; [apply rtc_refl|by apply Hstack]. }
  destruct (visitEach _ _ _) as [[[] s2]|] eqn:E; simplify_eq.
  eapply (visitEach_false _ (visit_true fuel) IH) in E; [done|done|].
  intros x. destruct (decide (obj = x)) as [<-|Hne]; [by intros _|].
  rewrite lookup_insert_ne by done. intros Hx. by apply tc_rtc, Hstack.
Qed.

(** *** Termination: the fuel given by [isDAG] is enough *)

Lemma filter_length_le (f g : ObjRef -> bool) (l : list ObjRef) :
  (forall x, f x = true -> g x = true) ->
  length (List.filter f l) <= length (List.filter g l).
Proof.
  intros Hfg. induction l as [|a l IH]; simpl; [lia|].
  destruct (f a) eqn:Ef.
  - rewrite (Hfg a Ef). simpl. lia.
  - destruct (g a); simpl; lia.
Qed.

Lemma filter_length_lt (f g : ObjRef -> bool) (l : list ObjRef) y :
  (forall x, f x = true -> g x = true) ->
  y ∈ l -> g y = true -> f y = false ->
  length (List.filter f l) < length (List.filter g l).
Proof.
  intros Hfg Hy Hgy Hfy. induction l as [|a l IH]; simpl.
  { by apply elem_of_nil in Hy. }
  apply elem_of_cons in Hy as [->|Hy].
  - rewrite Hfy, Hgy. simpl.
    pose proof (filter_length_le f g l Hfg). lia.
  - specialize (IH Hy). destruct (f a) eqn:Ef.
    + rewrite (Hfg a Ef). simpl. lia.
    + destruct (g a); simpl; lia.
Qed.

Lemma filter_length_le_all {A : Type} (f : A -> bool) (l : list A) :
  length (List.filter f l) <= length l.
Proof. induction l as [|a l IH]; simpl; [lia|]. destruct (f a); simpl; lia. Qed.

Lemma mono_refl (s : States) : mono s s.
Proof. by intros x. Qed.

Lemma mono_trans (s1 s2 s3 : States) : mono s1 s2 -> mono s2 s3 -> mono s1 s3.
Proof. intros H1 H2 x Hx. by apply H2, H1. Qed.

Lemma mono_insert (s : States) (obj : ObjRef) (c : DagCheckState) :
  c <> UNVISITED -> mono s (<[obj := c]> s).
Proof.
  intros Hc x. unfold marked.
  destruct (decide (obj = x)) as [<-|Hne].
  - rewrite lookup_insert_eq. by destruct c.
  - by rewrite lookup_insert_ne.
Qed.

Lemma unmarked_mono (s s' : States) :
  mono s s' -> unmarked objects s' <= unmarked objects s.
Proof.
  intros Hm. apply filter_length_le. intros x Hx.
  destruct (marked s x) eqn:E; [|done].
  apply Hm in E. by rewrite E in Hx.
Qed.

Lemma unmarked_enter (s : States) (obj : ObjRef) :
  is_Some (objects !! obj) -> marked s obj = false ->
  unmarked objects (<[obj := VISITING]> s) < unmarked objects s.
Proof.
  intros [o Ho] Hun. apply (filter_length_lt _ _ _ obj).
  - intros x Hx. destruct (marked s x) eqn:E; [|done].
    apply (mono_insert s obj VISITING) in E; [|done]. by rewrite E in Hx.
  - apply list_elem_of_fmap. exists (obj, o). split; [done|].
    by apply elem_of_map_to_list.
  - by rewrite Hun.
  - unfold marked. by rewrite lookup_insert_eq.
Qed.

Lemma unmarked_bound (s : States) : unmarked objects s <= size objects.
Proof.
  unfold unmarked. rewrite <- length_map_to_list.
  rewrite <- (length_fmap fst (map_to_list objects)).
  apply filter_length_le_all.
Qed.

Lemma visitEach_total (v : States -> ObjRef -> option (bool * States))
    (fuel : nat) :
  (forall s obj, unmarked objects s < fuel ->
     exists b s', v s obj = Some (b, s') /\ mono s s') ->
  forall deps s, unmarked objects s < fuel ->
    exists b s', visitEach v deps s = Some (b, s') /\ mono s s'.
Proof.
  intros Hv deps. induction deps as [|d deps IH]; intros s Hs; simpl.
  { exists true, s. split; [done|apply mono_refl]. }
  destruct (Hv s d Hs) as (b & s1 & -> & Hm1).
  destruct b; [|by eauto].
  destruct (IH s1) as (b & s2 & -> & Hm2).
  { pose proof (unmarked_mono _ _ Hm1). lia. }
  exists b, s2. split; [done|by eapply mono_trans].
Qed.

Lemma visit_total fuel : forall s obj,
  unmarked objects s < fuel ->
  exists b s', visit objects fuel s obj = Some (b, s') /\ mono s s'.
Proof.
  induction fuel as [|fuel IH]; intros s obj Hs; [lia|].
  rewrite visit_S. repeat case_decide; eauto using mono_refl.
  assert (Hun : marked s obj = false).
  { unfold marked. by destruct (s !! obj) as [[]|]. }
  assert (exists b s2,
    visitEach (visit objects fuel) (getAllDependencies objects obj)
              (<[obj := VISITING]> s) = Some (b, s2)
    /\ mono (<[obj := VISITING]> s) s2) as (b & s2 & -> & Hm).
  { unfold getAllDependencies. destruct (objects !! obj) as [o|] eqn:Ho.
    - apply (visitEach_total _ fuel IH).
      assert (is_Some (objects !! obj)) as Hsome by eauto.
      pose proof (unmarked_enter s obj Hsome Hun). lia.
    - simpl. eauto using mono_refl. }
  assert (mono s s2) as Hm2.
  { apply (mono_trans _ (<[obj := VISITING]> s)); [|done].
    by apply mono_insert. }
  destruct b; eauto.
  eexists _, _. split; [done|].
  apply (mono_trans _ s2); [done|]. by apply mono_insert.
Qed.

(** *** The outer loop *)

Lemma isDAG_loop_spec fuel : forall values s,
  unmarked objects s < fuel ->
  (forall x, s !! x <> Some VISITING) ->
  closed objects s -> cycleFree objects s ->
  exists b, isDAG_loop objects fuel values s = Some b /\
    (b = false -> cyclic objects values) /\
    (b = true -> exists s',
       closed objects s' /\ cycleFree objects s' /\
       (forall x, s !! x = Some VISITED -> s' !! x = Some VISITED) /\
       (forall o, o ∈ values -> s' !! o = Some VISITED)).
Proof.
  intros values. induction values as [|obj rest IH];
    intros s Hfuel Hstack Hc Hf; simpl.
  { exists true. split; [done|]. split; [done|]. intros _. exists s.
    repeat split; auto. by intros o ?%elem_of_nil. }
  case_decide as Hobj.
  - destruct (IH s Hfuel Hstack Hc Hf) as (b & -> & Hfalse & Htrue).
    exists b. split; [done|]. split.
    + intros Hb. destruct (Hfalse Hb) as (o & c & Ho & Hoc & Hcc).
      exists o, c. rewrite elem_of_cons. auto.
    + intros Hb. destruct (Htrue Hb) as (s' & Hc' & Hf' & Hkeep & Hall).
      exists s'. repeat split; auto.
      intros o [->|Ho]%elem_of_cons; auto.
  - destruct (visit_total fuel s obj Hfuel) as ([] & s1 & Hv & Hm);
      rewrite Hv.
    + apply visit_true in Hv as [[Hvd Hvg Hcl Hcf] Hobj1].
      destruct (IH s1) as (b & -> & Hfalse & Htrue); auto.
      { pose proof (unmarked_mono _ _ Hm). lia. }
      { intros x Hx. apply (Hstack x). by apply Hvg. }
      exists b. split; [done|]. split.
      * intros Hb. destruct (Hfalse Hb) as (o & c & Ho & Hoc & Hcc).
        exists o, c. rewrite elem_of_cons. auto.
      * intros Hb. destruct (Htrue Hb) as (s' & Hc' & Hf' & Hkeep & Hall).
        exists s'. repeat split; auto.
        intros o [->|Ho]%elem_of_cons; auto.
    + exists false. split; [done|]. split; [|done]. intros _.
      apply visit_false in Hv as (c & Hoc & Hcc).
      * exists obj, c. rewrite elem_of_cons. auto.
      * intros x Hx. by destruct (Hstack x).
Qed.

(** [isDAG] returns, and its answer is [false] exactly on the graphs with
    a cycle. *)
Lemma isDAG_decides (values : list ObjRef) :
  exists b, isDAG objects values = Some b /\
            (b = false <-> cyclic objects values).
Proof.
  destruct (isDAG_loop_spec (S (size objects)) values ∅)
    as (b & Hb & Hfalse & Htrue).
  - pose proof (unmarked_bound ∅). lia.
  - intros x. by rewrite lookup_empty.
  - intros x d Hx. by rewrite lookup_empty in Hx.
  - intros x Hx. by rewrite lookup_empty in Hx.
  - exists b. split; [done|]. split; [done|].
    intros (o & c & Ho & Hoc & Hcc). destruct b; [|done].
    destruct (Htrue eq_refl) as (s' & Hc' & Hf' & _ & Hall).
    destruct (Hf' c); [|done].
    eapply closed_rtc; eauto.
Qed.

End DagCheck.

(** ** Usage table and cost *)

Lemma usageOf_withUsage (f : UsageTable -> UsageTable) (w : World) :
  usageOf (withUsage f w) = f (usageOf w).
Proof. unfold usageOf, withUsage. simpl. apply lookup_total_insert_eq. Qed.

Lemma lookupKey_alterKey {T : Type} (f : T -> T) (key key' : string)
    (t : list (string * T)) :
  lookupKey key' (alterKey f key t) =
  if decide (key = key') then f <$> lookupKey key' t else lookupKey key' t.
Proof.
  induction t as [|[k v] t IH]; simpl; [by case_decide|].
  repeat (case_decide; simpl; simplify_eq); done.
Qed.

Lemma lookupKey_app {T : Type} (key : string) (t1 t2 : list (string * T)) :
  lookupKey key (t1 ++ t2) =
  match lookupKey key t1 with
  | Some v => Some v
  | None => lookupKey key t2
  end.
Proof.
  induction t1 as [|[k v] t1 IH]; simpl; [done|]. by case_decide.
Qed.

Lemma insertIndex_split {T : Type} (i : N) (key : string) (v : T)
    (t : list (string * T)) :
  exists l1 l2, t = l1 ++ l2 /\ insertIndex i key v t = l1 ++ (key, v) :: l2.
Proof.
  induction t as [|[k x] t (l1 & l2 & Ht & IH)]; simpl.
  { by exists [], []. }
  destruct (arrayIndex k) as [j|]; [destruct (j <? i)%N|].
  - exists ((k, x) :: l1), l2. by rewrite IH, Ht at 1.
  - by exists [], ((k, x) :: t).
  - by exists [], ((k, x) :: t).
Qed.

(** A new key takes its place among the entries, which keep theirs. *)
Lemma setKey_new {T : Type} (key : string) (v : T) (t : list (string * T)) :
  lookupKey key t = None ->
  exists l1 l2,
    t = l1 ++ l2 /\ setKey key v t = l1 ++ (key, v) :: l2
    /\ (arrayIndex key = None -> l2 = []).
Proof.
  intros E. unfold setKey. rewrite E.
  destruct (arrayIndex key) as [i|].
  - destruct (insertIndex_split i key v t) as (l1 & l2 & Ht & Hi).
    by exists l1, l2.
  - exists t, []. by rewrite app_nil_r.
Qed.

Lemma lookupKey_inserted {T : Type} (key key' : string) (v : T)
    (l1 l2 : list (string * T)) :
  lookupKey key (l1 ++ l2) = None ->
  lookupKey key' (l1 ++ (key, v) :: l2) =
  if decide (key = key') then Some v else lookupKey key' (l1 ++ l2).
Proof.
  rewrite !lookupKey_app. simpl. intros E.
  destruct (decide (key = key')) as [<-|Hk].
  - by destruct (lookupKey key l1).
  - done.
Qed.

Lemma lookupKey_setKey {T : Type} (key : string) (v : T)
    (t : list (string * T)) :
  lookupKey key (setKey key v t) = Some v.
Proof.
  destruct (lookupKey key t) as [old|] eqn:E.
  - unfold setKey. by rewrite E, lookupKey_alterKey, decide_True, E.
  - destruct (setKey_new key v t E) as (l1 & l2 & Ht & -> & _).
    rewrite lookupKey_inserted, decide_True; [done..|]. by rewrite <- Ht.
Qed.

Lemma lookupKey_setKey_new {T : Type} (key key' : string) (v : T)
    (t : list (string * T)) :
  lookupKey key t = None ->
  lookupKey key' (setKey key v t) =
  if decide (key = key') then Some v else lookupKey key' t.
Proof.
  intros E. destruct (setKey_new key v t E) as (l1 & l2 & Ht & -> & _).
  rewrite lookupKey_inserted; by rewrite <- Ht.
Qed.

Lemma getProperty_Absent {T : Type} (key : string) (t : list (string * T)) :
  getProperty key t = Absent ->
  lookupKey key t = None /\ inherited key = false.
Proof.
  unfold getProperty. destruct (lookupKey key t); [done|].
  by destruct (inherited key).
Qed.

Lemma getProperty_Own {T : Type} (key : string) (t : list (string * T))
    (v : T) :
  getProperty key t = Own v <-> lookupKey key t = Some v.
Proof.
  unfold getProperty. destruct (lookupKey key t).
  - split; congruence.
  - by destruct (inherited key).
Qed.

Lemma getProperty_Inherited {T : Type} (key : string)
    (t : list (string * T)) :
  getProperty key t = Inherited <->
  lookupKey key t = None /\ inherited key = true.
Proof.
  unfold getProperty. destruct (lookupKey key t); [by split; [|intros []]|].
  destruct (inherited key); by split; [|intros []].
Qed.

Lemma modelInfo_not_inherited (key : string) :
  inherited key = true -> getProperty key modelInfo = Inherited.
Proof.
  intros Hk. apply getProperty_Inherited. split; [|done].
  unfold inherited, prototypeNames in Hk. simpl in Hk.
  repeat (apply orb_true_iff in Hk as [->%String.eqb_eq|Hk]; [done|]).
  done.
Qed.

Lemma recomputeCosts_typed (t : UsageTable) :
  typed t ->
  exists t', recomputeCosts t = (t', None) /\ Forall2 recomputed t t'.
Proof.
  induction 1 as [|[k u] t [m Hm] _ (t' & IH & Hall)]; simpl.
  { exists []. by split. }
  simpl in Hm. unfold calculateLLMCostForModel at 1. rewrite Hm, IH.
  eexists. split; [done|]. constructor; [|done].
  unfold recomputed, calculateLLMCostForModel. simpl. by rewrite Hm.
Qed.

Lemma recomputed_typed (t t' : UsageTable) :
  Forall2 recomputed t t' -> typed t -> typed t'.
Proof.
  induction 1 as [|old new t t' (_ & Hm & _) _ IH]; [done|].
  intros [Hold Ht]%Forall_cons. constructor; [|by apply IH].
  by rewrite Hm.
Qed.

Lemma sumCosts_typed (t : UsageTable) (acc : Qc) :
  typed t -> exists total, sumCosts t acc = inr total.
Proof.
  intros Ht. revert acc. induction Ht as [|[k u] t [m Hm] _ IH]; intros acc; simpl.
  { by eexists. }
  simpl in Hm. unfold calculateLLMCostForModel. rewrite Hm. apply IH.
Qed.

Lemma calculateAllLLMCosts_typed (w : World) :
  typed (usageOf w) ->
  exists t', Forall2 recomputed (usageOf w) t' /\
    calculateAllLLMCosts w = (withUsage (fun _ => t') w, Returned (usage (run w))).
Proof.
  intros (t' & Ht' & Hall)%recomputeCosts_typed.
  exists t'. split; [done|]. unfold calculateAllLLMCosts. by rewrite Ht'.
Qed.

(** On a well-typed table a stopping path gets its notification out. *)
Lemma emitStoppage_typed (why : StoppageReason) (msg : option string)
    (w : World) :
  typed (usageOf w) ->
  exists t' cost,
    Forall2 recomputed (usageOf w) t' /\
    emitStoppage why msg w =
    (notify {| reason := why; stoppage_usage := usage (run w);
               stoppage_totalCost := cost; message := msg |}
            (withUsage (fun _ => t') w),
     Returned tt).
Proof.
  intros Ht. destruct (calculateAllLLMCosts_typed w Ht) as (t' & Hall & Hc).
  destruct (sumCosts_typed t' (num 0 1)) as (cost & Hcost).
  { by eapply recomputed_typed. }
  exists t', cost. split; [done|].
  unfold emitStoppage, bind. rewrite Hc. unfold getTotalCost.
  by rewrite usageOf_withUsage, Hcost.
Qed.

(** Whatever happens, a stopping path adds at most one notification, and
    that one carries the reference [this.usage]. *)
Lemma emitStoppage_any (why : StoppageReason) (msg : option string)
    (w : World) :
  let (w', out) := emitStoppage why msg w in
  run w' = run w /\ store w' = store w /\ executed w' = executed w /\
  canvasQueue w' = canvasQueue w /\
  ((exists e, out = Thrown e /\ finished w' = finished w) \/
   (exists cost, out = Returned tt /\
      finished w' = finished w ++
        [{| reason := why; stoppage_usage := usage (run w);
            stoppage_totalCost := cost; message := msg |}])).
Proof.
  unfold emitStoppage, bind, calculateAllLLMCosts.
  destruct (recomputeCosts (usageOf w)) as [t' [e|]]; simpl.
  { repeat split; eauto. }
  unfold getTotalCost. destruct (sumCosts _ _) as [e|cost]; simpl.
  { repeat split; eauto. }
  repeat split; eauto.
Qed.

(** **** C7 *)

(** C7: [calculateLLMCostForModel] returns
    [promptTokens * promptTokenPrice + completionTokens * completionTokenPrice];
    the result is computed from the counters at the time of the call,
    whatever [totalCost] holds; with the prices of the [gpt-4] entry of the
    table, 1000 prompt tokens and 500 completion tokens cost
    0.03 + 0.03 = 0.06. *)
Theorem calculateLLMCostForModel_formula :
  (forall (m : Model) (mu : ModelUsage),
     calculateLLMCostForModel {| model := Some m; modelUsage := mu |} =
     inr (promptTokens mu * promptTokenPrice m
          + completionTokens mu * completionTokenPrice m)%Qc)
  /\ (forall (u : Usage) (cached : Qc),
        calculateLLMCostForModel (setTotalCost cached u) =
        calculateLLMCostForModel u)
  /\ (exists gpt4,
        lookupKey "gpt-4" modelInfo = Some gpt4
        /\ promptTokenPrice gpt4 = (num 3 100 / num 1000 1)%Qc
        /\ completionTokenPrice gpt4 = (num 6 100 / num 1000 1)%Qc
        /\ (forall calls cached,
              calculateLLMCostForModel
                {| model := Some gpt4;
                   modelUsage := {| promptTokens := num 1000 1;
                                    completionTokens := num 500 1;
                                    apiCalls := calls;
                                    totalCost := cached |} |}
              = inr (num 6 100))
        /\ (num 3 100 + num 3 100 = num 6 100)%Qc).
Proof.
  split; [|split].
  - intros m mu. unfold calculateLLMCostForModel. simpl. f_equal. ring.
  - intros u cached. by destruct u as [[m|] mu].
  - eexists. split; [reflexivity|]. split; [done|]. split; [done|].
    split; [|by apply Qc_is_canon].
    intros calls cached. unfold calculateLLMCostForModel. simpl.
    f_equal. by apply Qc_is_canon.
Qed.

(** ** Stopping paths *)



Lemma finished_check_typed (w : World) :
  typed (usageOf w) ->
  allObjectsFinished w && negb (isStopped (run w)) = true ->
  exists t' cost,
    when (allObjectsFinished w && negb (isStopped (run w)))
         (modify (withRun (setStopped true)) ;; emitStoppage complete None) w
    = (notify {| reason := complete; stoppage_usage := usage (run w);
                 stoppage_totalCost := cost; message := None |}
              (withUsage (fun _ => t') (withRun (setStopped true) w)),
       Returned tt).
Proof.
  intros Ht ->. simpl. unfold bind, modify.
  destruct (emitStoppage_typed complete None (withRun (setStopped true) w) Ht)
    as (t' & cost & _ & ->).
  by exists t', cost.
Qed.



Lemma allObjectsFinished_spec (w : World) :
  allObjectsFinished w = true <->
  forall obj, obj ∈ graphValues (run w) ->
    exists o, store w !! obj = Some o /\
              (status o = Complete \/ status o = Rejected).
Proof.
  unfold allObjectsFinished. rewrite forallb_forall. split.
  - intros H obj Hobj%list_elem_of_In. specialize (H obj Hobj).
    destruct (store w !! obj) as [o|]; [|done]. exists o. split; [done|].
    apply orb_true_iff in H as [H|H]; apply bool_decide_eq_true in H; auto.
  - intros H obj Hobj%list_elem_of_In.
    destruct (H obj Hobj) as (o & -> & [Ho|Ho]); rewrite Ho; by simpl.
Qed.

(** **** C1 *)

(** [stop()] notifies whatever the flag says (general form of the
    evaluation below). *)
Lemma stop_never_checks (w : World) :
  typed (usageOf w) ->
  exists s, reason s = user /\
            finished (stop w).1 = finished w ++ [s] /\
            isStopped (run (stop w).1) = true.
Proof.
  intros Ht. unfold stop, bind, modify.
  destruct (emitStoppage_typed user None (withRun (setStopped true) w) Ht)
    as (t' & cost & _ & ->).
  simpl.
  by exists {| reason := user; stoppage_usage := usage (run w);
               stoppage_totalCost := cost; message := None |}.
Qed.

(** C1: what the code does on two calls of [stop()] in a row.  Each call
    sets [isStopped] and then notifies without reading the flag: there are
    two notifications with reason [user], not one.  [error(message)] on a
    run that is already stopped notifies again in the same way, while the
    "all finished" check does read the flag and stays silent. *)
Theorem stop_twice_notifies_twice :
  let w := newRun [("a", 0)] {[ 0 := plainItem "a" [] [] true ]}
                  None false false None in
  isStopped (run (stop w).1) = true
  /\ reason <$> finished ((stop ;; stop) w).1 = [user; user]
  /\ reason <$> finished ((stop ;; error (A:=unit) "late") w).1
     = [user; error_reason]
  /\ reason <$> finished
       ((stop ;;
         modify (withStore (alter (setStatus Complete) 0)) ;;
         objectUpdated (plainItem "a" [] [] true) Complete None) w).1
     = [user].
Proof. vm_compute. done. Qed.

(** ** The bookkeeping of a call *)

Lemma sameButUsage_refl (w : World) : sameButUsage w w.
Proof. by repeat split. Qed.

Lemma sameButUsage_trans (w1 w2 w3 : World) :
  sameButUsage w1 w2 -> sameButUsage w2 w3 -> sameButUsage w1 w3.
Proof.
  unfold sameButUsage. intros (? & ? & ? & ? & ?) (? & ? & ? & ? & ?).
  repeat split; congruence.
Qed.

Lemma sameButUsage_withUsage (f : UsageTable -> UsageTable) (w : World) :
  sameButUsage w (withUsage f w).
Proof. by repeat split. Qed.

Lemma sameButUsage_usageOf (w w' : World) :
  sameButUsage w w' -> usageOf w' = tables w' !!! usage (run w).
Proof. intros (Hr & _). unfold usageOf. by rewrite Hr. Qed.

Lemma bind_frame {A B : Type} (m : M A) (k : A -> M B) (w : World) :
  sameButUsage w (m w).1 ->
  (forall a w', sameButUsage w' (k a w').1) ->
  sameButUsage w (bind m k w).1.
Proof.
  intros Hm Hk. unfold bind. destruct (m w) as [w' [a|e|]]; simpl in *;
    [|done..].
  by eapply sameButUsage_trans.
Qed.

Lemma ensureUsage_frame (key : string) (found : Property Model) (w : World) :
  sameButUsage w (ensureUsage key found w).1.
Proof.
  unfold ensureUsage, bind, get.
  destruct (getProperty key (usageOf w)); simpl;
    [apply sameButUsage_refl..|].
  destruct found; simpl;
    first [apply sameButUsage_withUsage|apply sameButUsage_refl].
Qed.

Lemma addUsage_frame (key field : string) (f : Usage -> Usage) (w : World) :
  sameButUsage w (addUsage key field f w).1.
Proof.
  unfold addUsage, bind, get.
  destruct (getProperty key (usageOf w)); simpl;
    first [apply sameButUsage_withUsage|apply sameButUsage_refl].
Qed.

Lemma mockResponse_world (request : CreateChatCompletionRequest)
    (random : Qc) (w : World) :
  (mockResponse request random w).1 = w.
Proof.
  unfold mockResponse, throw, ret. repeat case_match; done.
Qed.

Lemma mockResponse_outcome (request : CreateChatCompletionRequest)
    (random : Qc) (w w' : World) :
  (mockResponse request random w).2 = (mockResponse request random w').2.
Proof.
  unfold mockResponse, throw, ret. repeat case_match; done.
Qed.

Lemma firstMessage_world (data : ResponseData) (w : World) :
  (firstMessage data w).1 = w.
Proof. unfold firstMessage, throw, ret. by destruct (choices data). Qed.

(** A call changes the usage table at most, whatever the branch and
    whatever the outcome. *)
Lemma callLLM_sameButUsage (request : CreateChatCompletionRequest)
    (verbose : bool) (random : Qc) (api : ApiOutcome) (w : World) :
  sameButUsage w (callLLM request verbose random api w).1.
Proof.
  assert (Hfirst : forall data w0,
            sameButUsage w0 (firstMessage data w0).1).
  { intros data w0. rewrite firstMessage_world. apply sameButUsage_refl. }
  unfold callLLM. unfold bind at 1. unfold get. simpl.
  destruct (isMock (run w) || negb (openai (run w))).
  - unfold callLLM_mock.
    apply bind_frame; [apply ensureUsage_frame|intros _ w1].
    apply bind_frame; [apply addUsage_frame|intros _ w2].
    apply bind_frame; [apply addUsage_frame|intros _ w3].
    rewrite mockResponse_world. apply sameButUsage_refl.
  - unfold callLLM_real, tryCatch.
    assert (Htry : sameButUsage w (callLLM_try request verbose api w).1).
    { unfold callLLM_try. destruct api as [data|e];
        [|apply sameButUsage_refl].
      apply bind_frame.
      { unfold when. destruct verbose; [|apply sameButUsage_refl].
        apply bind_frame; [apply Hfirst|intros; apply sameButUsage_refl]. }
      intros _ w1. apply bind_frame.
      { unfold recordUsage. destruct (data_usage data) as [reported|];
          [|apply sameButUsage_refl].
        destruct (modelName _ _) as [key|]; [|apply sameButUsage_refl].
        apply bind_frame; [apply ensureUsage_frame|intros _ w2].
        apply bind_frame; [apply addUsage_frame|intros _ w3].
        apply bind_frame; [apply addUsage_frame|intros _ w4].
        apply addUsage_frame. }
      intros _ w2. apply bind_frame; [apply Hfirst|].
      intros [m|] w3; apply sameButUsage_refl. }
    destruct (callLLM_try request verbose api w) as [w' [r|e|]]; done.
Qed.

Lemma ensured_recordable (key : string) (m : option Model) (t : UsageTable) :
  recordable key t -> is_Some (lookupKey key (ensured key m t)).
Proof.
  unfold recordable, ensured, getProperty.
  destruct (lookupKey key t) as [u|] eqn:E.
  - intros _. rewrite E. by eexists.
  - destruct (inherited key); [done|]. intros _.
    rewrite lookupKey_setKey. by eexists.
Qed.

Lemma ensureUsage_spec (key : string) (found : Property Model) (w : World) :
  (getProperty key (usageOf w) = Absent -> found <> Inherited) ->
  exists w1,
    ensureUsage key found w = (w1, Returned tt)
    /\ sameButUsage w w1
    /\ usageOf w1
       = ensured key (match found with Own m => Some m | _ => None end)
                 (usageOf w).
Proof.
  intros Hfound. unfold ensureUsage, ensured, bind, get.
  destruct (getProperty key (usageOf w)) eqn:E; simpl.
  - exists w. split; [done|]. split; [apply sameButUsage_refl|done].
  - exists w. split; [done|]. split; [apply sameButUsage_refl|done].
  - destruct found as [m| |]; [| by destruct Hfound |];
      (eexists; split; [reflexivity|];
       split; [apply sameButUsage_withUsage|apply usageOf_withUsage]).
Qed.

Lemma addUsage_spec (key field : string) (f : Usage -> Usage) (w : World) :
  is_Some (lookupKey key (usageOf w)) ->
  exists w1,
    addUsage key field f w = (w1, Returned tt)
    /\ sameButUsage w w1
    /\ usageOf w1 = alterKey f key (usageOf w).
Proof.
  intros [u Hu]. unfold addUsage, bind, get. simpl.
  rewrite (proj2 (getProperty_Own _ _ _) Hu).
  eexists. split; [reflexivity|].
  split; [apply sameButUsage_withUsage|apply usageOf_withUsage].
Qed.

Lemma alterKey_is_Some {T : Type} (f : T -> T) (key key' : string)
    (t : list (string * T)) :
  is_Some (lookupKey key' t) -> is_Some (lookupKey key' (alterKey f key t)).
Proof.
  intros [u Hu]. rewrite lookupKey_alterKey, Hu.
  case_decide; by eexists.
Qed.

(** ** The mock branch of [callLLM] *)

Lemma callLLM_mock_mode (request : CreateChatCompletionRequest)
    (verbose : bool) (random : Qc) (api : ApiOutcome) (w : World) :
  isMock (run w) = true \/ openai (run w) = false ->
  callLLM request verbose random api w = callLLM_mock request random w.
Proof.
  intros H. unfold callLLM, bind, get.
  by destruct H as [-> | ->]; [|rewrite orb_true_r].
Qed.

(** Where [this.usage[request.model]] is a function or object inherited
    from the prototype, the first [+=] of the mock branch throws and the
    call has changed nothing. *)
Lemma callLLM_mock_inherited (request : CreateChatCompletionRequest)
    (random : Qc) (w : World) :
  getProperty (request_model request) (usageOf w) = Inherited ->
  callLLM_mock request random w
  = (w, Thrown (TypeError
          "Cannot read properties of undefined (reading 'promptTokens')")).
Proof.
  intros H. unfold callLLM_mock, ensureUsage, addUsage, bind, get. simpl.
  rewrite H. simpl. by rewrite H.
Qed.

(** Otherwise the bookkeeping goes through and the response is made up. *)
Lemma callLLM_mock_world (request : CreateChatCompletionRequest)
    (random : Qc) (w : World) :
  recordable (request_model request) (usageOf w) ->
  exists w1,
    callLLM_mock request random w = mockResponse request random w1
    /\ sameButUsage w w1
    /\ usageOf w1 =
       alterKey (addApiCalls (num 1 1)) (request_model request)
         (alterKey
            (addPromptTokens
               (num (Z.of_nat (String.length (textMessages request))) 1
                / num 4 1)%Qc)
            (request_model request)
            (ensured (request_model request)
                     (lookupKey (request_model request) modelInfo)
                     (usageOf w))).
Proof.
  intros Hrec. set (key := request_model request) in *.
  assert (Hmodel : getProperty key (usageOf w) = Absent ->
            getProperty key modelInfo <> Inherited
            /\ match getProperty key modelInfo with
               | Own m => Some m
               | _ => None
               end = lookupKey key modelInfo).
  { intros [_ Hk]%getProperty_Absent. unfold getProperty. rewrite Hk.
    by destruct (lookupKey key modelInfo). }
  destruct (ensureUsage_spec key (getProperty key modelInfo) w)
    as (w1 & H1 & F1 & U1); [intros HA; by destruct (Hmodel HA)|].
  assert (ensured key
            (match getProperty key modelInfo with
             | Own m => Some m
             | _ => None
             end) (usageOf w)
          = ensured key (lookupKey key modelInfo) (usageOf w)) as Heq.
  { unfold ensured. destruct (getProperty key (usageOf w)) eqn:E; [done..|].
    by destruct (Hmodel eq_refl) as [_ ->]. }
  rewrite Heq in U1.
  destruct (addUsage_spec key "promptTokens"
              (addPromptTokens
                 (num (Z.of_nat (String.length (textMessages request))) 1
                  / num 4 1)%Qc) w1)
    as (w2 & H2 & F2 & U2).
  { rewrite U1. by apply ensured_recordable. }
  destruct (addUsage_spec key "apiCalls" (addApiCalls (num 1 1)) w2)
    as (w3 & H3 & F3 & U3).
  { rewrite U2, U1. by apply alterKey_is_Some, ensured_recordable. }
  exists w3. split.
  - unfold callLLM_mock. fold key. unfold bind at 1. rewrite H1.
    unfold bind at 1. rewrite H2. unfold bind. by rewrite H3.
  - split; [by repeat (eapply sameButUsage_trans; [eassumption|])|].
    by rewrite U3, U2, U1.
Qed.


Lemma string_length_app (s1 s2 : string) :
  String.length (s1 ++ s2)%string = String.length s1 + String.length s2.
Proof. induction s1 as [|a s1 IH]; simpl; [done|]. by rewrite IH. Qed.

Lemma messageText_length (m : ChatCompletionRequestMessage) :
  String.length (messageText m) = messageLength m.
Proof.
  unfold messageText, messageLength, printString.
  destruct (function_call m), (content m);
    rewrite !string_length_app; simpl; lia.
Qed.

Lemma textMessages_length_from (msgs : list ChatCompletionRequestMessage) :
  forall acc : string,
    String.length
      (fold_left (fun acc m => (acc ++ messageText m)%string) msgs acc)
    = String.length acc + sum_list (messageLength <$> msgs).
Proof.
  induction msgs as [|m msgs IH]; intros acc; csimpl; [lia|].
  rewrite IH, string_length_app, messageText_length. lia.
Qed.


(** **** C8 *)




(** **** C2 *)

(** C2: what the code does with a model name that the price table does not
    know.  In mock mode the call succeeds and stores a usage record whose
    model is [undefined]; from then on every cost computation throws a
    [TypeError], so [stop()] throws as well and no stoppage is notified.
    With a backend the provider's answer is lost: reading [model.name]
    throws inside the [try], the [TypeError] is what the call returns, and
    nothing is recorded. *)
Theorem unknown_model_breaks_costs :
  let request := plainRequest "gpt-4-32k" "hi" in
  let w1 := (callLLM request false (num 0 1) sampleAnswer mockRun).1 in
  (callLLM request false (num 0 1) sampleAnswer mockRun).2
    = Returned (Message placeholderResponse)
  /\ model <$> lookupKey "gpt-4-32k" (usageOf w1) = Some None
  /\ (calculateAllLLMCosts w1).2
     = Thrown (TypeError
         "Cannot read properties of undefined (reading 'promptTokenPrice')")
  /\ (getTotalCost w1).2
     = Thrown (TypeError
         "Cannot read properties of undefined (reading 'promptTokenPrice')")
  /\ (stop w1).2
     = Thrown (TypeError
         "Cannot read properties of undefined (reading 'promptTokenPrice')")
  /\ finished (stop w1).1 = []
  /\ (callLLM request false (num 0 1) sampleAnswer liveRun).2
     = Returned (ErrorValue (TypeError
         "Cannot read properties of undefined (reading 'name')"))
  /\ usageOf (callLLM request false (num 0 1) sampleAnswer liveRun).1 = [].
Proof. vm_compute. done. Qed.

(** ** The random draw *)

Lemma pick_in_range (random : Qc) (options : list string) :
  (num 0 1 <= random)%Qc -> (random < num 1 1)%Qc -> options <> [] ->
  exists c, pick random options = Some c /\ c ∈ options.
Proof.
  intros Hlo Hhi Hne. unfold pick.
  set (n := Z.of_nat (length options)).
  assert (Hn : (0 < n)%Z) by (destruct options; [done|simpl in n; lia]).
  assert (Hthis : (this (random * num n 1)%Qc == this random * inject_Z n)%Q).
  { simpl. rewrite !Qred_correct. reflexivity. }
  assert (Hlo' : (0 <= this random)%Q) by exact Hlo.
  assert (Hhi' : (this random < 1)%Q) by exact Hhi.
  assert (H0 : (0 <= Qfloor (random * num n 1)%Qc)%Z).
  { change 0%Z with (Qfloor 0%Q). apply Qfloor_resp_le. rewrite Hthis.
    apply Qmult_le_0_compat; [done|].
    change 0%Q with (inject_Z 0). rewrite <- Zle_Qle. lia. }
  assert (H1 : (Qfloor (random * num n 1)%Qc < n)%Z).
  { rewrite Zlt_Qlt. eapply Qle_lt_trans; [apply Qfloor_le|].
    rewrite Hthis. rewrite <- (Qmult_1_l (inject_Z n)) at 2.
    apply Qmult_lt_compat_r; [|done].
    change 0%Q with (inject_Z 0). rewrite <- Zlt_Qlt. lia. }
  destruct (Z.ltb_spec (Qfloor (random * num n 1)%Qc) 0) as [?|_]; [lia|].
  destruct (lookup_lt_is_Some_2 options
              (Z.to_nat (Qfloor (random * num n 1)%Qc))) as [c Hc].
  { subst n. lia. }
  exists c. split; [done|]. apply list_elem_of_lookup. eauto.
Qed.

(** ** What [callLLM] resolves to *)

Lemma callLLM_real_mode (request : CreateChatCompletionRequest)
    (verbose : bool) (random : Qc) (api : ApiOutcome) (w : World) :
  isMock (run w) = false -> openai (run w) = true ->
  callLLM request verbose random api w = callLLM_real request verbose api w.
Proof. intros Hm Ho. unfold callLLM, bind, get. by rewrite Hm, Ho. Qed.

(** The [catch] makes a value of whatever the [try] block throws. *)
Lemma callLLM_real_never_throws (request : CreateChatCompletionRequest)
    (verbose : bool) (api : ApiOutcome) (w : World) (e : Exception) :
  (callLLM_real request verbose api w).2 <> Thrown e.
Proof.
  unfold callLLM_real, tryCatch.
  by destruct (callLLM_try request verbose api w) as [w' [r|e'|]].
Qed.

Lemma bind_ends {A B : Type} (m : M A) (k : A -> M B) (w : World) :
  (m w).2 <> OutOfFuel ->
  (forall a w', (k a w').2 <> OutOfFuel) ->
  (bind m k w).2 <> OutOfFuel.
Proof.
  intros Hm Hk. unfold bind. destruct (m w) as [w' [a|e|]]; simpl in *;
    [apply Hk|done..].
Qed.

Lemma ensureUsage_ends (key : string) (found : Property Model) (w : World) :
  found <> Inherited -> (ensureUsage key found w).2 <> OutOfFuel.
Proof.
  intros Hfound. unfold ensureUsage, bind, get.
  destruct (getProperty key (usageOf w)); simpl; [done..|].
  by destruct found.
Qed.

Lemma addUsage_ends (key field : string) (f : Usage -> Usage) (w : World) :
  (addUsage key field f w).2 <> OutOfFuel.
Proof.
  unfold addUsage, bind, get. by destruct (getProperty key (usageOf w)).
Qed.

Lemma getProperty_plain {T : Type} (key : string) (t : list (string * T)) :
  inherited key = false -> getProperty key t <> Inherited.
Proof.
  intros Hk. unfold getProperty. rewrite Hk. by destruct (lookupKey key t).
Qed.

(** For a model name that is not inherited from the prototype the [try]
    block ends by returning or by throwing. *)
Lemma callLLM_try_ends (request : CreateChatCompletionRequest)
    (verbose : bool) (api : ApiOutcome) (w : World) :
  inherited (request_model request) = false ->
  (callLLM_try request verbose api w).2 <> OutOfFuel.
Proof.
  intros Hk. unfold callLLM_try. destruct api as [data|e]; [|done].
  assert (Hfirst : forall w0, (firstMessage data w0).2 <> OutOfFuel).
  { intros w0. unfold firstMessage. by destruct (choices data). }
  apply bind_ends.
  { unfold when. destruct verbose; [|done].
    apply bind_ends; [apply Hfirst|done]. }
  intros _ w1. apply bind_ends.
  { unfold recordUsage. destruct (data_usage data) as [reported|]; [|done].
    destruct (modelName _ _) as [key|]; [|done].
    apply bind_ends; [by apply ensureUsage_ends, getProperty_plain|].
    intros _ w2. apply bind_ends; [apply addUsage_ends|intros _ w3].
    apply bind_ends; [apply addUsage_ends|intros _ w4].
    apply addUsage_ends. }
  intros _ w2. apply bind_ends; [apply Hfirst|].
  by intros [m|] w3.
Qed.

(** The mock branch returns a message when its bookkeeping goes through
    and the choice function, if any, has the enum where it is read. *)
Lemma callLLM_mock_returns (request : CreateChatCompletionRequest)
    (random : Qc) (w : World) :
  recordable (request_model request) (usageOf w) ->
  choiceShaped request ->
  exists m, (callLLM_mock request random w).2 = Returned (Message m).
Proof.
  intros Hrec Hshape.
  destruct (callLLM_mock_world request random w Hrec) as (w1 & -> & _).
  unfold mockResponse, throw, ret.
  destruct (findChoiceFunction request) as [fn|] eqn:Hfn; [|by eexists].
  destruct (parameters fn) as [params|] eqn:Hparams; [|by eexists].
  destruct (Hshape fn params Hfn Hparams) as (options & ->).
  case_bool_decide; by eexists.
Qed.

(** **** C6 *)

(** C6, what the code does: the mock branch stands before the [try] and
    is not guarded by it.  With a model backend nothing is thrown: a
    failure of [createChatCompletion], like every other exception of the
    branch, is the value returned.  In mock mode the call returns a
    message as long as the bookkeeping goes through and the choice
    function has its enum; but a request whose [enter_choice] function has
    a schema without [properties], and a request for the model name
    [constructor], make it throw a [TypeError], where the same requests
    give a value on a run with a backend. *)
Theorem callLLM_mock_branch_throws :
  (forall (w : World) request verbose random api e,
      isMock (run w) = false -> openai (run w) = true ->
      (callLLM request verbose random api w).2 <> Thrown e)
  /\ (forall (w : World) request verbose random e,
        isMock (run w) = false -> openai (run w) = true ->
        callLLM request verbose random (ApiRejected e) w
        = (w, Returned (ErrorValue e)))
  /\ (forall (w : World) request verbose random api,
        isMock (run w) = false -> openai (run w) = true ->
        inherited (request_model request) = false ->
        exists r, (callLLM request verbose random api w).2 = Returned r)
  /\ (forall (w : World) request verbose random api,
        isMock (run w) = true \/ openai (run w) = false ->
        recordable (request_model request) (usageOf w) ->
        choiceShaped request ->
        exists m, (callLLM request verbose random api w).2
                  = Returned (Message m))
  /\ (callLLM bareChoiceRequest false (num 0 1) sampleAnswer mockRun).2
     = Thrown (TypeError
         "Cannot read properties of undefined (reading 'choice')")
  /\ (callLLM (plainRequest "constructor" "hi") false (num 0 1) sampleAnswer
              mockRun).2
     = Thrown (TypeError
         "Cannot read properties of undefined (reading 'promptTokens')")
  /\ (callLLM bareChoiceRequest false (num 0 1) sampleAnswer liveRun).2
     = Returned (Message {| role := "assistant"; content := Some "Hello";
                            function_call := None |})
  /\ (callLLM (plainRequest "toString" "hi") false (num 0 1) sampleAnswer
              liveRun).2
     = Returned (ErrorValue (TypeError
         "Cannot read properties of undefined (reading 'promptTokens')")).
Proof.
  split; [|split; [|split; [|split]]].
  - intros w request verbose random api e Hm Ho.
    rewrite (callLLM_real_mode _ _ _ _ _ Hm Ho).
    apply callLLM_real_never_throws.
  - intros w request verbose random e Hm Ho.
    by rewrite (callLLM_real_mode _ _ _ _ _ Hm Ho).
  - intros w request verbose random api Hm Ho Hk.
    rewrite (callLLM_real_mode _ _ _ _ _ Hm Ho).
    pose proof (callLLM_try_ends request verbose api w Hk) as Hends.
    unfold callLLM_real, tryCatch.
    destruct (callLLM_try request verbose api w) as [w' [r|e|]];
      simpl in *; by eauto.
  - intros w request verbose random api Hmock Hrec Hshape.
    rewrite (callLLM_mock_mode _ _ _ _ _ Hmock).
    by apply callLLM_mock_returns.
  - by vm_compute.
Qed.

(** **** C10 *)

(** [find] stops at the first function of that name: a later one is not
    looked at, even when it is the only one with a choice to make. *)
Lemma mock_reads_first_choice_function_only :
  (exists fn params options,
      fn ∈ twoChoiceFunctions /\ fn_name fn = "enter_choice"
      /\ parameters fn = Some params /\ choiceEnum params = inr options
      /\ options <> [])
  /\ (callLLM twoChoiceRequest false (num 0 1) sampleAnswer mockRun).2
     = Returned (Message {| role := "assistant";
                            content := Some "Mock response";
                            function_call := None |}).
Proof.
  split; [|by vm_compute].
  exists (createChoiceFunction ["yes"]). eexists _, ["yes"].
  split; [|done]. unfold twoChoiceFunctions.
  apply elem_of_cons; right. by apply elem_of_cons; left.
Qed.

Lemma findChoiceFunction_first (request : CreateChatCompletionRequest)
    (fn : ChatCompletionFunctions) :
  findChoiceFunction request = Some fn <->
  exists before after,
    functions request = Some (before ++ fn :: after)
    /\ fn_name fn = "enter_choice"
    /\ forall g, g ∈ before -> fn_name g <> "enter_choice".
Proof.
  unfold findChoiceFunction. destruct (functions request) as [fns|]; split.
  - induction fns as [|g fns IH]; simpl; [done|].
    destruct (String.eqb_spec (fn_name g) "enter_choice") as [Hg|Hg].
    + intros [= ->]. exists [], fns. split; [done|]. split; [done|].
      by intros ? ?%elem_of_nil.
    + intros (before & after & [= ->] & Hfn & Hbefore)%IH.
      exists (g :: before), after. split; [done|]. split; [done|].
      intros g' [->|?]%elem_of_cons; auto.
  - intros (before & after & [= ->] & Hfn & Hbefore).
    induction before as [|g before IH]; simpl.
    + by rewrite (proj2 (String.eqb_eq _ _) Hfn).
    + destruct (String.eqb_spec (fn_name g) "enter_choice") as [Hg|Hg].
      * destruct (Hbefore g); [apply elem_of_cons; by left|done].
      * apply IH. intros g' Hg'. apply Hbefore, elem_of_cons. by right.
  - done.
  - by intros (? & ? & ? & _).
Qed.

(** C10, as the code has it: in mock mode, when [this.usage[request.model]]
    is a usage record or nothing and the first function named
    [enter_choice] of the request has a non-empty
    [parameters.properties.choice.enum], the response is an assistant
    message whose [function_call] is named [enter_choice] and whose
    [choice] argument is, for every value of the random draw in [0, 1), an
    element of that enum.  When the request has no function of that name,
    or the first one has no parameters or an empty enum, the response is
    the placeholder: role [assistant], content [Mock response], no
    [function_call]. *)
Theorem mock_response_shape (w : World)
    (request : CreateChatCompletionRequest) (verbose : bool) (random : Qc)
    (api : ApiOutcome) :
  isMock (run w) = true \/ openai (run w) = false ->
  recordable (request_model request) (usageOf w) ->
  (num 0 1 <= random)%Qc -> (random < num 1 1)%Qc ->
  (forall fn params options,
      findChoiceFunction request = Some fn ->
      parameters fn = Some params ->
      choiceEnum params = inr options ->
      options <> [] ->
      exists c, c ∈ options /\
        (callLLM request verbose random api w).2 =
        Returned (Message
          {| role := "assistant";
             content := Some "Mock response";
             function_call :=
               Some {| fc_name := "enter_choice";
                       arguments := choiceArguments (Some c) |} |}))
  /\ (findChoiceFunction request = None
      \/ (exists fn, findChoiceFunction request = Some fn
                     /\ parameters fn = None)
      \/ (exists fn params, findChoiceFunction request = Some fn
                            /\ parameters fn = Some params
                            /\ choiceEnum params = inr []) ->
      (callLLM request verbose random api w).2 =
      Returned (Message {| role := "assistant";
                           content := Some "Mock response";
                           function_call := None |}))
  /\ (forall fn, findChoiceFunction request = Some fn <->
        exists before after,
          functions request = Some (before ++ fn :: after)
          /\ fn_name fn = "enter_choice"
          /\ forall g, g ∈ before -> fn_name g <> "enter_choice").
Proof.
  intros Hmock Hrec Hlo Hhi. rewrite (callLLM_mock_mode _ _ _ _ _ Hmock).
  destruct (callLLM_mock_world request random w Hrec) as (w1 & -> & _).
  split; [|split; [|apply findChoiceFunction_first]].
  - intros fn params options Hfn Hparams Henum Hne.
    destruct (pick_in_range random options Hlo Hhi Hne) as (c & Hpick & Hc).
    exists c. split; [done|].
    unfold mockResponse, throw, ret.
    rewrite Hfn, Hparams, Henum, Hpick.
    by rewrite bool_decide_eq_true_2 by (destruct options; [done|simpl; lia]).
  - intros Hcases. unfold mockResponse, throw, ret.
    by destruct Hcases
      as [-> | [(fn & -> & ->) | (fn & params & -> & -> & ->)]].
Qed.

Lemma mock_response_shape_witness :
  (isMock (run mockRun) = true \/ openai (run mockRun) = false)
  /\ recordable "gpt-4" (usageOf mockRun)
  /\ (num 0 1 <= num 2 3)%Qc /\ (num 2 3 < num 1 1)%Qc
  /\ exists c, c ∈ ["yes"; "no"; "maybe"] /\
       (callLLM (choiceRequest ["yes"; "no"; "maybe"]) false (num 2 3)
                sampleAnswer mockRun).2 =
       Returned (Message
         {| role := "assistant";
            content := Some "Mock response";
            function_call :=
              Some {| fc_name := "enter_choice";
                      arguments := choiceArguments (Some c) |} |}).
Proof.
  assert (H1 : isMock (run mockRun) = true \/ openai (run mockRun) = false)
    by (left; reflexivity).
  assert (H0 : recordable "gpt-4" (usageOf mockRun)) by (by vm_compute).
  assert (H2 : (num 0 1 <= num 2 3)%Qc) by (by vm_compute).
  assert (H3 : (num 2 3 < num 1 1)%Qc) by (by vm_compute).
  split; [exact H1|]. split; [exact H0|]. split; [exact H2|].
  split; [exact H3|].
  apply (proj1 (mock_response_shape mockRun
                  (choiceRequest ["yes"; "no"; "maybe"]) false (num 2 3)
                  sampleAnswer H1 H0 H2 H3)
               (createChoiceFunction ["yes"; "no"; "maybe"])
               {| parameters_type := "object";
                  properties :=
                    Some {| choice :=
                              Some {| choice_type := "string";
                                      enum := Some ["yes"; "no"; "maybe"] |} |};
                  required := ["choice"] |}
               ["yes"; "no"; "maybe"]); done.
Defined.

(** ** Validation and start on a cyclic graph *)

Lemma sameShape_dependsOn (s1 s2 : gmap ObjRef CannoliObject) :
  sameShape s1 s2 -> forall x y, dependsOn s1 x y -> dependsOn s2 x y.
Proof.
  intros Hs x y. unfold dependsOn, getAllDependencies.
  specialize (Hs x).
  destruct (s1 !! x) as [a|], (s2 !! x) as [b|]; simpl in Hs; try done.
  by injection Hs as -> _ _.
Qed.

Lemma sameShape_sym (s1 s2 : gmap ObjRef CannoliObject) :
  sameShape s1 s2 -> sameShape s2 s1.
Proof. by intros Hs obj. Qed.

Lemma sameShape_trans (s1 s2 s3 : gmap ObjRef CannoliObject) :
  sameShape s1 s2 -> sameShape s2 s3 -> sameShape s1 s3.
Proof. intros H1 H2 obj. by rewrite H1. Qed.

Lemma sameShape_setStatus (s : gmap ObjRef CannoliObject)
    (newStatus : CannoliObjectStatus) (obj : ObjRef) :
  sameShape s (alter (setStatus newStatus) obj s).
Proof.
  intros x. rewrite lookup_alter. case_decide as Hx; [|done].
  subst x. by destruct (s !! obj).
Qed.

Lemma tc_mono {A : Type} (R1 R2 : relation A) :
  (forall x y, R1 x y -> R2 x y) -> forall x y, tc R1 x y -> tc R2 x y.
Proof.
  intros Hsub x y H. induction H; [by apply tc_once, Hsub|].
  eapply tc_l; eauto.
Qed.

Lemma sameShape_cyclic (s1 s2 : gmap ObjRef CannoliObject)
    (values : list ObjRef) :
  sameShape s1 s2 -> cyclic s1 values -> cyclic s2 values.
Proof.
  intros Hs (o & c & Ho & Hoc & Hcc). exists o, c. split; [done|]. split.
  - eapply rtc_subrel; [|done]. by apply sameShape_dependsOn.
  - eapply tc_mono; [|done]. by apply sameShape_dependsOn.
Qed.

Lemma objectReset_outcome (obj : ObjRef) (w : World) :
  exists new,
    objectReset obj w =
    ({| run := run w; store := alter (setStatus Pending) obj (store w);
        tables := tables w; finished := finished w;
        canvasQueue := canvasQueue w ++ new;
        executed := executed w |}, Returned tt)
    /\ List.filter isErrorNode new = []
    /\ (canvas (run w) = false -> new = []).
Proof.
  unfold objectReset, publish, bind, modify, get, withStore. simpl.
  rewrite lookup_alter. rewrite decide_True by done.
  destruct (store w !! obj) as [o|]; simpl.
  - unfold objectPending, bind, get, when, modify, enqueue. simpl.
    destruct (canvas (run w)), (instanceofCallNode o); simpl.
    + by exists [ChangeNodeColor (id o) "0"].
    + exists []. by rewrite app_nil_r.
    + exists []. by rewrite app_nil_r.
    + exists []. by rewrite app_nil_r.
  - exists []. by rewrite app_nil_r.
Qed.

Lemma forEach_objectReset (values : list ObjRef) : forall w : World,
  exists st new,
    sameShape (store w) st /\
    forEach objectReset values w =
    ({| run := run w; store := st; tables := tables w;
        finished := finished w; canvasQueue := canvasQueue w ++ new;
        executed := executed w |}, Returned tt)
    /\ List.filter isErrorNode new = []
    /\ (canvas (run w) = false -> new = []).
Proof.
  induction values as [|obj rest IH]; intros w.
  { exists (store w), []. split; [done|]. rewrite app_nil_r.
    by destruct w. }
  destruct (objectReset_outcome obj w) as (new1 & H1 & Hf1 & Hc1).
  change (forEach objectReset (obj :: rest) w)
    with (let (w1, r) := objectReset obj w in
          match r with
          | Returned _ => forEach objectReset rest w1
          | Thrown e => (w1, Thrown e)
          | OutOfFuel => (w1, OutOfFuel)
          end).
  rewrite H1.
  match goal with |- context [forEach objectReset rest ?w1] =>
    destruct (IH w1) as (st & new2 & Hst & -> & Hf2 & Hc2)
  end.
  simpl in *. exists st, (new1 ++ new2). split.
  { eapply sameShape_trans; [apply sameShape_setStatus|exact Hst]. }
  rewrite app_assoc. split; [done|]. split.
  - by rewrite List.filter_app, Hf1, Hf2.
  - intros Hc. by rewrite (Hc1 Hc), (Hc2 Hc).
Qed.

Lemma forEach_objectValidate (values : list ObjRef) (w : World) :
  forEach objectValidate values w = (w, Returned tt).
Proof. induction values as [|obj rest IH]; simpl; [done|]. apply IH. Qed.

(** [error(message)] always throws; on a well-typed usage table it has
    notified the stoppage before. *)
Lemma error_outcome (msg : string) (w : World) :
  exists w' e,
    error (A:=unit) msg w = (w', Thrown e)
    /\ executed w' = executed w
    /\ isStopped (run w') = true
    /\ (typed (usageOf w) ->
        e = ErrorObject msg /\
        exists s, finished w' = finished w ++ [s]
                  /\ reason s = error_reason /\ message s = Some msg).
Proof.
  unfold error, bind, modify.
  pose proof (emitStoppage_any error_reason (Some msg)
                (withRun (setStopped true) w)) as Hany.
  destruct (emitStoppage error_reason (Some msg)
              (withRun (setStopped true) w)) as [w' out] eqn:E.
  destruct Hany as (Hrun & _ & Hexec & _ & Hout).
  assert (Htyped : typed (usageOf w) ->
            out = Returned tt /\
            exists s, finished w' = finished w ++ [s]
                      /\ reason s = error_reason /\ message s = Some msg).
  { intros Ht.
    destruct (emitStoppage_typed error_reason (Some msg)
                (withRun (setStopped true) w) Ht) as (t' & cost & _ & E').
    rewrite E' in E. injection E as <- <-. split; [done|].
    by eexists. }
  destruct Hout as [(e & -> & _)|(cost & -> & _)].
  - exists w', e. rewrite Hrun, Hexec.
    split; [done|]. split; [done|]. split; [done|].
    intros Ht. by destruct (Htyped Ht).
  - exists w', (ErrorObject msg). rewrite Hrun, Hexec.
    split; [done|]. split; [done|]. split; [done|].
    intros Ht. by destruct (Htyped Ht).
Qed.

Lemma vertexError_publishes (obj : ObjRef) (o : CannoliObject)
    (msg : string) (w : World) :
  store w !! obj = Some o ->
  vertexError obj msg w =
  objectError (setStatus Error o) (Some msg)
    (withStore (alter (setStatus Error) obj) w).
Proof.
  intros Ho. unfold vertexError, publish, bind, modify, get. simpl.
  by rewrite lookup_alter_eq, Ho.
Qed.

Lemma vertexError_outcome (obj : ObjRef) (o : CannoliObject) (msg : string)
    (w : World) :
  store w !! obj = Some o ->
  exists w' e,
    vertexError obj msg w = (w', Thrown e)
    /\ executed w' = executed w
    /\ isStopped (run w') = true
    /\ (typed (usageOf w) ->
        e = ErrorObject msg /\
        exists s, finished w' = finished w ++ [s]
                  /\ reason s = error_reason /\ message s = Some msg).
Proof.
  intros Ho. rewrite (vertexError_publishes _ _ _ _ Ho).
  unfold objectError, bind, get, when. simpl.
  destruct (canvas (run w) && instanceofCannoliVertex o); simpl.
  - destruct (error_outcome msg
               (enqueue (AddErrorNode (id o) msg)
                  (withStore (alter (setStatus Error) obj) w)))
      as (w' & e & -> & ? & ? & ?).
    by exists w', e.
  - destruct (error_outcome msg (withStore (alter (setStatus Error) obj) w))
      as (w' & e & -> & ? & ? & ?).
    by exists w', e.
Qed.

(** The loop of [validate] that reports the cycle stops at the first
    vertex. *)
Lemma report_cycle (values : list ObjRef) (w : World) :
  (exists obj o, obj ∈ values /\ store w !! obj = Some o
                 /\ instanceofCannoliVertex o = true) ->
  exists w' e,
    forEach
      (fun obj =>
         let* w' := get in
         match store w' !! obj with
         | Some o => when (instanceofCannoliVertex o)
                          (vertexError obj cycleMessage)
         | None => ret tt
         end)
      values w = (w', Thrown e)
    /\ executed w' = executed w
    /\ isStopped (run w') = true
    /\ (typed (usageOf w) ->
        e = ErrorObject cycleMessage /\
        exists s, finished w' = finished w ++ [s]
                  /\ reason s = error_reason
                  /\ message s = Some cycleMessage).
Proof.
  induction values as [|x rest IH]; intros (obj & o & Hin & Ho & Hv).
  { by apply elem_of_nil in Hin. }
  simpl. unfold bind at 1. unfold bind at 1, get.
  destruct (store w !! x) as [ox|] eqn:Hx.
  - destruct (instanceofCannoliVertex ox) eqn:Hvx; simpl.
    + destruct (vertexError_outcome x ox cycleMessage w Hx)
        as (w' & e & -> & ? & ? & ?).
      by exists w', e.
    + apply IH. apply elem_of_cons in Hin as [->|Hin]; [congruence|eauto].
  - simpl. apply IH. apply elem_of_cons in Hin as [->|Hin]; [congruence|eauto].
Qed.

Lemma validate_cyclic (w : World) :
  cyclic (store w) (graphValues (run w)) -> hasVertex w ->
  exists w' e,
    validate w = (w', Thrown e)
    /\ executed w' = executed w
    /\ isStopped (run w') = true
    /\ (typed (usageOf w) ->
        e = ErrorObject cycleMessage /\
        exists s, finished w' = finished w ++ [s]
                  /\ reason s = error_reason
                  /\ message s = Some cycleMessage).
Proof.
  intros Hcyc Hvertex. unfold validate, bind, get.
  rewrite forEach_objectValidate.
  destruct (isDAG_decides (store w) (graphValues (run w)))
    as (b & -> & Hb).
  rewrite (proj2 Hb Hcyc). by apply report_cycle.
Qed.

Lemma reset_outcome (w : World) :
  exists st new,
    sameShape (store w) st /\
    reset w =
    ({| run := setStopped false (run w); store := st; tables := tables w;
        finished := finished w; canvasQueue := canvasQueue w ++ new;
        executed := executed w |}, Returned tt)
    /\ List.filter isErrorNode new = []
    /\ (canvas (run w) = false -> new = []).
Proof.
  change (reset w)
    with (forEach objectReset (graphValues (run w))
            (withRun (setStopped false) w)).
  destruct (forEach_objectReset (graphValues (run w))
              (withRun (setStopped false) w))
    as (st & new & Hst & -> & Hf & Hc).
  by exists st, new.
Qed.

Lemma start_cyclic (w : World) :
  cyclic (store w) (graphValues (run w)) -> hasVertex w ->
  exists w' e,
    start w = (w', Thrown e)
    /\ executed w' = executed w
    /\ isStopped (run w') = true
    /\ (typed (usageOf w) ->
        e = ErrorObject cycleMessage /\
        exists s, finished w' = finished w ++ [s]
                  /\ reason s = error_reason
                  /\ message s = Some cycleMessage).
Proof.
  intros Hcyc (obj & o & Hin & Ho & Hv).
  destruct (reset_outcome w) as (st & new & Hst & Hreset & _).
  unfold start, bind at 1. rewrite Hreset. unfold bind at 1.
  destruct (validate_cyclic
              {| run := setStopped false (run w); store := st;
                 tables := tables w; finished := finished w;
                 canvasQueue := canvasQueue w ++ new;
                 executed := executed w |})
    as (w' & e & -> & ? & ? & ?).
  - simpl. by apply (sameShape_cyclic (store w)).
  - pose proof (Hst obj) as Hobj. rewrite Ho in Hobj.
    destruct (st !! obj) as [o'|] eqn:Ho'; [|done].
    exists obj, o'. simpl. split; [done|]. split; [done|].
    simpl in Hobj. injection Hobj as _ Hvertex _ _. congruence.
  - by exists w', e.
Qed.

(** The bound on the recursion of [visit] is an artefact of the model that
    no run observes: [validate] and [start] return or throw. *)
Lemma report_cycle_ends (values : list ObjRef) : forall w : World,
  (forEach
     (fun obj =>
        let* w' := get in
        match store w' !! obj with
        | Some o => when (instanceofCannoliVertex o)
                         (vertexError obj cycleMessage)
        | None => ret tt
        end)
     values w).2 <> OutOfFuel.
Proof.
  induction values as [|x rest IH]; intros w; [done|].
  simpl. unfold bind at 1. unfold bind at 1, get.
  destruct (store w !! x) as [ox|] eqn:Hx; [|apply IH].
  destruct (instanceofCannoliVertex ox); simpl; [|apply IH].
  by destruct (vertexError_outcome x ox cycleMessage w Hx)
    as (w' & e & -> & _).
Qed.

Lemma validate_ends (w : World) : (validate w).2 <> OutOfFuel.
Proof.
  unfold validate, bind, get. rewrite forEach_objectValidate.
  destruct (isDAG_decides (store w) (graphValues (run w))) as (b & -> & _).
  destruct b; [done|]. apply report_cycle_ends.
Qed.

Lemma execute_roots_ends (values : list ObjRef) : forall w : World,
  (forEach
     (fun obj =>
        let* w' := get in
        match store w' !! obj with
        | Some o => when (bool_decide (length (dependencies o) = 0))
                         (objectExecute obj)
        | None => ret tt
        end)
     values w).2 = Returned tt.
Proof.
  induction values as [|x rest IH]; intros w; [done|].
  simpl. unfold bind at 1. unfold bind at 1, get.
  destruct (store w !! x) as [ox|]; [|apply IH].
  destruct (bool_decide (length (dependencies ox) = 0)); apply IH.
Qed.

Lemma start_ends (w : World) : (start w).2 <> OutOfFuel.
Proof.
  destruct (reset_outcome w) as (st & new & _ & Hreset & _).
  unfold start, bind at 1. rewrite Hreset. unfold bind at 1.
  pose proof (validate_ends
                {| run := setStopped false (run w); store := st;
                   tables := tables w; finished := finished w;
                   canvasQueue := canvasQueue w ++ new;
                   executed := executed w |})
    as Hv.
  destruct (validate _) as [w1 [[]|e|]]; [|done|done].
  unfold bind at 1, get. unfold bind at 1, when.
  destruct (canvas (run w1)); simpl; by rewrite execute_roots_ends.
Qed.

(** **** C3 *)

Lemma loop_is_cyclic (w : World) :
  0 ∈ graphValues (run w) ->
  dependsOn (store w) 0 1 -> dependsOn (store w) 1 0 ->
  cyclic (store w) (graphValues (run w)).
Proof.
  intros Hin H01 H10. exists 0, 0. split; [done|]. split; [apply rtc_refl|].
  eapply tc_l; [exact H01|]. by apply tc_once.
Qed.

(** A cycle among items that are no vertices goes unreported: [isDAG]
    answers [false], the loop of [validate] finds nobody to call [error]
    on, and [start] goes on to execute the item without dependencies. *)
Lemma cycle_without_vertex_is_not_reported :
  cyclic (store edgeLoopRun) (graphValues (run edgeLoopRun))
  /\ isDAG (store edgeLoopRun) (graphValues (run edgeLoopRun)) = Some false
  /\ (start edgeLoopRun).2 = Returned tt
  /\ executed (start edgeLoopRun).1 = [2]
  /\ finished (start edgeLoopRun).1 = []
  /\ isStopped (run (start edgeLoopRun).1) = false.
Proof.
  split; [|by vm_compute].
  apply loop_is_cyclic; vm_compute; apply elem_of_cons; by left.
Qed.

(** C3, as the code has it: [isDAG] returns for every graph, [false] when
    the dependency relation given by [getAllDependencies] has a cycle
    among the items reachable from the graph and [true] when it has none.
    A node met again while [VISITING] makes [visit] answer [false] at once,
    a [VISITED] node is skipped.  On a cyclic graph that holds at least one
    vertex, [validate()] takes the error path: [start()] throws with
    [isStopped] set and no [execute()] called, and on a well-typed usage
    table the stoppage notified has reason [error] and carries the cycle
    message. *)
Theorem isDAG_detects_cycles :
  (forall objects values,
     (cyclic objects values -> isDAG objects values = Some false)
     /\ (~ cyclic objects values -> isDAG objects values = Some true)
     /\ exists b, isDAG objects values = Some b)
  /\ (forall objects fuel (states : gmap ObjRef DagCheckState) obj,
        (states !! obj = Some VISITING ->
         visit objects (S fuel) states obj = Some (false, states))
        /\ (states !! obj = Some VISITED ->
            visit objects (S fuel) states obj = Some (true, states)))
  /\ (forall w : World,
        cyclic (store w) (graphValues (run w)) -> hasVertex w ->
        exists w' e,
          start w = (w', Thrown e)
          /\ executed w' = executed w
          /\ isStopped (run w') = true
          /\ (typed (usageOf w) ->
              e = ErrorObject cycleMessage /\
              exists s, finished w' = finished w ++ [s]
                        /\ reason s = error_reason
                        /\ message s = Some cycleMessage)).
Proof.
  split; [|split].
  - intros objects values.
    destruct (isDAG_decides objects values) as (b & Hb & Hiff).
    split; [|split].
    + intros Hcyc. by rewrite Hb, (proj2 Hiff Hcyc).
    + intros Hacyc. rewrite Hb. destruct b; [done|].
      destruct Hacyc. by apply Hiff.
    + by exists b.
  - intros objects fuel states obj. split; intros H; simpl; by rewrite H.
  - apply start_cyclic.
Qed.

Lemma isDAG_detects_cycles_witness :
  cyclic (store vertexLoopRun) (graphValues (run vertexLoopRun))
  /\ hasVertex vertexLoopRun
  /\ exists w' e,
       start vertexLoopRun = (w', Thrown e)
       /\ executed w' = executed vertexLoopRun
       /\ isStopped (run w') = true
       /\ (typed (usageOf vertexLoopRun) ->
           e = ErrorObject cycleMessage /\
           exists s, finished w' = finished vertexLoopRun ++ [s]
                     /\ reason s = error_reason
                     /\ message s = Some cycleMessage).
Proof.
  assert (H1 : cyclic (store vertexLoopRun) (graphValues (run vertexLoopRun))).
  { apply loop_is_cyclic; vm_compute; apply elem_of_cons; by left. }
  assert (H2 : hasVertex vertexLoopRun).
  { exists 0, (plainItem "a" ["b"] [1] true).
    split; [vm_compute; apply elem_of_cons; by left|]. by vm_compute. }
  split; [exact H1|]. split; [exact H2|].
  exact (proj2 (proj2 isDAG_detects_cycles) vertexLoopRun H1 H2).
Defined.

(** ** The limiter *)

Lemma startWaiting_spec (n : nat) : forall waiting active begun,
  exists k,
    Limiter.startWaiting n active waiting begun =
      (active ++ take k waiting, drop k waiting, begun ++ take k waiting)
    /\ (length active <= n -> length (active ++ take k waiting) <= n)
    /\ (drop k waiting <> [] -> n <= length (active ++ take k waiting)).
Proof.
  induction waiting as [|task rest IH]; intros active begun; simpl.
  { exists 0. simpl. rewrite !app_nil_r. by repeat split. }
  case_bool_decide as Hfree.
  - destruct (IH (active ++ [task]) (begun ++ [task])) as (k & -> & Hle & Hfull).
    exists (S k). simpl. rewrite <- !app_assoc in *. simpl in *.
    split; [done|]. split; [|done].
    intros _. apply Hle. rewrite length_app. simpl. lia.
  - exists 0. simpl. rewrite !app_nil_r. split; [done|]. split; [done|].
    intros _. lia.
Qed.

Lemma step_spec (s : Limiter.State) (e : Limiter.Event) :
  Limiter.concurrency (Limiter.step s e) = Limiter.concurrency s
  /\ (length (Limiter.running s) <= Limiter.concurrency s ->
      length (Limiter.running (Limiter.step s e)) <= Limiter.concurrency s)
  /\ (Limiter.queue (Limiter.step s e) <> [] ->
      Limiter.concurrency s <= length (Limiter.running (Limiter.step s e)))
  /\ Limiter.started (Limiter.step s e) ++ Limiter.queue (Limiter.step s e)
     = Limiter.started s ++ Limiter.queue s ++ Limiter.submitted [e].
Proof.
  destruct e as [task|task]; unfold Limiter.step, Limiter.refill; simpl.
  - destruct (startWaiting_spec (Limiter.concurrency s) (Limiter.queue s ++ [task])
                (Limiter.running s) (Limiter.started s))
      as (k & -> & Hle & Hfull).
    simpl. split; [done|]. split; [done|]. split; [done|].
    by rewrite <- app_assoc, take_drop.
  - pose proof (filter_length_le_all
                  (fun t => negb (Nat.eqb t task)) (Limiter.running s))
      as Hshorter.
    set (active := List.filter (fun t => negb (Nat.eqb t task))
                               (Limiter.running s)) in *.
    clearbody active.
    destruct (startWaiting_spec (Limiter.concurrency s) (Limiter.queue s)
                active (Limiter.started s))
      as (k & -> & Hle & Hfull).
    simpl. split; [done|]. split; [|split; [done|]].
    + intros Hs. apply Hle. lia.
    + by rewrite <- app_assoc, take_drop, app_nil_r.
Qed.

Lemma exec_spec (events : list Limiter.Event) : forall s : Limiter.State,
  length (Limiter.running s) <= Limiter.concurrency s ->
  (Limiter.queue s <> [] ->
   Limiter.concurrency s <= length (Limiter.running s)) ->
  Limiter.concurrency (Limiter.exec s events) = Limiter.concurrency s
  /\ length (Limiter.running (Limiter.exec s events)) <= Limiter.concurrency s
  /\ (Limiter.queue (Limiter.exec s events) <> [] ->
      Limiter.concurrency s <= length (Limiter.running (Limiter.exec s events)))
  /\ Limiter.started (Limiter.exec s events)
       ++ Limiter.queue (Limiter.exec s events)
     = Limiter.started s ++ Limiter.queue s ++ Limiter.submitted events.
Proof.
  induction events as [|e events IH]; intros s Hle Hfull.
  { simpl. rewrite app_nil_r. by repeat split. }
  destruct (step_spec s e) as (Hc & Hle' & Hfull' & Hfifo).
  change (Limiter.exec s (e :: events))
    with (Limiter.exec (Limiter.step s e) events).
  destruct (IH (Limiter.step s e)) as (Hc2 & Hle2 & Hfull2 & Hfifo2).
  { rewrite Hc. by apply Hle'. }
  { by rewrite Hc. }
  rewrite Hc in *. split; [done|]. split; [done|]. split; [done|].
  rewrite Hfifo2, app_assoc, Hfifo.
  assert (Limiter.submitted (e :: events)
          = Limiter.submitted [e] ++ Limiter.submitted events) as ->
    by (unfold Limiter.submitted; simpl; by rewrite app_nil_r).
  by rewrite <- !app_assoc.
Qed.

Lemma removed_is_shorter (task : nat) (l : list nat) :
  task ∈ l ->
  length (List.filter (fun t => negb (Nat.eqb t task)) l) < length l.
Proof.
  induction l as [|a l IH]; [by intros ?%elem_of_nil|].
  intros [->|Hin]%elem_of_cons; simpl.
  - rewrite Nat.eqb_refl. simpl.
    pose proof (filter_length_le_all (fun t => negb (Nat.eqb t a)) l). lia.
  - specialize (IH Hin). destruct (negb (Nat.eqb a task)); simpl; lia.
Qed.

(** Submitting [tasks] to an idle limiter starts the first [n] of them and
    queues the rest. *)
Lemma exec_submits (n : nat) (tasks : list nat) :
  Limiter.exec (Limiter.init n) (Limiter.Submit <$> tasks) =
  {| Limiter.concurrency := n; Limiter.running := take n tasks;
     Limiter.queue := drop n tasks; Limiter.started := take n tasks |}.
Proof.
  induction tasks as [|task tasks IH] using rev_ind.
  { by rewrite take_nil, drop_nil. }
  unfold Limiter.exec in *. rewrite fmap_app, fold_left_app, IH. simpl.
  unfold Limiter.refill. simpl.
  destruct (decide (length tasks < n)) as [Hlt|Hge].
  - rewrite (take_ge tasks), (drop_ge tasks) by lia. simpl.
    rewrite bool_decide_eq_true_2 by done.
    rewrite take_ge, drop_ge by (rewrite length_app; simpl; lia). done.
  - rewrite take_app_le, drop_app_le by lia.
    destruct (drop n tasks ++ [task]) as [|x rest] eqn:E.
    { by destruct (drop n tasks). }
    simpl. rewrite bool_decide_eq_false_2; [done|].
    rewrite length_take_le; lia.
Qed.

(** **** C5 *)

(** C5: the run builds its limiter once, with the [llmLimit] of the
    constructor or 10 when none is given, and every task of [callLLM] goes
    through it.  Whatever the sequence of submissions and completions, at
    most [llmLimit] tasks are in flight, tasks are started in the order in
    which they were submitted, and a task waits only while every slot is
    taken.  Of [llmLimit + 1] tasks submitted together the first [llmLimit]
    start at once and the last one starts when one of them completes. *)
Theorem limiter_bounds_in_flight (r : Run) (events : list Limiter.Event)
    (tasks : list nat) :
  length tasks = S (llmLimit r) ->
  (let s := Limiter.exec (Limiter.ofRun r) events in
   length (Limiter.running s) <= llmLimit r
   /\ Limiter.started s ++ Limiter.queue s = Limiter.submitted events
   /\ (Limiter.queue s <> [] -> length (Limiter.running s) = llmLimit r))
  /\ (let s1 := Limiter.exec (Limiter.ofRun r) (Limiter.Submit <$> tasks) in
      Limiter.started s1 = take (llmLimit r) tasks
      /\ Limiter.running s1 = take (llmLimit r) tasks
      /\ Limiter.queue s1 = drop (llmLimit r) tasks
      /\ length (Limiter.queue s1) = 1
      /\ forall t, t ∈ take (llmLimit r) tasks ->
           Limiter.started (Limiter.step s1 (Limiter.Settle t)) = tasks
           /\ Limiter.queue (Limiter.step s1 (Limiter.Settle t)) = [])
  /\ (forall graphArg objects isMockArg canvasArg openaiArg,
        llmLimit (run (newRun graphArg objects isMockArg canvasArg openaiArg
                              None)) = 10
        /\ forall n,
             llmLimit (run (newRun graphArg objects isMockArg canvasArg
                                   openaiArg (Some n))) = n).
Proof.
  intros Hlen. split; [|split; [|done]].
  - destruct (exec_spec events (Limiter.ofRun r)) as (_ & Hle & Hfull & Hfifo);
      [simpl; lia|done|].
    simpl in *. split; [done|]. split; [done|].
    intros Hq. specialize (Hfull Hq). lia.
  - unfold Limiter.ofRun. rewrite exec_submits. simpl.
    split; [done|]. split; [done|]. split; [done|].
    split; [rewrite length_drop; lia|].
    intros t Ht. unfold Limiter.refill. simpl.
    destruct (drop (llmLimit r) tasks) as [|x [|y rest]] eqn:Hdrop.
    + apply (f_equal length) in Hdrop. rewrite length_drop in Hdrop.
      simpl in Hdrop. lia.
    + simpl. pose proof (removed_is_shorter t _ Ht) as Hshort.
      rewrite length_take_le in Hshort by lia.
      rewrite bool_decide_eq_true_2 by done. simpl.
      split; [|done]. rewrite <- Hdrop. apply take_drop.
    + apply (f_equal length) in Hdrop. rewrite length_drop in Hdrop.
      simpl in Hdrop. lia.
Qed.

Lemma limiter_bounds_in_flight_witness :
  let r := run (newRun [] ∅ None false false (Some 2)) in
  length [7; 8; 9] = S (llmLimit r)
  /\ (let s1 := Limiter.exec (Limiter.ofRun r)
                  (Limiter.Submit <$> [7; 8; 9]) in
      Limiter.started s1 = take (llmLimit r) [7; 8; 9]
      /\ Limiter.running s1 = take (llmLimit r) [7; 8; 9]
      /\ Limiter.queue s1 = drop (llmLimit r) [7; 8; 9]
      /\ length (Limiter.queue s1) = 1
      /\ forall t, t ∈ take (llmLimit r) [7; 8; 9] ->
           Limiter.started (Limiter.step s1 (Limiter.Settle t)) = [7; 8; 9]
           /\ Limiter.queue (Limiter.step s1 (Limiter.Settle t)) = []).
Proof.
  intros r.
  assert (H : length [7; 8; 9] = S (llmLimit r)) by reflexivity.
  split; [exact H|].
  exact (proj1 (proj2 (limiter_bounds_in_flight r [] [7; 8; 9] H))).
Defined.

(** * Further properties of the code *)

(** ** The cycle check *)

Lemma cyclic_subset (objects : gmap ObjRef CannoliObject)
    (values values' : list ObjRef) :
  (forall x, x ∈ values' -> x ∈ values) ->
  cyclic objects values' -> cyclic objects values.
Proof. intros Hsub (o & c & Ho & Hoc & Hcc). exists o, c. auto. Qed.

(** X1: the answer of [isDAG] depends on the set of items only.  A graph
    that passes still passes when items are left out, and two lists with
    the same items, in any order and with any repetition, get the same
    answer. *)
Theorem isDAG_depends_on_the_items_only
    (objects : gmap ObjRef CannoliObject) (values values' : list ObjRef) :
  (forall x, x ∈ values' -> x ∈ values) ->
  (isDAG objects values = Some true -> isDAG objects values' = Some true)
  /\ ((forall x, x ∈ values -> x ∈ values') ->
      isDAG objects values' = isDAG objects values).
Proof.
  intros Hsub.
  destruct (isDAG_decides objects values) as (b & Hb & Hiff).
  destruct (isDAG_decides objects values') as (b' & Hb' & Hiff').
  rewrite Hb, Hb'. split.
  - intros [= ->]. destruct b'; [done|].
    assert (cyclic objects values) as Hc
      by (eapply cyclic_subset; [exact Hsub|by apply Hiff']).
    apply Hiff in Hc. done.
  - intros Hsup. f_equal. destruct b, b'; try done.
    + assert (cyclic objects values) as Hc
        by (eapply cyclic_subset; [exact Hsub|by apply Hiff']).
      by apply Hiff in Hc.
    + assert (cyclic objects values') as Hc
        by (eapply cyclic_subset; [exact Hsup|by apply Hiff]).
      by apply Hiff' in Hc.
Qed.

Lemma isDAG_depends_on_the_items_only_witness :
  (forall x, x ∈ [3; 0; 3] -> x ∈ graphValues (run diamondRun))
  /\ isDAG (store diamondRun) (graphValues (run diamondRun)) = Some true
  /\ isDAG (store diamondRun) [3; 0; 3] = Some true.
Proof.
  assert (H1 : forall x, x ∈ [3; 0; 3] -> x ∈ graphValues (run diamondRun)).
  { intros x Hx. apply list_elem_of_In. apply list_elem_of_In in Hx.
    vm_compute in *. tauto. }
  assert (H2 : isDAG (store diamondRun) (graphValues (run diamondRun))
               = Some true) by (by vm_compute).
  split; [exact H1|]. split; [exact H2|].
  exact (proj1 (isDAG_depends_on_the_items_only (store diamondRun)
                  (graphValues (run diamondRun)) [3; 0; 3] H1) H2).
Defined.

(** ** Stoppages and status events *)

Lemma recomputeCosts_result (t : UsageTable) :
  (typed t /\ exists t', recomputeCosts t = (t', None)
                         /\ Forall2 recomputed t t')
  \/ (~ typed t /\ exists t' m, recomputeCosts t = (t', Some (TypeError m))).
Proof.
  induction t as [|[k u] t IH]; simpl.
  { left. split; [constructor|]. by exists []. }
  unfold calculateLLMCostForModel. destruct (model u) as [m|] eqn:Hm.
  - destruct IH as [(Ht & t' & -> & Hall)|(Ht & t' & msg & ->)].
    + left. split; [constructor; [simpl; by rewrite Hm|done]|].
      eexists. split; [done|]. constructor; [|done].
      unfold recomputed, calculateLLMCostForModel. simpl. by rewrite Hm.
    + right. split; [|simpl; by eauto].
      intros [_ Ht']%Forall_cons. by apply Ht.
  - right. split; [|simpl; by eauto].
    intros [[m Hm'] _]%Forall_cons. simpl in Hm'. congruence.
Qed.

Lemma recomputed_cost (old new : string * Usage) :
  recomputed old new ->
  calculateLLMCostForModel new.2 = inr (totalCost (modelUsage new.2)).
Proof.
  intros (_ & Hm & Hp & Hc & _ & Hcost). rewrite <- Hcost.
  unfold calculateLLMCostForModel. by rewrite Hm, Hp, Hc.
Qed.

Lemma sumCosts_stored (t0 t : UsageTable) :
  Forall2 recomputed t0 t ->
  forall acc, sumCosts t acc = inr (fold_left Qcplus (storedCosts t) acc).
Proof.
  induction 1 as [|old [k u] t0 t Hr _ IH]; intros acc; [done|].
  pose proof (recomputed_cost _ _ Hr) as Hc. simpl in *. rewrite Hc.
  apply IH.
Qed.

Lemma usageOf_notify (s : Stoppage) (w : World) :
  usageOf (notify s w) = usageOf w.
Proof. done. Qed.

(** The call of [onFinish] at the end of every stopping path, in full. *)
Lemma emitStoppage_full (why : StoppageReason) (msg : option string)
    (w : World) :
  exists w' out,
    emitStoppage why msg w = (w', out)
    /\ run w' = run w /\ store w' = store w /\ executed w' = executed w
    /\ canvasQueue w' = canvasQueue w
    /\ ((typed (usageOf w) /\ out = Returned tt
         /\ Forall2 recomputed (usageOf w) (usageOf w')
         /\ finished w' = finished w ++
              [{| reason := why; stoppage_usage := usage (run w);
                  stoppage_totalCost := total (storedCosts (usageOf w'));
                  message := msg |}])
        \/ (~ typed (usageOf w) /\ (exists m, out = Thrown (TypeError m))
            /\ finished w' = finished w)).
Proof.
  unfold emitStoppage, bind, calculateAllLLMCosts.
  destruct (recomputeCosts_result (usageOf w))
    as [(Ht & t' & -> & Hall)|(Ht & t' & m & ->)].
  - unfold getTotalCost. rewrite usageOf_withUsage.
    rewrite (sumCosts_stored _ _ Hall). simpl.
    eexists _, _. split; [reflexivity|]. simpl.
    repeat (split; [done|]). left.
    rewrite usageOf_notify, usageOf_withUsage. by repeat split.
  - eexists _, _. split; [reflexivity|]. simpl.
    repeat (split; [done|]). right. by eauto.
Qed.

(** What the stopping paths have in common: set the flag, then notify. *)
Lemma stop_and_emit (why : StoppageReason) (msg : option string)
    (w : World) :
  exists w' out,
    emitStoppage why msg (withRun (setStopped true) w) = (w', out)
    /\ run w' = setStopped true (run w)
    /\ store w' = store w /\ executed w' = executed w
    /\ canvasQueue w' = canvasQueue w
    /\ ((typed (usageOf w) /\ out = Returned tt
         /\ Forall2 recomputed (usageOf w) (usageOf w')
         /\ finished w' = finished w ++
              [{| reason := why; stoppage_usage := usage (run w);
                  stoppage_totalCost := total (storedCosts (usageOf w'));
                  message := msg |}])
        \/ (~ typed (usageOf w) /\ (exists m, out = Thrown (TypeError m))
            /\ finished w' = finished w)).
Proof.
  destruct (emitStoppage_full why msg (withRun (setStopped true) w))
    as (w' & out & Heq & Hrun & Hrest).
  by exists w', out.
Qed.

Lemma error_full (msg : string) (w : World) :
  exists w' e,
    error (A:=unit) msg w = (w', Thrown e)
    /\ run w' = setStopped true (run w)
    /\ store w' = store w /\ executed w' = executed w
    /\ canvasQueue w' = canvasQueue w
    /\ ((typed (usageOf w) /\ e = ErrorObject msg
         /\ Forall2 recomputed (usageOf w) (usageOf w')
         /\ finished w' = finished w ++
              [{| reason := error_reason; stoppage_usage := usage (run w);
                  stoppage_totalCost := total (storedCosts (usageOf w'));
                  message := Some msg |}])
        \/ (~ typed (usageOf w) /\ (exists m, e = TypeError m)
            /\ finished w' = finished w)).
Proof.
  destruct (stop_and_emit error_reason (Some msg) w)
    as (w' & out & Heq & Hrun & Hst & Hex & Hcq & Hcases).
  unfold error, bind, modify. rewrite Heq.
  destruct Hcases as [(Ht & -> & Hall & Hfin)|(Ht & (m & ->) & Hfin)].
  - exists w', (ErrorObject msg). repeat (split; [done|]). left. by repeat split.
  - exists w', (TypeError m). repeat (split; [done|]). right. by eauto.
Qed.

Lemma objectError_unfold (object : CannoliObject) (msg : option string)
    (w : World) :
  objectError object msg w =
  error (default "Unknown error" msg)
    (withCanvasOps
       (if canvas (run w) && instanceofCannoliVertex object
        then [AddErrorNode (id object) (default "Unknown error" msg)]
        else [])
       w).
Proof.
  unfold objectError, bind, get, when.
  destruct (canvas (run w) && instanceofCannoliVertex object); simpl.
  - done.
  - unfold withCanvasOps. rewrite app_nil_r. by destruct w.
Qed.

(** X3: an [Error] status event is fatal to the run.  The handler always
    throws and leaves [isStopped] set, also on a run that was stopped
    before; the error node goes to the canvas exactly when there is a
    canvas and the item is a vertex; a missing message reads
    [Unknown error].  On a well-typed usage table the exception is
    [Error(message)] and one stoppage with reason [error] and that message
    has been notified first; otherwise the exception is the [TypeError] of
    the cost computation and nothing is notified. *)
Theorem item_error_is_fatal (w : World) (object : CannoliObject)
    (msg : option string) :
  exists w' e,
    objectUpdated object Error msg w = (w', Thrown e)
    /\ run w' = setStopped true (run w)
    /\ store w' = store w /\ executed w' = executed w
    /\ canvasQueue w' =
         canvasQueue w ++
         (if canvas (run w) && instanceofCannoliVertex object
          then [AddErrorNode (id object) (default "Unknown error" msg)]
          else [])
    /\ ((typed (usageOf w)
         /\ e = ErrorObject (default "Unknown error" msg)
         /\ finished w' = finished w ++
              [{| reason := error_reason; stoppage_usage := usage (run w);
                  stoppage_totalCost := total (storedCosts (usageOf w'));
                  message := Some (default "Unknown error" msg) |}])
        \/ (~ typed (usageOf w) /\ (exists m, e = TypeError m)
            /\ finished w' = finished w)).
Proof.
  simpl. rewrite objectError_unfold.
  destruct (error_full (default "Unknown error" msg)
              (withCanvasOps
                 (if canvas (run w) && instanceofCannoliVertex object
                  then [AddErrorNode (id object)
                                     (default "Unknown error" msg)]
                  else [])
                 w))
    as (w' & e & -> & Hrun & Hst & Hex & Hcq & Hcases).
  exists w', e. repeat (split; [done|]).
  destruct Hcases as [(Ht & -> & _ & Hfin)|(Ht & Hm & Hfin)]; [left|right];
    by repeat split.
Qed.

Lemma nonterminal_unfold (w : World) (object : CannoliObject)
    (newStatus : CannoliObjectStatus) (msg : option string) :
  newStatus = Executing \/ newStatus = Pending \/ newStatus = Warning ->
  objectUpdated object newStatus msg w =
  (withCanvasOps
     (match newStatus with
      | Executing =>
          if negb (isMock (run w)) && canvas (run w)
             && instanceofCallNode object
          then [ChangeNodeColor (id object) "3"] else []
      | Pending =>
          if canvas (run w) && instanceofCallNode object
          then [ChangeNodeColor (id object) "0"] else []
      | _ =>
          if canvas (run w) && instanceofCannoliVertex object
          then [AddWarningNode (id object) (default "Unknown warning" msg)]
          else []
      end) w,
   Returned tt).
Proof.
  assert (Hnil : withCanvasOps [] w = w)
    by (unfold withCanvasOps; rewrite app_nil_r; by destruct w).
  intros [-> | [-> | ->]]; simpl;
    unfold objectExecuting, objectPending, objectWarning, bind, get, when;
    match goal with |- context [if ?c then _ else _] => destruct c end;
    simpl; by rewrite ?Hnil.
Qed.

(** X4: the status events [Executing], [Pending] and [Warning] never stop a
    run.  The handler returns normally and changes nothing but the canvas
    queue, to which it adds at most one operation: colour 3 for a call
    node that starts executing (not in mock mode), colour 0 for a call
    node that is pending (in mock mode too), a warning node for a vertex;
    without a canvas it adds none. *)
Theorem nonterminal_events_change_the_canvas_only (w : World)
    (object : CannoliObject) (newStatus : CannoliObjectStatus)
    (msg : option string) :
  newStatus = Executing \/ newStatus = Pending \/ newStatus = Warning ->
  exists ops,
    objectUpdated object newStatus msg w = (withCanvasOps ops w, Returned tt)
    /\ length ops <= 1
    /\ (canvas (run w) = false -> ops = [])
    /\ (newStatus = Executing ->
        ops = if negb (isMock (run w)) && canvas (run w)
                 && instanceofCallNode object
              then [ChangeNodeColor (id object) "3"] else [])
    /\ (newStatus = Pending ->
        ops = if canvas (run w) && instanceofCallNode object
              then [ChangeNodeColor (id object) "0"] else [])
    /\ (newStatus = Warning ->
        ops = if canvas (run w) && instanceofCannoliVertex object
              then [AddWarningNode (id object)
                                   (default "Unknown warning" msg)]
              else []).
Proof.
  intros Hs. rewrite (nonterminal_unfold w object newStatus msg Hs).
  eexists. split; [reflexivity|].
  destruct Hs as [-> | [-> | ->]];
    (split; [|split; [|by repeat split]]).
  all: try (match goal with |- context [if ?c then _ else _] =>
              destruct c end; simpl; lia).
  all: intros ->; by rewrite ?andb_false_r.
Qed.

Lemma nonterminal_events_change_the_canvas_only_witness :
  (Pending = Executing \/ Pending = Pending \/ Pending = Warning)
  /\ exists ops,
       objectUpdated (plainItem "a" [] [] true) Pending None mockRun
       = (withCanvasOps ops mockRun, Returned tt)
       /\ length ops <= 1.
Proof.
  assert (H : Pending = Executing \/ Pending = Pending \/ Pending = Warning)
    by (right; left; reflexivity).
  split; [exact H|].
  destruct (nonterminal_events_change_the_canvas_only mockRun
              (plainItem "a" [] [] true) Pending None H)
    as (ops & Heq & Hlen & _).
  exists ops. split; [exact Heq|exact Hlen].
Defined.

Lemma withCanvasOps_nil (w : World) : withCanvasOps [] w = w.
Proof. unfold withCanvasOps. rewrite app_nil_r. by destruct w. Qed.

Lemma terminal_unfold (w : World) (object : CannoliObject)
    (newStatus : CannoliObjectStatus) (msg : option string) :
  newStatus = Complete \/ newStatus = Rejected ->
  exists ops,
    length ops <= 1
    /\ (canvas (run w) = false -> ops = [])
    /\ objectUpdated object newStatus msg w =
       if allObjectsFinished w && negb (isStopped (run w))
       then emitStoppage complete None
              (withRun (setStopped true) (withCanvasOps ops w))
       else (withCanvasOps ops w, Returned tt).
Proof.
  intros [-> | ->]; simpl.
  - unfold objectCompleted, bind, get, when.
    destruct (negb (isMock (run w)) && canvas (run w)) eqn:Hc.
    + apply andb_true_iff in Hc as [_ Hcanvas].
      destruct (instanceofCallNode object);
        [|destruct (_ || _ || _)].
      * eexists [_]. split; [simpl; lia|]. split; [congruence|]. simpl.
        by destruct (allObjectsFinished _ && _).
      * eexists [_]. split; [simpl; lia|]. split; [congruence|]. simpl.
        by destruct (allObjectsFinished _ && _).
      * exists []. split; [simpl; lia|]. split; [done|]. simpl.
        rewrite withCanvasOps_nil.
        by destruct (allObjectsFinished _ && _).
    + exists []. split; [simpl; lia|]. split; [done|]. simpl.
      rewrite withCanvasOps_nil. by destruct (allObjectsFinished _ && _).
  - exists []. split; [simpl; lia|]. split; [done|].
    rewrite withCanvasOps_nil. unfold objectRejected, bind, get, when.
    by destruct (allObjectsFinished _ && _).
Qed.

Ltac split_frame :=
  repeat first [split; [done|] | split; [simpl; lia|]].

(** Every stopping path, in full: what it queues on the canvas, what it
    leaves alone, and the one stoppage it may notify. *)
Lemma follow_full (p : StoppingPath) (w : World) :
  exists w' out ops,
    follow p w = (w', out)
    /\ canvasQueue w' = canvasQueue w ++ ops
    /\ length ops <= 1
    /\ (canvas (run w) = false -> ops = [])
    /\ store w' = store w /\ executed w' = executed w
    /\ (run w' = run w \/ run w' = setStopped true (run w))
    /\ (finished w' = finished w
        \/ (typed (usageOf w)
            /\ run w' = setStopped true (run w)
            /\ finished w' = finished w ++
                 [{| reason := pathReason p;
                     stoppage_usage := usage (run w);
                     stoppage_totalCost := total (storedCosts (usageOf w'));
                     message := pathMessage p |}])).
Proof.
  assert (Hquiet : forall ops, length ops <= 1 ->
    (canvas (run w) = false -> ops = []) ->
    exists w' out ops',
      (withCanvasOps ops w, @Returned unit tt) = (w', out)
      /\ canvasQueue w' = canvasQueue w ++ ops'
      /\ length ops' <= 1
      /\ (canvas (run w) = false -> ops' = [])
      /\ store w' = store w /\ executed w' = executed w
      /\ (run w' = run w \/ run w' = setStopped true (run w))
      /\ (finished w' = finished w
          \/ (typed (usageOf w)
              /\ run w' = setStopped true (run w)
              /\ finished w' = finished w ++
                   [{| reason := pathReason p;
                       stoppage_usage := usage (run w);
                       stoppage_totalCost :=
                         total (storedCosts (usageOf w'));
                       message := pathMessage p |}]))).
  { intros ops Hlen Hc. exists (withCanvasOps ops w), (Returned tt), ops.
    split; [done|]. split; [done|]. split; [done|]. split; [done|].
    split; [done|]. split; [done|]. split; by left. }
  destruct p as [|msg|object newStatus msg].
  - destruct (stop_and_emit user None w)
      as (w' & out & Heq & Hrun & Hst & Hex & Hcq & Hcases).
    exists w', out, []. simpl. unfold stop, bind, modify.
    rewrite Heq, app_nil_r.
    split_frame. split; [by right|].
    destruct Hcases as [(Ht & _ & _ & Hfin)|(_ & _ & Hfin)]; [right|by left].
    by repeat split.
  - destruct (error_full msg w)
      as (w' & e & Heq & Hrun & Hst & Hex & Hcq & Hcases).
    exists w', (Thrown e), []. simpl. rewrite Heq, app_nil_r.
    split_frame. split; [by right|].
    destruct Hcases as [(Ht & _ & _ & Hfin)|(_ & _ & Hfin)]; [right|by left].
    by repeat split.
  - change (follow (ByUpdate object newStatus msg) w)
      with (objectUpdated object newStatus msg w).
    destruct (decide (newStatus = Error)) as [->|Hne].
    + simpl. rewrite objectError_unfold.
      destruct (error_full (default "Unknown error" msg)
                  (withCanvasOps
                     (if canvas (run w) && instanceofCannoliVertex object
                      then [AddErrorNode (id object)
                                         (default "Unknown error" msg)]
                      else [])
                     w))
        as (w' & e & -> & Hrun & Hst & Hex & Hcq & Hcases).
      eexists w', (Thrown e), _.
      split; [done|]. split; [exact Hcq|].
      split; [by destruct (canvas (run w) && _); simpl; lia|].
      split; [by intros ->|].
      split_frame. split; [by right|].
      destruct Hcases as [(Ht & _ & _ & Hfin)|(_ & _ & Hfin)]; [right|by left].
      by repeat split.
    + destruct (decide (newStatus = Complete \/ newStatus = Rejected))
        as [Hterm|Hnon].
      * destruct (terminal_unfold w object newStatus msg Hterm)
          as (ops & Hlen & Hc & Heq).
        rewrite Heq.
        assert (pathReason (ByUpdate object newStatus msg) = complete
                /\ pathMessage (ByUpdate object newStatus msg) = None)
          as [Hr Hm] by (by destruct Hterm as [-> | ->]).
        rewrite Hr, Hm in *.
        destruct (allObjectsFinished w && negb (isStopped (run w))).
        -- destruct (stop_and_emit complete None (withCanvasOps ops w))
             as (w' & out & Heq' & Hrun & Hst & Hex & Hcq & Hcases).
           exists w', out, ops. rewrite Heq'.
           split_frame. split; [by right|].
           destruct Hcases as [(Ht & _ & _ & Hfin)|(_ & _ & Hfin)];
             [right|by left].
           by repeat split.
        -- destruct (Hquiet ops Hlen Hc) as (w' & out & ops' & H).
           by exists w', out, ops'.
      * assert (newStatus = Executing \/ newStatus = Pending
                \/ newStatus = Warning) as Hs
          by (destruct newStatus; tauto).
        rewrite (nonterminal_unfold w object newStatus msg Hs).
        apply Hquiet.
        -- destruct Hs as [-> | [-> | ->]];
             match goal with |- context [if ?c then _ else _] =>
               destruct c end; simpl; lia.
        -- intros Hc. destruct Hs as [-> | [-> | ->]];
             by rewrite Hc, ?andb_false_r.
Qed.

Lemma pathMessage_iff_error (p : StoppingPath) :
  is_Some (pathMessage p) <-> pathReason p = error_reason.
Proof.
  destruct p as [|msg|object [] msg]; simpl; split;
    first [done | by intros [? ?] | by eauto].
Qed.

(** X5: every stoppage that [stop()], [error()] or a status event
    notifies is consistent.  The run is stopped afterwards; the reason is
    the one of the path ([user], [error], [complete]); a message is present
    exactly when the reason is [error]; the [usage] field is the table of
    the run; and [totalCost] is the sum of the [totalCost] fields that the
    table holds at that moment.  No stopping path takes back the flag. *)
Theorem notified_stoppages_are_consistent (p : StoppingPath) (w : World) :
  (isStopped (run w) = true -> isStopped (run (follow p w).1) = true)
  /\ forall s, finished (follow p w).1 = finished w ++ [s] ->
       isStopped (run (follow p w).1) = true
       /\ reason s = pathReason p
       /\ message s = pathMessage p
       /\ (is_Some (message s) <-> reason s = error_reason)
       /\ stoppage_usage s = usage (run (follow p w).1)
       /\ stoppage_totalCost s
          = total (storedCosts (usageOf (follow p w).1)).
Proof.
  destruct (follow_full p w)
    as (w' & out & ops & -> & _ & _ & _ & _ & _ & Hrun & Hfin). simpl.
  split.
  - intros Hs. by destruct Hrun as [-> | ->].
  - intros s Hs. destruct Hfin as [Hfin|(Ht & Hr & Hfin)].
    + rewrite Hfin in Hs. apply (f_equal length) in Hs.
      rewrite length_app in Hs. simpl in Hs. lia.
    + rewrite Hfin in Hs. apply app_inv_head in Hs. injection Hs as <-.
      rewrite Hr. simpl. repeat (split; [done|]).
      split; [apply pathMessage_iff_error|done].
Qed.

Lemma notified_stoppages_are_consistent_witness :
  finished (follow (ByError "boom") mockRun).1
  = finished mockRun ++
      [{| reason := error_reason; stoppage_usage := 0;
          stoppage_totalCost := num 0 1; message := Some "boom" |}]
  /\ isStopped (run (follow (ByError "boom") mockRun).1) = true.
Proof.
  assert (H : finished (follow (ByError "boom") mockRun).1
              = finished mockRun ++
                  [{| reason := error_reason; stoppage_usage := 0;
                      stoppage_totalCost := num 0 1;
                      message := Some "boom" |}]).
  { vm_compute. repeat f_equal; by apply Qc_is_canon. }
  split; [exact H|].
  exact (proj1 (proj2 (notified_stoppages_are_consistent
                         (ByError "boom") mockRun) _ H)).
Defined.

(** X6: a run without a canvas never queues a canvas operation, whatever
    the stopping path or status event; with a canvas a single call of
    [stop()], [error()] or a status handler queues at most one. *)
Theorem canvas_is_only_used_when_present (p : StoppingPath) (w : World) :
  (canvas (run w) = false -> canvasQueue (follow p w).1 = canvasQueue w)
  /\ exists ops, canvasQueue (follow p w).1 = canvasQueue w ++ ops
                 /\ length ops <= 1.
Proof.
  destruct (follow_full p w)
    as (w' & out & ops & -> & Hcq & Hlen & Hnone & _). simpl. split.
  - intros Hc. by rewrite Hcq, (Hnone Hc), app_nil_r.
  - by exists ops.
Qed.

Lemma canvas_is_only_used_when_present_witness :
  canvas (run mockRun) = false
  /\ canvasQueue
       (follow (ByUpdate (plainItem "a" [] [] true) Error None) mockRun).1
     = canvasQueue mockRun.
Proof.
  assert (H : canvas (run mockRun) = false) by reflexivity.
  split; [exact H|].
  exact (proj1 (canvas_is_only_used_when_present
                  (ByUpdate (plainItem "a" [] [] true) Error None) mockRun)
               H).
Defined.

(** ** Sequences of events *)

Lemma callLLM_frame (request : CreateChatCompletionRequest) (verbose : bool)
    (random : Qc) (api : ApiOutcome) (w : World) :
  run (callLLM request verbose random api w).1 = run w
  /\ finished (callLLM request verbose random api w).1 = finished w
  /\ store (callLLM request verbose random api w).1 = store w
  /\ executed (callLLM request verbose random api w).1 = executed w
  /\ canvasQueue (callLLM request verbose random api w).1 = canvasQueue w.
Proof.
  destruct (callLLM_sameButUsage request verbose random api w)
    as (? & ? & ? & ? & ?).
  done.
Qed.

(** One step seen from the stoppage log. *)
Lemma runStep_finished (w w' : World) :
  runStep w w' ->
  (isStopped (run w) = true ->
   isStopped (run w') = true /\ finished w' = finished w)
  /\ (finished w' = finished w
      \/ exists s, finished w' = finished w ++ [s]
                   /\ reason s = complete /\ isStopped (run w') = true).
Proof.
  intros [w0 object newStatus msg Hne|w0 change|w0 request verbose random api].
  - destruct (decide (newStatus = Complete \/ newStatus = Rejected))
      as [Hterm|Hnon].
    + destruct (terminal_unfold w0 object newStatus msg Hterm)
        as (ops & _ & _ & ->).
      destruct (isStopped (run w0)) eqn:Hs;
        rewrite ?andb_false_r; simpl; [by split; [|left]|].
      destruct (allObjectsFinished w0); simpl;
        [|split; [done|by left]].
      split; [done|].
      destruct (stop_and_emit complete None (withCanvasOps ops w0))
        as (w2 & out & -> & Hrun & _ & _ & _ & Hcases). simpl.
      destruct Hcases as [(_ & _ & _ & Hfin)|(_ & _ & Hfin)];
        [right|by left].
      eexists. split; [exact Hfin|]. by rewrite Hrun.
    + assert (newStatus = Executing \/ newStatus = Pending
              \/ newStatus = Warning) as Hs
        by (destruct newStatus; tauto).
      rewrite (nonterminal_unfold w0 object newStatus msg Hs). simpl.
      split; [done|by left].
  - simpl. split; [done|by left].
  - destruct (callLLM_frame request verbose random api w0)
      as (-> & -> & _). split; [done|by left].
Qed.

(** X7: the completion path notifies at most once.  Along any sequence of
    status events other than [Error], changes of the items and calls to
    the model, at most one stoppage is notified; it has reason [complete]
    and leaves the run stopped; and a run that is already stopped notifies
    nothing and stays stopped. *)
Theorem completion_is_notified_at_most_once (w w' : World) :
  rtc runStep w w' ->
  (isStopped (run w) = true ->
   isStopped (run w') = true /\ finished w' = finished w)
  /\ exists new,
       finished w' = finished w ++ new
       /\ length new <= 1
       /\ (forall s, s ∈ new -> reason s = complete)
       /\ (new <> [] -> isStopped (run w') = true).
Proof.
  intros Hsteps. induction Hsteps as [w|w w1 w' Hstep _ [IHs IH]].
  { split; [done|]. exists []. rewrite app_nil_r.
    repeat split; [simpl; lia|by intros s ?%elem_of_nil|done]. }
  destruct (runStep_finished w w1 Hstep) as [Hstopped Hone]. split.
  - intros Hs. destruct (Hstopped Hs) as [Hs1 <-]. by apply IHs.
  - destruct IH as (new & Hnew & Hlen & Hreason & Hstop).
    destruct Hone as [Hsame|(s & Hs & Hr & Hs1)].
    + exists new. by rewrite <- Hsame.
    + destruct (IHs Hs1) as [Hs' Hfin]. exists [s].
      split; [congruence|]. split; [simpl; lia|].
      split; [by intros s' ->%list_elem_of_singleton|done].
Qed.

Lemma completion_is_notified_at_most_once_witness :
  let w1 := (stop mockRun).1 in
  let w2 := (objectUpdated (plainItem "a" [] [] true) Complete None w1).1 in
  rtc runStep w1 w2 /\ isStopped (run w1) = true
  /\ finished w2 = finished w1.
Proof.
  intros w1 w2.
  assert (H1 : rtc runStep w1 w2).
  { apply rtc_once. by apply step_event. }
  assert (H2 : isStopped (run w1) = true) by reflexivity.
  split; [exact H1|]. split; [exact H2|].
  exact (proj2 (proj1 (completion_is_notified_at_most_once w1 w2 H1) H2)).
Defined.

(** ** Where a cycle is reported *)

Lemma vertexError_full (v : ObjRef) (o : CannoliObject) (msg : string)
    (w : World) :
  store w !! v = Some o -> instanceofCannoliVertex o = true ->
  exists w' e,
    vertexError v msg w = (w', Thrown e)
    /\ run w' = setStopped true (run w)
    /\ executed w' = executed w
    /\ canvasQueue w' =
         canvasQueue w ++
         (if canvas (run w) then [AddErrorNode (id o) msg] else [])
    /\ ((typed (usageOf w) /\ e = ErrorObject msg
         /\ finished w' = finished w ++
              [{| reason := error_reason; stoppage_usage := usage (run w);
                  stoppage_totalCost := total (storedCosts (usageOf w'));
                  message := Some msg |}])
        \/ (~ typed (usageOf w) /\ (exists m, e = TypeError m)
            /\ finished w' = finished w)).
Proof.
  intros Ho Hv. rewrite (vertexError_publishes _ _ _ _ Ho).
  rewrite objectError_unfold. simpl.
  rewrite Hv, andb_true_r.
  destruct (error_full msg
              (withCanvasOps
                 (if canvas (run w)
                  then [AddErrorNode (id o) msg] else [])
                 (withStore (alter (setStatus Error) v) w)))
    as (w' & e & -> & Hrun & _ & Hex & Hcq & Hcases).
  exists w', e. repeat (split; [done|]).
  destruct Hcases as [(Ht & -> & _ & Hfin)|(Ht & Hm & Hfin)]; [left|right];
    by repeat split.
Qed.

Lemma report_cycle_full (values : list ObjRef) (w : World) :
  match firstVertex (store w) values with
  | None =>
      forEach
        (fun obj =>
           let* w' := get in
           match store w' !! obj with
           | Some o => when (instanceofCannoliVertex o)
                            (vertexError obj cycleMessage)
           | None => ret tt
           end)
        values w = (w, Returned tt)
  | Some v =>
      exists o w' e,
        store w !! v = Some o
        /\ forEach
             (fun obj =>
                let* w' := get in
                match store w' !! obj with
                | Some o => when (instanceofCannoliVertex o)
                                 (vertexError obj cycleMessage)
                | None => ret tt
                end)
             values w = (w', Thrown e)
        /\ run w' = setStopped true (run w)
        /\ executed w' = executed w
        /\ canvasQueue w' =
             canvasQueue w ++
             (if canvas (run w)
              then [AddErrorNode (id o) cycleMessage] else [])
        /\ ((typed (usageOf w) /\ e = ErrorObject cycleMessage
             /\ finished w' = finished w ++
                  [{| reason := error_reason;
                      stoppage_usage := usage (run w);
                      stoppage_totalCost := total (storedCosts (usageOf w'));
                      message := Some cycleMessage |}])
            \/ (~ typed (usageOf w) /\ (exists m, e = TypeError m)
                /\ finished w' = finished w))
  end.
Proof.
  set (body := fun obj : ObjRef => _).
  induction values as [|x rest IH]; [done|].
  change (forEach body (x :: rest) w)
    with (bind (body x) (fun _ => forEach body rest) w).
  unfold firstVertex in *. simpl.
  destruct (store w !! x) as [ox|] eqn:Hx.
  - destruct (instanceofCannoliVertex ox) eqn:Hvx.
    + destruct (vertexError_full x ox cycleMessage w Hx Hvx)
        as (w' & e & Heq & Hrest).
      exists ox, w', e. split; [done|]. split; [|done].
      unfold bind, body, bind, get, when. rewrite Hx, Hvx. by rewrite Heq.
    + assert (bind (body x) (fun _ => forEach body rest) w
              = forEach body rest w) as ->.
      { unfold bind at 1, body, bind, get, when. by rewrite Hx, Hvx. }
      apply IH.
  - assert (bind (body x) (fun _ => forEach body rest) w
            = forEach body rest w) as ->.
    { unfold bind at 1, body, bind, get, when. by rewrite Hx. }
    apply IH.
Qed.

Lemma validate_reports_the_first_vertex (w : World) (v : ObjRef) :
  cyclic (store w) (graphValues (run w)) ->
  firstVertex (store w) (graphValues (run w)) = Some v ->
  exists o w' e,
    store w !! v = Some o
    /\ validate w = (w', Thrown e)
    /\ run w' = setStopped true (run w)
    /\ executed w' = executed w
    /\ canvasQueue w' =
         canvasQueue w ++
         (if canvas (run w)
          then [AddErrorNode (id o) cycleMessage] else [])
    /\ ((typed (usageOf w) /\ e = ErrorObject cycleMessage
         /\ finished w' = finished w ++
              [{| reason := error_reason;
                  stoppage_usage := usage (run w);
                  stoppage_totalCost := total (storedCosts (usageOf w'));
                  message := Some cycleMessage |}])
        \/ (~ typed (usageOf w) /\ (exists m, e = TypeError m)
            /\ finished w' = finished w)).
Proof.
  intros Hcyc Hfirst.
  assert (validate w =
          forEach
            (fun obj =>
               let* w' := get in
               match store w' !! obj with
               | Some o => when (instanceofCannoliVertex o)
                                (vertexError obj cycleMessage)
               | None => ret tt
               end)
            (graphValues (run w)) w) as ->.
  { unfold validate, bind, get. rewrite forEach_objectValidate.
    destruct (isDAG_decides (store w) (graphValues (run w))) as (b & -> & Hb).
    by rewrite (proj2 Hb Hcyc). }
  pose proof (report_cycle_full (graphValues (run w)) w) as H.
  rewrite Hfirst in H. exact H.
Qed.

Lemma firstVertex_sameShape (s1 s2 : gmap ObjRef CannoliObject)
    (values : list ObjRef) :
  sameShape s1 s2 -> firstVertex s1 values = firstVertex s2 values.
Proof.
  intros Hs. unfold firstVertex.
  induction values as [|x rest IH]; simpl; [done|].
  pose proof (Hs x) as Hx.
  destruct (s1 !! x) as [o1|], (s2 !! x) as [o2|]; simpl in Hx;
    try done.
  injection Hx as _ Hv _ _. rewrite Hv. by rewrite IH.
Qed.

(** X8: on a graph with a cycle and a vertex, [start()] reports the cycle
    at the first vertex in the order of the graph and at no other: it
    throws with the run stopped and no [execute()] called.  With a canvas
    the error nodes it has queued are one, that of the first vertex,
    carrying the cycle message; without a canvas nothing is queued.  On a
    well-typed usage table the stoppage notified has reason [error] and
    the cycle message; otherwise the [TypeError] of the cost computation
    is thrown and nothing is notified. *)
Theorem cycle_is_reported_at_the_first_vertex (w : World) (v : ObjRef) :
  cyclic (store w) (graphValues (run w)) ->
  firstVertex (store w) (graphValues (run w)) = Some v ->
  exists o w' e new,
    store w !! v = Some o
    /\ start w = (w', Thrown e)
    /\ isStopped (run w') = true
    /\ executed w' = executed w
    /\ canvasQueue w' = canvasQueue w ++ new
    /\ List.filter isErrorNode new
       = (if canvas (run w)
          then [AddErrorNode (id o) cycleMessage] else [])
    /\ (canvas (run w) = false -> new = [])
    /\ ((typed (usageOf w) /\ e = ErrorObject cycleMessage
         /\ finished w' = finished w ++
              [{| reason := error_reason;
                  stoppage_usage := usage (run w);
                  stoppage_totalCost := total (storedCosts (usageOf w'));
                  message := Some cycleMessage |}])
        \/ (~ typed (usageOf w) /\ (exists m, e = TypeError m)
            /\ finished w' = finished w)).
Proof.
  intros Hcyc Hfirst.
  destruct (reset_outcome w) as (st & new & Hst & Hreset & Hnew & Hnone).
  set (w0 := {| run := setStopped false (run w); store := st;
                tables := tables w; finished := finished w;
                canvasQueue := canvasQueue w ++ new;
                executed := executed w |})
    in *.
  destruct (validate_reports_the_first_vertex w0 v)
    as (o' & w' & e & Ho' & Hval & Hrun & Hex & Hcq & Hcases).
  { by apply (sameShape_cyclic (store w)). }
  { simpl. by rewrite <- (firstVertex_sameShape _ _ _ Hst). }
  pose proof (Hst v) as Hv. simpl in Ho'. rewrite Ho' in Hv.
  destruct (store w !! v) as [o|] eqn:Ho; [|done].
  simpl in Hv. injection Hv as _ _ _ Hid.
  exists o, w', e,
    (new ++ if canvas (run w)
            then [AddErrorNode (id o) cycleMessage] else []).
  split; [done|]. split.
  { unfold start, bind at 1. rewrite Hreset. unfold bind at 1.
    by rewrite Hval. }
  split; [by rewrite Hrun|]. split; [done|].
  split; [by rewrite Hcq, Hid, app_assoc|].
  split; [rewrite List.filter_app, Hnew; by destruct (canvas (run w))|].
  split; [|exact Hcases].
  intros Hc. by rewrite (Hnone Hc), Hc.
Qed.

Lemma cycle_is_reported_at_the_first_vertex_witness :
  cyclic (store vertexLoopRun) (graphValues (run vertexLoopRun))
  /\ firstVertex (store vertexLoopRun) (graphValues (run vertexLoopRun))
     = Some 0
  /\ exists w' e, start vertexLoopRun = (w', Thrown e)
                  /\ isStopped (run w') = true
                  /\ executed w' = executed vertexLoopRun.
Proof.
  assert (H : cyclic (store vertexLoopRun) (graphValues (run vertexLoopRun))).
  { apply loop_is_cyclic; vm_compute; apply elem_of_cons; by left. }
  assert (H' : firstVertex (store vertexLoopRun)
                 (graphValues (run vertexLoopRun)) = Some 0) by reflexivity.
  split; [exact H|]. split; [exact H'|].
  destruct (cycle_is_reported_at_the_first_vertex vertexLoopRun 0 H H')
    as (o & w' & e & new & _ & Heq & Hs & He & _).
  by exists w', e.
Defined.

(** ** The usage table under calls *)




Lemma lookupKey_ensured (key key' : string) (m : option Model)
    (t : UsageTable) :
  lookupKey key' (ensured key m t) =
  match lookupKey key' t with
  | Some u => Some u
  | None =>
      if decide (key = key')
      then if inherited key then None else Some (freshUsage m)
      else None
  end.
Proof.
  unfold ensured, getProperty. destruct (lookupKey key t) eqn:E.
  - destruct (lookupKey key' t) eqn:E'; [done|].
    case_decide; [congruence|done].
  - destruct (inherited key).
    + destruct (lookupKey key' t) eqn:E'; [done|]. by case_decide.
    + rewrite lookupKey_setKey_new by done.
      case_decide; subst; [by rewrite E|]. by destruct (lookupKey key' t).
Qed.

Lemma keys_recomputed (t t' : UsageTable) :
  Forall2 recomputed t t' -> t'.*1 = t.*1.
Proof.
  induction 1 as [|old new t t' (Hk & _) _ IH]; [done|].
  csimpl. by rewrite Hk, IH.
Qed.

Lemma modelInfo_name (key : string) (m : Model) :
  lookupKey key modelInfo = Some m -> name m = key.
Proof.
  unfold modelInfo. simpl. repeat case_decide; intros; by simplify_eq.
Qed.

Lemma modelInfo_plain (key : string) (m : Model) :
  lookupKey key modelInfo = Some m -> inherited key = false.
Proof.
  unfold modelInfo. simpl. repeat case_decide; intros; by simplify_eq.
Qed.

Lemma bind_Returned {A B : Type} (m : M A) (k : A -> M B) (w w1 : World)
    (a : A) :
  m w = (w1, Returned a) -> bind m k w = k a w1.
Proof. intros H. unfold bind. by rewrite H. Qed.

Lemma bind_Thrown {A B : Type} (m : M A) (k : A -> M B) (w w1 : World)
    (e : Exception) :
  m w = (w1, Thrown e) -> bind m k w = (w1, Thrown e).
Proof. intros H. unfold bind. by rewrite H. Qed.

(** The bookkeeping of the real call for a model name that is not
    inherited from the prototype. *)
Lemma recordUsage_spec (request : CreateChatCompletionRequest)
    (data : ResponseData) (w : World) :
  inherited (request_model request) = false ->
  match data_usage data, lookupKey (request_model request) modelInfo with
  | Some reported, Some m =>
      exists w1, recordUsage request data w = (w1, Returned tt)
                 /\ sameButUsage w w1
                 /\ usageOf w1 = recordedReal m reported (usageOf w)
  | Some _, None =>
      recordUsage request data w
      = (w, Thrown (TypeError
                      "Cannot read properties of undefined (reading 'name')"))
  | None, _ => recordUsage request data w = (w, Returned tt)
  end.
Proof.
  intros Hk. unfold recordUsage.
  destruct (data_usage data) as [reported|];
    [|by destruct (lookupKey (request_model request) modelInfo)].
  unfold getProperty. rewrite Hk.
  destruct (lookupKey (request_model request) modelInfo) as [m|] eqn:Hm;
    [|done].
  simpl. pose proof (modelInfo_name _ _ Hm) as Hname.
  assert (Hrec : recordable (name m) (usageOf w))
    by (apply getProperty_plain; by rewrite Hname).
  destruct (ensureUsage_spec (name m) (Own m) w) as (w1 & H1 & F1 & U1);
    [done|].
  destruct (addUsage_spec (name m) "promptTokens"
              (addPromptTokens (prompt_tokens reported)) w1)
    as (w2 & H2 & F2 & U2).
  { rewrite U1. by apply ensured_recordable. }
  destruct (addUsage_spec (name m) "completionTokens"
              (addCompletionTokens (completion_tokens reported)) w2)
    as (w3 & H3 & F3 & U3).
  { rewrite U2, U1. by apply alterKey_is_Some, ensured_recordable. }
  destruct (addUsage_spec (name m) "apiCalls" (addApiCalls (num 1 1)) w3)
    as (w4 & H4 & F4 & U4).
  { rewrite U3, U2, U1.
    by apply alterKey_is_Some, alterKey_is_Some, ensured_recordable. }
  exists w4. split.
  - rewrite (bind_Returned _ _ _ _ _ H1), (bind_Returned _ _ _ _ _ H2).
    by rewrite (bind_Returned _ _ _ _ _ H3).
  - split; [by repeat (eapply sameButUsage_trans; [eassumption|])|].
    unfold recordedReal. by rewrite U4, U3, U2, U1.
Qed.

Lemma callLLM_real_usage (request : CreateChatCompletionRequest)
    (verbose : bool) (api : ApiOutcome) (w : World) :
  inherited (request_model request) = false ->
  usageOf (callLLM_real request verbose api w).1 =
  match api with
  | ApiResolved data =>
      if verbose && bool_decide (choices data = []) then usageOf w
      else match data_usage data,
                 lookupKey (request_model request) modelInfo with
           | Some reported, Some m => recordedReal m reported (usageOf w)
           | _, _ => usageOf w
           end
  | ApiRejected _ => usageOf w
  end.
Proof.
  intros Hk. unfold callLLM_real, callLLM_try, tryCatch.
  destruct api as [data|e]; [|done].
  pose proof (recordUsage_spec request data w Hk) as Hrec.
  assert (Hwhen : when verbose (firstMessage data ;; ret tt) w
                  = if verbose && bool_decide (choices data = [])
                    then (w, Thrown (TypeError
                      "Cannot read properties of undefined (reading 'message')"))
                    else (w, Returned tt)).
  { unfold when, firstMessage, bind, throw, ret.
    destruct verbose; [|done]. by destruct (choices data). }
  destruct (verbose && bool_decide (choices data = [])).
  { by rewrite (bind_Thrown _ _ _ _ _ Hwhen). }
  rewrite (bind_Returned _ _ _ _ _ Hwhen).
  destruct (data_usage data) as [reported|],
    (lookupKey (request_model request) modelInfo) as [m|].
  - destruct Hrec as (w1 & H1 & F1 & U1).
    rewrite (bind_Returned _ _ _ _ _ H1).
    unfold firstMessage, bind, throw, ret.
    destruct (choices data) as [|[[msg|]] rest]; by simpl.
  - by rewrite (bind_Thrown _ _ _ _ _ Hrec).
  - rewrite (bind_Returned _ _ _ _ _ Hrec).
    unfold firstMessage, bind, throw, ret.
    destruct (choices data) as [|[[msg|]] rest]; by simpl.
  - rewrite (bind_Returned _ _ _ _ _ Hrec).
    unfold firstMessage, bind, throw, ret.
    destruct (choices data) as [|[[msg|]] rest]; by simpl.
Qed.

Lemma callLLM_real_result (request : CreateChatCompletionRequest)
    (verbose : bool) (api : ApiOutcome) (w : World) :
  inherited (request_model request) = false ->
  (callLLM_real request verbose api w).2 =
  Returned
    match api with
    | ApiRejected e => ErrorValue e
    | ApiResolved data =>
        match choices data with
        | [] =>
            ErrorValue (TypeError
              (if verbose
               then "Cannot read properties of undefined (reading 'message')"
               else match data_usage data,
                          lookupKey (request_model request) modelInfo with
                    | Some _, None =>
                        "Cannot read properties of undefined (reading 'name')"
                    | _, _ =>
                        "Cannot read properties of undefined (reading 'message')"
                    end))
        | c :: _ =>
            match data_usage data,
                  lookupKey (request_model request) modelInfo with
            | Some _, None =>
                ErrorValue (TypeError
                  "Cannot read properties of undefined (reading 'name')")
            | _, _ => answerOf c
            end
        end
    end.
Proof.
  intros Hk. unfold callLLM_real, callLLM_try, tryCatch.
  destruct api as [data|e]; [|done].
  pose proof (recordUsage_spec request data w Hk) as Hrec.
  assert (Hwhen : when verbose (firstMessage data ;; ret tt) w
                  = if verbose && bool_decide (choices data = [])
                    then (w, Thrown (TypeError
                      "Cannot read properties of undefined (reading 'message')"))
                    else (w, Returned tt)).
  { unfold when, firstMessage, bind, throw, ret.
    destruct verbose; [|done]. by destruct (choices data). }
  destruct verbose, (choices data) as [|c rest] eqn:Hc; simpl in Hwhen;
    try (by rewrite (bind_Thrown _ _ _ _ _ Hwhen));
    rewrite (bind_Returned _ _ _ _ _ Hwhen);
    (destruct (data_usage data) as [reported|],
       (lookupKey (request_model request) modelInfo) as [m|];
     [destruct Hrec as (w1 & H1 & F1 & U1);
      rewrite (bind_Returned _ _ _ _ _ H1)
     |by rewrite (bind_Thrown _ _ _ _ _ Hrec)
     |rewrite (bind_Returned _ _ _ _ _ Hrec)
     |rewrite (bind_Returned _ _ _ _ _ Hrec)]);
    unfold firstMessage, answerOf, bind, throw, ret; rewrite Hc; simpl;
    try done; by destruct (choice_message c).
Qed.




Section UsageForm.

Variable key : string.
Variable w : World.






End UsageForm.





Lemma counters_recorded (key key' : string) (fs : list (Usage -> Usage))
    (t : UsageTable) :
  lookupKey key' (fold_right (fun f t => alterKey f key t) t fs)
  = if decide (key = key')
    then (fun u => fold_right (fun f u => f u) u fs) <$> lookupKey key' t
    else lookupKey key' t.
Proof.
  induction fs as [|f fs IH]; simpl.
  - case_decide; [|done]. by destruct (lookupKey key' t).
  - rewrite lookupKey_alterKey, IH. case_decide; [|done].
    by destruct (lookupKey key' t).
Qed.

(** X10: what a mock call records.  When [this.usage[request.model]] is a
    usage record or nothing, the number of API calls under
    [request.model] goes up by one while the completion tokens and the
    stored cost stay as they are; the model kept with the record is the
    one already there, or else the entry of the price table ([undefined]
    when there is none); and the records of all other models are
    untouched.  When [this.usage[request.model]] is a function or object
    inherited from the prototype, the call throws and changes nothing.
    Neither the answer of a provider nor the [verbose] flag plays a
    part. *)
Theorem mock_call_accounting (w : World)
    (request : CreateChatCompletionRequest) (verbose : bool) (random : Qc)
    (api : ApiOutcome) :
  isMock (run w) = true \/ openai (run w) = false ->
  let key := request_model request in
  let t := usageOf w in
  let t' := usageOf (callLLM request verbose random api w).1 in
  (recordable key t ->
   apiCallsOf key t' = (apiCallsOf key t + num 1 1)%Qc
   /\ completionTokensOf key t' = completionTokensOf key t
   /\ (fun u => totalCost (modelUsage u)) <$> lookupKey key t' =
        Some (match lookupKey key t with
              | Some u => totalCost (modelUsage u)
              | None => num 0 1
              end)
   /\ model <$> lookupKey key t' =
        Some (match lookupKey key t with
              | Some u => model u
              | None => lookupKey key modelInfo
              end)
   /\ (forall key', key' <> key -> lookupKey key' t' = lookupKey key' t))
  /\ (~ recordable key t ->
      callLLM request verbose random api w
      = (w, Thrown (TypeError
               "Cannot read properties of undefined (reading 'promptTokens')")))
  /\ (forall verbose' api',
        callLLM request verbose' random api' w
        = callLLM request verbose random api w).
Proof.
  intros Hmock key t t'. subst key t t'.
  rewrite (callLLM_mock_mode _ _ _ _ _ Hmock).
  split; [|split].
  - intros Hrec.
    destruct (callLLM_mock_world request random w Hrec)
      as (w1 & -> & _ & Hu).
    rewrite mockResponse_world, Hu.
    assert (Hcount : forall key',
      lookupKey key'
        (alterKey (addApiCalls (num 1 1)) (request_model request)
           (alterKey
              (addPromptTokens
                 (num (Z.of_nat (String.length (textMessages request))) 1
                  / num 4 1)%Qc)
              (request_model request)
              (ensured (request_model request)
                       (lookupKey (request_model request) modelInfo)
                       (usageOf w))))
      = if decide (request_model request = key')
        then (fun u =>
                addApiCalls (num 1 1)
                  (addPromptTokens
                     (num (Z.of_nat (String.length (textMessages request))) 1
                      / num 4 1)%Qc u))
             <$> lookupKey key'
                   (ensured (request_model request)
                            (lookupKey (request_model request) modelInfo)
                            (usageOf w))
        else lookupKey key'
               (ensured (request_model request)
                        (lookupKey (request_model request) modelInfo)
                        (usageOf w))).
    { intros key'.
      exact (counters_recorded (request_model request) key'
               [addApiCalls (num 1 1);
                addPromptTokens
                  (num (Z.of_nat (String.length (textMessages request))) 1
                   / num 4 1)%Qc]
               (ensured (request_model request)
                        (lookupKey (request_model request) modelInfo)
                        (usageOf w))). }
    unfold apiCallsOf, completionTokensOf.
    rewrite !Hcount, !decide_True, !lookupKey_ensured, !decide_True by done.
    assert (inherited (request_model request) = true ->
            is_Some (lookupKey (request_model request) (usageOf w)))
      as Hown.
    { intros Hk. unfold recordable, getProperty in Hrec. rewrite Hk in Hrec.
      by destruct (lookupKey (request_model request) (usageOf w)). }
    split; [|split; [|split; [|split]]].
    + destruct (lookupKey (request_model request) (usageOf w)); [done|].
      destruct (inherited (request_model request)); [|done].
      by destruct Hown as [? ?].
    + destruct (lookupKey (request_model request) (usageOf w)); [done|].
      destruct (inherited (request_model request)); [|done].
      by destruct Hown as [? ?].
    + destruct (lookupKey (request_model request) (usageOf w)); [done|].
      destruct (inherited (request_model request)); [|done].
      by destruct Hown as [? ?].
    + destruct (lookupKey (request_model request) (usageOf w)); [done|].
      destruct (inherited (request_model request)); [|done].
      by destruct Hown as [? ?].
    + intros key' Hne.
      rewrite Hcount, decide_False, lookupKey_ensured, decide_False by done.
      by destruct (lookupKey key' (usageOf w)).
  - intros Hrec. apply callLLM_mock_inherited.
    unfold recordable in Hrec.
    destruct (getProperty (request_model request) (usageOf w)); [|done|];
      by destruct Hrec.
  - intros verbose' api'. by rewrite (callLLM_mock_mode _ _ _ _ _ Hmock).
Qed.

Lemma mock_call_accounting_witness :
  (isMock (run mockRun) = true \/ openai (run mockRun) = false)
  /\ recordable "gpt-4" (usageOf mockRun)
  /\ apiCallsOf "gpt-4"
       (usageOf (callLLM (plainRequest "gpt-4" "hi") true (num 0 1)
                         sampleAnswer mockRun).1)
     = (apiCallsOf "gpt-4" (usageOf mockRun) + num 1 1)%Qc.
Proof.
  assert (H : isMock (run mockRun) = true \/ openai (run mockRun) = false)
    by (left; reflexivity).
  assert (H' : recordable "gpt-4" (usageOf mockRun)) by (by vm_compute).
  split; [exact H|]. split; [exact H'|].
  exact (proj1 (proj1 (mock_call_accounting mockRun
                         (plainRequest "gpt-4" "hi") true (num 0 1)
                         sampleAnswer H) H')).
Defined.

Lemma recordedReal_lookup (m : Model) (reported : CompletionUsage)
    (t : UsageTable) (key' : string) :
  inherited (name m) = false ->
  lookupKey key' (recordedReal m reported t)
  = if decide (name m = key')
    then Some (addApiCalls (num 1 1)
                 (addCompletionTokens (completion_tokens reported)
                    (addPromptTokens (prompt_tokens reported)
                       (match lookupKey (name m) t with
                        | Some u => u
                        | None => freshUsage (Some m)
                        end))))
    else lookupKey key' t.
Proof.
  intros Hk.
  assert (lookupKey key' (recordedReal m reported t)
          = if decide (name m = key')
            then (fun u => addApiCalls (num 1 1)
                             (addCompletionTokens (completion_tokens reported)
                                (addPromptTokens (prompt_tokens reported) u)))
                 <$> lookupKey key' (ensured (name m) (Some m) t)
            else lookupKey key' (ensured (name m) (Some m) t)) as H.
  { exact (counters_recorded (name m) key'
             [addApiCalls (num 1 1);
              addCompletionTokens (completion_tokens reported);
              addPromptTokens (prompt_tokens reported)]
             (ensured (name m) (Some m) t)). }
  rewrite H, lookupKey_ensured, Hk.
  destruct (decide (name m = key')) as [<-|Hne].
  - by destruct (lookupKey (name m) t).
  - by destruct (lookupKey key' t).
Qed.

(** X11: what a real call records, for a model name that is not inherited
    from the prototype, when the provider answers with at least one
    choice.  If the answer reports no usage, the call resolves to the
    message of the first choice, or to the error value
    [No message returned] when that choice has none, and the table stays as
    it is.  If it reports usage and the price table knows the model, the
    call resolves in the same way, the record of that model gains the
    reported prompt and completion tokens and one API call, and no other
    record changes.  If it reports usage and the price table does not know
    the model, the call resolves to the [TypeError] of [model.name], the
    answer is lost and nothing is recorded. *)
Theorem real_call_accounting (w : World)
    (request : CreateChatCompletionRequest) (verbose : bool) (random : Qc)
    (data : ResponseData) (c : ResponseChoice) (rest : list ResponseChoice) :
  isMock (run w) = false -> openai (run w) = true ->
  inherited (request_model request) = false ->
  choices data = c :: rest ->
  let key := request_model request in
  let t := usageOf w in
  let t' := usageOf (callLLM request verbose random (ApiResolved data) w).1 in
  (data_usage data = None ->
   t' = t
   /\ (callLLM request verbose random (ApiResolved data) w).2
      = Returned (answerOf c))
  /\ (forall reported m,
        data_usage data = Some reported ->
        lookupKey key modelInfo = Some m ->
        (callLLM request verbose random (ApiResolved data) w).2
          = Returned (answerOf c)
        /\ promptTokensOf key t'
           = (promptTokensOf key t + prompt_tokens reported)%Qc
        /\ completionTokensOf key t'
           = (completionTokensOf key t + completion_tokens reported)%Qc
        /\ apiCallsOf key t' = (apiCallsOf key t + num 1 1)%Qc
        /\ forall key', key' <> key -> lookupKey key' t' = lookupKey key' t)
  /\ (forall reported,
        data_usage data = Some reported ->
        lookupKey key modelInfo = None ->
        t' = t
        /\ (callLLM request verbose random (ApiResolved data) w).2
           = Returned (ErrorValue (TypeError
               "Cannot read properties of undefined (reading 'name')"))).
Proof.
  intros Hm Ho Hk Hc key t t'. subst key t t'.
  rewrite (callLLM_real_mode _ _ _ _ _ Hm Ho).
  rewrite callLLM_real_usage, callLLM_real_result, Hc by done.
  rewrite bool_decide_eq_false_2, andb_false_r by done.
  split; [|split].
  - by intros ->.
  - intros reported m -> Hmodel. rewrite Hmodel.
    pose proof (modelInfo_name _ _ Hmodel) as Hname.
    assert (Hplain : inherited (name m) = false) by (by rewrite Hname).
    unfold promptTokensOf, completionTokensOf, apiCallsOf.
    rewrite !recordedReal_lookup, Hname, !decide_True by done.
    split; [done|]. repeat split.
    + by destruct (lookupKey (request_model request) (usageOf w)).
    + by destruct (lookupKey (request_model request) (usageOf w)).
    + by destruct (lookupKey (request_model request) (usageOf w)).
    + intros key' Hne. rewrite recordedReal_lookup, Hname by done.
      by rewrite decide_False.
  - by intros reported -> ->.
Qed.

Lemma real_call_accounting_witness :
  isMock (run liveRun) = false /\ openai (run liveRun) = true
  /\ inherited (request_model (plainRequest "gpt-4" "hi")) = false
  /\ choices fullAnswer = [ {| choice_message := Some (userMessage "Hello") |} ]
  /\ promptTokensOf "gpt-4"
       (usageOf (callLLM (plainRequest "gpt-4" "hi") false (num 0 1)
                         (ApiResolved fullAnswer) liveRun).1)
     = (promptTokensOf "gpt-4" (usageOf liveRun) + num 7 1)%Qc.
Proof.
  assert (H1 : isMock (run liveRun) = false) by reflexivity.
  assert (H2 : openai (run liveRun) = true) by reflexivity.
  assert (H0 : inherited (request_model (plainRequest "gpt-4" "hi")) = false)
    by reflexivity.
  assert (H3 : choices fullAnswer
               = [ {| choice_message := Some (userMessage "Hello") |} ])
    by reflexivity.
  split; [exact H1|]. split; [exact H2|]. split; [exact H0|].
  split; [exact H3|].
  destruct (proj1 (proj2 (real_call_accounting liveRun
                            (plainRequest "gpt-4" "hi")
                            false (num 0 1) fullAnswer _ _ H1 H2 H0 H3))
                  _ _ eq_refl eq_refl) as (_ & Hp & _).
  exact Hp.
Defined.

(** X12: the [verbose] flag is not only a matter of logging.  With a
    backend and a model name that is not inherited from the prototype,
    when the provider fails or answers with at least one choice, the call
    resolves to the same value and records the same usage with and without
    [verbose].  When the answer holds no choice, both resolve to a
    [TypeError] value, and with [verbose] nothing is recorded: the log
    statement reads the missing choice first.  Without [verbose] the
    reported usage has been recorded by then if the price table knows the
    model; if it does not, nothing is recorded either, and the
    [TypeError] is that of [model.name]. *)
Theorem verbose_changes_accounting_without_choices (w : World)
    (request : CreateChatCompletionRequest) (random : Qc)
    (api : ApiOutcome) :
  isMock (run w) = false -> openai (run w) = true ->
  inherited (request_model request) = false ->
  ((forall data, api = ApiResolved data -> choices data <> []) ->
   (callLLM request true random api w).2
     = (callLLM request false random api w).2
   /\ usageOf (callLLM request true random api w).1
      = usageOf (callLLM request false random api w).1)
  /\ (forall data,
        api = ApiResolved data -> choices data = [] ->
        (callLLM request true random api w).2
        = Returned (ErrorValue (TypeError
            "Cannot read properties of undefined (reading 'message')"))
        /\ usageOf (callLLM request true random api w).1 = usageOf w
        /\ (exists msg, (callLLM request false random api w).2
                        = Returned (ErrorValue (TypeError msg)))
        /\ (forall reported m,
              data_usage data = Some reported ->
              lookupKey (request_model request) modelInfo = Some m ->
              usageOf (callLLM request false random api w).1
              = recordedReal m reported (usageOf w)
              /\ apiCallsOf (request_model request)
                   (usageOf (callLLM request false random api w).1)
                 = (apiCallsOf (request_model request) (usageOf w)
                    + num 1 1)%Qc
              /\ (callLLM request false random api w).2
                 = (callLLM request true random api w).2)
        /\ (forall reported,
              data_usage data = Some reported ->
              lookupKey (request_model request) modelInfo = None ->
              usageOf (callLLM request false random api w).1 = usageOf w
              /\ (callLLM request false random api w).2
                 = Returned (ErrorValue (TypeError
                     "Cannot read properties of undefined (reading 'name')")))
        /\ (data_usage data = None ->
            usageOf (callLLM request false random api w).1 = usageOf w)).
Proof.
  intros Hm Ho Hk. rewrite !(callLLM_real_mode _ _ _ _ _ Hm Ho).
  rewrite !callLLM_real_usage, !callLLM_real_result by done. split.
  - intros Hchoices. destruct api as [data|e]; [|done].
    specialize (Hchoices data eq_refl).
    rewrite bool_decide_eq_false_2 by done. simpl.
    by destruct (choices data).
  - intros data -> Hc. rewrite Hc. simpl.
    split; [done|]. split; [done|]. split; [by eexists|].
    split; [|split].
    + intros reported m -> Hmodel. rewrite Hmodel.
      split; [done|]. split; [|done].
      pose proof (modelInfo_name _ _ Hmodel) as Hname.
      unfold apiCallsOf.
      rewrite recordedReal_lookup, Hname, decide_True by (by rewrite ?Hname).
      by destruct (lookupKey (request_model request) (usageOf w)).
    + by intros reported -> ->.
    + by intros ->.
Qed.

Lemma verbose_changes_accounting_without_choices_witness :
  isMock (run liveRun) = false /\ openai (run liveRun) = true
  /\ inherited (request_model (plainRequest "gpt-4" "hi")) = false
  /\ usageOf (callLLM (plainRequest "gpt-4" "hi") true (num 0 1)
                      (ApiResolved emptyAnswer) liveRun).1
     = usageOf liveRun
  /\ apiCallsOf "gpt-4"
       (usageOf (callLLM (plainRequest "gpt-4" "hi") false (num 0 1)
                         (ApiResolved emptyAnswer) liveRun).1)
     = (apiCallsOf "gpt-4" (usageOf liveRun) + num 1 1)%Qc.
Proof.
  assert (H1 : isMock (run liveRun) = false) by reflexivity.
  assert (H2 : openai (run liveRun) = true) by reflexivity.
  assert (H0 : inherited (request_model (plainRequest "gpt-4" "hi")) = false)
    by reflexivity.
  split; [exact H1|]. split; [exact H2|]. split; [exact H0|].
  destruct (proj2 (verbose_changes_accounting_without_choices liveRun
                     (plainRequest "gpt-4" "hi") (num 0 1)
                     (ApiResolved emptyAnswer) H1 H2 H0)
                  emptyAnswer eq_refl eq_refl)
    as (_ & Ha & _ & Hb & _).
  split; [exact Ha|].
  exact (proj1 (proj2 (Hb _ _ eq_refl eq_refl))).
Defined.

(** ** Cost reporting *)

Lemma sumCosts_recomputed (t t' : UsageTable) :
  Forall2 recomputed t t' ->
  forall acc, sumCosts t acc = sumCosts t' acc.
Proof.
  induction 1 as [|[k u] [k' u'] t t' Hr _ IH]; intros acc; [done|].
  pose proof (recomputed_cost _ _ Hr) as Hnew.
  destruct Hr as (_ & _ & _ & _ & _ & Hold). simpl in *.
  rewrite Hold, Hnew. apply IH.
Qed.

Lemma recomputeCosts_again (t t' : UsageTable) :
  Forall2 recomputed t t' -> recomputeCosts t' = (t', None).
Proof.
  induction 1 as [|old [k' u'] t t' Hr _ IH]; [done|].
  pose proof (recomputed_cost _ _ Hr) as Hnew. simpl in *.
  rewrite Hnew, IH. by destruct u' as [m []].
Qed.

(** X13: cost reporting is stable.  On a well-typed usage table
    [getTotalCost()] changes nothing and returns the same amount before and
    after [calculateAllLLMCosts()]; after it, that amount is the sum of the
    [totalCost] fields of the table; and [calculateAllLLMCosts()] a second
    time changes no entry, so that the costs are brought up to date once
    and for all until the next call is recorded. *)
Theorem cost_reporting_is_stable (w : World) :
  typed (usageOf w) ->
  exists cost w1,
    getTotalCost w = (w, Returned cost)
    /\ calculateAllLLMCosts w = (w1, Returned (usage (run w)))
    /\ (usageOf w1).*1 = (usageOf w).*1
    /\ getTotalCost w1 = (w1, Returned cost)
    /\ cost = total (storedCosts (usageOf w1))
    /\ usageOf (calculateAllLLMCosts w1).1 = usageOf w1
    /\ (calculateAllLLMCosts w1).2 = Returned (usage (run w)).
Proof.
  intros Ht. destruct (calculateAllLLMCosts_typed w Ht) as (t' & Hall & Hc).
  destruct (sumCosts_typed (usageOf w) (num 0 1) Ht) as (cost & Hcost).
  exists cost, (withUsage (fun _ => t') w).
  split; [unfold getTotalCost; by rewrite Hcost|]. split; [done|].
  rewrite usageOf_withUsage. split; [by apply keys_recomputed|].
  assert (sumCosts t' (num 0 1) = inr cost) as Hcost'
    by (by rewrite <- (sumCosts_recomputed _ _ Hall)).
  split; [unfold getTotalCost; by rewrite usageOf_withUsage, Hcost'|].
  split.
  - rewrite (sumCosts_stored _ _ Hall) in Hcost'. by injection Hcost'.
  - unfold calculateAllLLMCosts. rewrite usageOf_withUsage.
    rewrite (recomputeCosts_again _ _ Hall). simpl.
    by rewrite usageOf_withUsage.
Qed.

Lemma cost_reporting_is_stable_witness :
  typed (usageOf busyRun)
  /\ exists cost w1,
       getTotalCost busyRun = (busyRun, Returned cost)
       /\ calculateAllLLMCosts busyRun = (w1, Returned (usage (run busyRun)))
       /\ getTotalCost w1 = (w1, Returned cost)
       /\ cost = total (storedCosts (usageOf w1)).
Proof.
  assert (H : typed (usageOf busyRun)).
  { vm_compute. constructor; [by eexists|constructor]. }
  split; [exact H|].
  destruct (cost_reporting_is_stable busyRun H)
    as (cost & w1 & H1 & H2 & _ & H3 & H4 & _).
  by exists cost, w1.
Defined.

(** ** The text of the mock *)

(** X14: what the token estimate of the mock counts.  The text has, for
    every message, the characters of the role and of the content plus three
    separators; a message without content counts for the nine characters
    of [undefined]; a message with a function call counts for sixteen more,
    whatever the name and the arguments of the call.  So the estimate does
    not depend on the order of the messages. *)
Theorem mock_text_length (request : CreateChatCompletionRequest) :
  String.length (textMessages request)
  = sum_list (messageLength <$> messages request)
  /\ forall request',
       messages request ≡ₚ messages request' ->
       String.length (textMessages request')
       = String.length (textMessages request).
Proof.
  assert (Hlen : forall r, String.length (textMessages r)
                           = sum_list (messageLength <$> messages r)).
  { intros r. unfold textMessages. by rewrite textMessages_length_from. }
  split; [apply Hlen|].
  intros request' Hperm. rewrite !Hlen.
  induction Hperm; csimpl; [done|lia|lia|congruence].
Qed.

(** ** Notes: reading a note and writing it back *)

Lemma splitOn_nonempty (sep : Ascii.ascii) (s : string) : splitOn sep s <> [].
Proof.
  induction s as [|c s IH]; simpl; [done|].
  destruct (Ascii.eqb c sep); [done|]. by destruct (splitOn sep s).
Qed.

Lemma splitOn_line (sep : Ascii.ascii) (a b : string) :
  occurs sep a = false ->
  splitOn sep (a ++ String sep b) = a :: splitOn sep b.
Proof.
  induction a as [|c a IH]; simpl; intros Ha.
  - by rewrite Ascii.eqb_refl.
  - apply orb_false_iff in Ha as [Hc Ha]. rewrite Hc, (IH Ha). done.
Qed.

Lemma splitOn_first (sep : Ascii.ascii) (s : string) :
  occurs sep (hd EmptyString (splitOn sep s)) = false.
Proof.
  induction s as [|c s IH]; simpl; [done|].
  destruct (Ascii.eqb c sep) eqn:Hc; [done|].
  destruct (splitOn sep s) as [|piece pieces]; simpl in *.
  - by rewrite Hc.
  - by rewrite Hc, IH.
Qed.

Lemma join_splitOn (sep : Ascii.ascii) (s : string) :
  join (String sep EmptyString) (splitOn sep s) = s.
Proof.
  induction s as [|c s IH]; simpl; [done|].
  destruct (Ascii.eqb_spec c sep) as [->|Hc].
  - pose proof (splitOn_nonempty sep s) as Hne.
    destruct (splitOn sep s) as [|piece pieces]; [done|].
    simpl in *. by rewrite IH.
  - pose proof (splitOn_nonempty sep s) as Hne.
    destruct (splitOn sep s) as [|piece pieces]; [done|].
    destruct pieces as [|piece' pieces]; simpl in *; by rewrite <- IH.
Qed.

Lemma occurs_sliceFrom (c : Ascii.ascii) (n : nat) (s : string) :
  occurs c s = false -> occurs c (sliceFrom n s) = false.
Proof.
  revert s. induction n as [|n IH]; intros s Hs; [done|].
  destruct s as [|c' s]; [done|]. simpl in *.
  apply orb_false_iff in Hs as [_ Hs]. by apply IH.
Qed.

(** X16: reading a note and writing the text back.  [getNote] puts the
    name of the note in front as a header line; [editNote], given that
    text, finds the header and takes it off again, and hands the vault the
    content of the note with the white space at both ends removed.  When the
    name of the note has a line feed in it the header is not recognised and
    the text is written with the header in it.  A mock run writes
    nothing. *)
Theorem edit_after_get (r : Run) (files : list TFile)
    (read : TFile -> string) (name text : string) :
  getNote files read name = Some text ->
  exists file,
    findNote files name = Some file
    /\ editNote r files name text
       = if isMock r then Skipped
         else if occurs lineFeed name then Processed file text
         else Processed file (trim (read file)).
Proof.
  unfold getNote, editNote. intros Hget.
  destruct (findNote files name) as [file|] eqn:Hfind; [|done].
  injection Hget as <-. exists file. split; [done|].
  destruct (isMock r); [done|].
  destruct (occurs lineFeed name) eqn:Hname.
  - pose proof (splitOn_first lineFeed ("# " ++ name ++ newline ++ read file)%string)
      as Hfirst.
    destruct (String.prefix "#" _); [|done].
    destruct (String.eqb_spec
                (sliceFrom 2
                   (hd EmptyString
                      (splitOn lineFeed
                         ("# " ++ name ++ newline ++ read file)%string))) name)
      as [Heq|_]; [|done].
    apply (occurs_sliceFrom lineFeed 2) in Hfirst.
    rewrite Heq in Hfirst. congruence.
  - assert (splitOn lineFeed ("# " ++ name ++ newline ++ read file)%string
            = ("# " ++ name)%string :: splitOn lineFeed (read file)) as ->.
    { change ("# " ++ name ++ newline ++ read file)%string
        with ("# " ++ (name ++ String lineFeed (read file)))%string.
      replace ("# " ++ (name ++ String lineFeed (read file)))%string
        with (("# " ++ name) ++ String lineFeed (read file))%string by done.
      apply splitOn_line. simpl. exact Hname. }
    simpl. rewrite String.eqb_refl.
    change newline with (String lineFeed EmptyString).
    by rewrite join_splitOn.
Qed.

Lemma edit_after_get_witness :
  getNote sampleFiles sampleRead "plan"
  = Some ("# plan" ++ newline ++ " first" ++ newline ++ "second" ++ newline)%string
  /\ editNote (run liveRun) sampleFiles "plan"
       ("# plan" ++ newline ++ " first" ++ newline ++ "second" ++ newline)%string
     = Processed {| basename := "plan"; filePath := "notes/plan.md" |}
         ("first" ++ newline ++ "second")%string.
Proof.
  assert (H : getNote sampleFiles sampleRead "plan"
              = Some ("# plan" ++ newline ++ " first" ++ newline ++ "second"
                        ++ newline)%string) by reflexivity.
  split; [exact H|].
  destruct (edit_after_get (run liveRun) sampleFiles sampleRead "plan" _ H)
    as (file & Hfile & Hedit).
  rewrite Hedit. apply (inj Some) in Hfile as <-. reflexivity.
Defined.

(** ** The configuration and the client of a provider *)

Lemma readKey_removeUndefinedKeys (obj : LLMProvider.Config) (key : string) :
  LLMProvider.removeUndefinedKeys obj !! key
  = if LLMProvider.isUndefined (LLMProvider.readKey obj key) then None
    else obj !! key.
Proof.
  unfold LLMProvider.removeUndefinedKeys, LLMProvider.readKey.
  rewrite map_lookup_filter.
  destruct (obj !! key) as [v|]; simpl; [|done].
  destruct (LLMProvider.isUndefined v) eqn:Hv.
  - by rewrite option_guard_False by (simpl; congruence).
  - by rewrite option_guard_True by done.
Qed.

Lemma readKey_union (a b : LLMProvider.Config) (key : string) :
  LLMProvider.readKey (a ∪ b) key
  = match a !! key with
    | Some v => v
    | None => LLMProvider.readKey b key
    end.
Proof.
  unfold LLMProvider.readKey. rewrite lookup_union.
  by destruct (a !! key), (b !! key).
Qed.

Lemma getMergedConfig_provider (this : LLMProvider.Provider)
    (args : option LLMProvider.Args) :
  LLMProvider.readKey (LLMProvider.getMergedConfig this args) "provider"
  = LLMProvider.VString
      (default (LLMProvider.provider this)
         (LLMProvider.truthy (args ≫= LLMProvider.args_provider))).
Proof.
  unfold LLMProvider.getMergedConfig, LLMProvider.readKey.
  by rewrite lookup_insert_eq.
Qed.

(** X17: which value a key of the merged configuration has.  The provider
    is the one of the call, or the one of the object when the call names
    none or the empty string.  For every other key an override wins over
    the default of that provider, which wins over the base configuration;
    an override or a default that is [undefined] counts as not given, while
    [null] counts as a value. *)
Theorem getMergedConfig_precedence (this : LLMProvider.Provider)
    (args : option LLMProvider.Args) (key : string) :
  key <> "provider" ->
  let p := match args ≫= LLMProvider.args_provider with
           | Some (String c s) => String c s
           | _ => LLMProvider.provider this
           end in
  let override :=
    LLMProvider.readKey (default ∅ (args ≫= LLMProvider.configOverrides)) key in
  let preset :=
    match LLMProvider.getDefaultConfigByProvider this with
    | Some callback => LLMProvider.readKey (default ∅ (callback p)) key
    | None => LLMProvider.VUndefined
    end in
  LLMProvider.readKey (LLMProvider.getMergedConfig this args) "provider"
  = LLMProvider.VString p
  /\ LLMProvider.readKey (LLMProvider.getMergedConfig this args) key
     = if LLMProvider.isUndefined override
       then if LLMProvider.isUndefined preset
            then LLMProvider.readKey (LLMProvider.baseConfig this) key
            else preset
       else override.
Proof.
  intros Hkey p override preset.
  assert (Hp : default (LLMProvider.provider this)
                 (LLMProvider.truthy (args ≫= LLMProvider.args_provider)) = p).
  { subst p. by destruct (args ≫= LLMProvider.args_provider) as [[|c s]|]. }
  split; [by rewrite getMergedConfig_provider, Hp|].
  unfold LLMProvider.getMergedConfig.
  unfold LLMProvider.readKey at 1. rewrite lookup_insert_ne by done.
  fold (LLMProvider.readKey
          (LLMProvider.removeUndefinedKeys
             (default ∅ (args ≫= LLMProvider.configOverrides))
           ∪ LLMProvider.getDefaultsByProvider this
               (default (LLMProvider.provider this)
                  (LLMProvider.truthy (args ≫= LLMProvider.args_provider)))
           ∪ LLMProvider.baseConfig this) key).
  rewrite Hp, readKey_union, lookup_union, readKey_removeUndefinedKeys.
  fold override. unfold LLMProvider.getDefaultsByProvider.
  rewrite readKey_removeUndefinedKeys.
  assert (LLMProvider.readKey
            (default ∅ (LLMProvider.getDefaultConfigByProvider this
                         ≫= fun callback => callback p)) key = preset)
    as Hpreset.
  { subst preset.
    by destruct (LLMProvider.getDefaultConfigByProvider this). }
  rewrite Hpreset. clearbody preset. subst preset.
  unfold override, LLMProvider.readKey.
  destruct (default ∅ (args ≫= LLMProvider.configOverrides) !! key) as [v|],
    (default ∅ _ !! key) as [d|]; simpl;
    repeat match goal with
           | |- context [LLMProvider.isUndefined ?x] =>
               destruct (LLMProvider.isUndefined x)
           end; done.
Qed.

Lemma getMergedConfig_precedence_witness :
  "model" <> "provider"
  /\ LLMProvider.readKey
       (LLMProvider.getMergedConfig LLMProvider.localProvider
          (Some LLMProvider.openaiArgs)) "provider"
     = LLMProvider.VString "openai"
  /\ LLMProvider.readKey
       (LLMProvider.getMergedConfig LLMProvider.localProvider
          (Some LLMProvider.openaiArgs)) "model"
     = LLMProvider.VString "gpt-4o".
Proof.
  assert (H : "model" <> "provider") by done.
  split; [exact H|].
  exact (getMergedConfig_precedence LLMProvider.localProvider
           (Some LLMProvider.openaiArgs) "model" H).
Defined.

Lemma truthy_nonempty (s : option string) (u : string) :
  LLMProvider.truthy s = Some u -> s = Some u /\ u <> EmptyString.
Proof.
  destruct s as [s'|]; simpl; [|done].
  destruct (String.eqb_spec s' EmptyString); [done|].
  intros [= <-]. done.
Qed.

Lemma splitBaseURL_url (baseURL : LLMProvider.Value)
    (urlString queryString : option string) (u : string) :
  LLMProvider.splitBaseURL baseURL = inr (urlString, queryString) ->
  LLMProvider.truthy urlString = Some u ->
  occurs LLMProvider.questionMark u = false
  /\ u <> EmptyString
  /\ exists s, baseURL = LLMProvider.VString s
               /\ (s = u
                   \/ exists rest,
                        s = (u ++ String LLMProvider.questionMark rest)%string).
Proof.
  intros Hsplit [-> Hu]%truthy_nonempty.
  destruct baseURL as [| | | |s|]; simpl in Hsplit; try done.
  injection Hsplit as Hfirst _.
  pose proof (splitOn_first LLMProvider.questionMark s) as Hocc.
  pose proof (join_splitOn LLMProvider.questionMark s) as Hjoin.
  destruct (splitOn LLMProvider.questionMark s) as [|piece pieces];
    simpl in *; [done|].
  injection Hfirst as ->. split; [done|]. split; [done|].
  exists s. split; [done|].
  rewrite <- Hjoin. destruct pieces as [|piece' pieces].
  - by left.
  - right. by eexists.
Qed.

Lemma getChatClient_construct {BaseChatModel : Type}
    (construct : LLMProvider.Construction -> Exception + BaseChatModel)
    (this : LLMProvider.Provider) (args : option LLMProvider.Args) :
  LLMProvider.getChatClient construct this args =
  match LLMProvider.getChatClient inr this args with
  | inl e => inl e
  | inr call => construct call
  end.
Proof.
  unfold LLMProvider.getChatClient.
  destruct (LLMProvider.splitBaseURL _) as [e|[urlString queryString]];
    [done|].
  destruct (LLMProvider.readKey _ "provider") as [| | | |p|]; try done.
  repeat match goal with
         | |- context [String.eqb p ?s] => destruct (String.eqb p s)
         end; try done.
  by destruct (default false _).
Qed.

Lemma getChatClient_calls (this : LLMProvider.Provider)
    (args : option LLMProvider.Args) :
  let config := LLMProvider.getMergedConfig this args in
  let p := default (LLMProvider.provider this)
             (LLMProvider.truthy (args ≫= LLMProvider.args_provider)) in
  match LLMProvider.readKey config "baseURL" with
  | LLMProvider.VUndefined | LLMProvider.VNull | LLMProvider.VString _ =>
      if bool_decide (p ∈ LLMProvider.supportedProviders)
      then exists call,
             LLMProvider.getChatClient inr this args = inr call
             /\ LLMProvider.clientProvider call = p
             /\ forall u,
                  LLMProvider.clientURL call = Some u ->
                  occurs LLMProvider.questionMark u = false
                  /\ u <> EmptyString
                  /\ exists s,
                       LLMProvider.readKey config "baseURL"
                       = LLMProvider.VString s
                       /\ (s = u
                           \/ exists rest,
                                s = (u ++ String LLMProvider.questionMark
                                                 rest)%string)
      else LLMProvider.getChatClient
             (inr : LLMProvider.Construction -> _) this args
           = inl (ErrorObject "Unsupported provider")
  | _ => exists msg,
           LLMProvider.getChatClient
             (inr : LLMProvider.Construction -> _) this args
           = inl (TypeError msg)
  end.
Proof.
  intros config p. unfold LLMProvider.getChatClient. fold config.
  rewrite (getMergedConfig_provider this args : 
             LLMProvider.readKey config "provider" = LLMProvider.VString p).
  destruct (LLMProvider.splitBaseURL (LLMProvider.readKey config "baseURL"))
    as [e|[urlString queryString]] eqn:Hsplit.
  { destruct (LLMProvider.readKey config "baseURL"); simpl in Hsplit;
      try done; injection Hsplit as <-; by eexists. }
  assert (Hurl : forall u,
            LLMProvider.truthy urlString = Some u ->
            occurs LLMProvider.questionMark u = false
            /\ u <> EmptyString
            /\ exists s,
                 LLMProvider.readKey config "baseURL" = LLMProvider.VString s
                 /\ (s = u
                     \/ exists rest,
                          s = (u ++ String LLMProvider.questionMark
                                           rest)%string)).
  { intros u. by apply splitBaseURL_url with queryString. }
  clearbody p.
  destruct (LLMProvider.readKey config "baseURL") eqn:Hbase;
    simpl in Hsplit; try done.
  all: destruct (String.eqb_spec p "openai") as [->|H1];
    [rewrite bool_decide_eq_true_2
       by (apply list_elem_of_In; simpl; tauto); eexists;
     split; [reflexivity|split; [done|intros u Hcu; by apply Hurl]]|].
  all: destruct (String.eqb_spec p "azure_openai") as [->|H2];
    [rewrite bool_decide_eq_true_2
       by (apply list_elem_of_In; simpl; tauto); eexists;
     split; [reflexivity|split; [done|intros u Hcu; by apply Hurl]]|].
  all: destruct (String.eqb_spec p "ollama") as [->|H3];
    [rewrite bool_decide_eq_true_2
       by (apply list_elem_of_In; simpl; tauto);
     destruct (default false _); eexists;
     (split; [reflexivity|split; [done|intros u Hcu; by apply Hurl]])|].
  all: destruct (String.eqb_spec p "gemini") as [->|H4];
    [rewrite bool_decide_eq_true_2
       by (apply list_elem_of_In; simpl; tauto); eexists;
     split; [reflexivity|split; [done|by intros u Hcu]]|].
  all: destruct (String.eqb_spec p "anthropic") as [->|H5];
    [rewrite bool_decide_eq_true_2
       by (apply list_elem_of_In; simpl; tauto); eexists;
     split; [reflexivity|split; [done|by intros u Hcu]]|].
  all: destruct (String.eqb_spec p "groq") as [->|H6];
    [rewrite bool_decide_eq_true_2
       by (apply list_elem_of_In; simpl; tauto); eexists;
     split; [reflexivity|split; [done|by intros u Hcu]]|].
  all: rewrite bool_decide_eq_false_2; [done|].
  all: intros Hin%list_elem_of_In; simpl in Hin; intuition congruence.
Qed.

(** X18: which constructor [getChatClient] calls.  When the base address
    is a string or not given, [getChatClient] ends with one constructor
    call exactly for the six providers of [SupportedProviders], that of
    the provider's client, and its outcome is the constructor's: the
    client, or the exception the constructor throws.  For every other
    provider name it throws "Unsupported provider" itself, and a base
    address that is no string makes it throw a [TypeError] whatever the
    provider; no constructor is called then.  The address the constructor
    is given is the part of the base address before its first question
    mark, or all of it when it has none; it is never the empty string. *)
Theorem getChatClient_providers (this : LLMProvider.Provider)
    (args : option LLMProvider.Args) :
  let config := LLMProvider.getMergedConfig this args in
  let p := default (LLMProvider.provider this)
             (LLMProvider.truthy (args ≫= LLMProvider.args_provider)) in
  match LLMProvider.readKey config "baseURL" with
  | LLMProvider.VUndefined | LLMProvider.VNull | LLMProvider.VString _ =>
      if bool_decide (p ∈ LLMProvider.supportedProviders)
      then exists call,
             (forall (BaseChatModel : Type)
                     (construct : LLMProvider.Construction
                                  -> Exception + BaseChatModel),
                LLMProvider.getChatClient construct this args
                = construct call)
             /\ LLMProvider.clientProvider call = p
             /\ forall u,
                  LLMProvider.clientURL call = Some u ->
                  occurs LLMProvider.questionMark u = false
                  /\ u <> EmptyString
                  /\ exists s,
                       LLMProvider.readKey config "baseURL"
                       = LLMProvider.VString s
                       /\ (s = u
                           \/ exists rest,
                                s = (u ++ String LLMProvider.questionMark
                                                 rest)%string)
      else forall (BaseChatModel : Type)
                  (construct : LLMProvider.Construction
                               -> Exception + BaseChatModel),
             LLMProvider.getChatClient construct this args
             = inl (ErrorObject "Unsupported provider")
  | _ => exists msg,
           forall (BaseChatModel : Type)
                  (construct : LLMProvider.Construction
                               -> Exception + BaseChatModel),
             LLMProvider.getChatClient construct this args
             = inl (TypeError msg)
  end.
Proof.
  intros config p. pose proof (getChatClient_calls this args) as H.
  fold config p in H. simpl in H.
  destruct (LLMProvider.readKey config "baseURL");
    try (destruct H as (msg & H); exists msg; intros A construct;
         by rewrite getChatClient_construct, H).
  all: destruct (bool_decide (p ∈ LLMProvider.supportedProviders));
    [destruct H as (call & H & Hp & Hu); exists call;
     split; [intros A construct; by rewrite getChatClient_construct, H|done]
    |intros A construct; by rewrite getChatClient_construct, H].
Qed.

(** ** Usage records and the price table *)

Lemma usageOf_emitStoppage (why : StoppageReason) (msg : option string)
    (w : World) :
  usageOf (emitStoppage why msg w).1 = (recomputeCosts (usageOf w)).1.
Proof.
  unfold emitStoppage, bind, calculateAllLLMCosts, getTotalCost, modify.
  destruct (recomputeCosts (usageOf w)) as [t' [e|]]; simpl.
  - by rewrite usageOf_withUsage.
  - destruct (sumCosts _ _); simpl;
      by rewrite ?usageOf_notify, usageOf_withUsage.
Qed.

Lemma stop_outcome (w : World) :
  (stop w).2 = Returned tt <-> typed (usageOf w).
Proof.
  destruct (stop_and_emit user None w)
    as (w' & out & Hemit & _ & _ & _ & _ & Hcases).
  change (stop w) with (emitStoppage user None (withRun (setStopped true) w)).
  rewrite Hemit. simpl.
  destruct Hcases as [(Ht & -> & _)|(Ht & (m & ->) & _)]; [done|].
  split; [done|]. intros ?. by destruct Ht.
Qed.

Lemma plainStep_runStep (w w' : World) : plainStep w w' -> runStep w w'.
Proof. intros [| |]; by constructor. Qed.

Lemma runStep_mode (w w' : World) :
  runStep w w' ->
  isMock (run w') = isMock (run w) /\ openai (run w') = openai (run w).
Proof.
  intros [w0 object newStatus msg Hne|w0 change
         |w0 request verbose random api].
  - destruct (decide (newStatus = Complete \/ newStatus = Rejected))
      as [Hterm|Hother].
    + destruct (terminal_unfold w0 object newStatus msg Hterm)
        as (ops & _ & _ & ->).
      destruct (allObjectsFinished w0 && negb (isStopped (run w0))); [|done].
      pose proof (emitStoppage_any complete None
                    (withRun (setStopped true) (withCanvasOps ops w0))) as H.
      destruct (emitStoppage _ _ _) as [w1 out].
      destruct H as (H & _). simpl. by rewrite H.
    + assert (newStatus = Executing \/ newStatus = Pending
              \/ newStatus = Warning) as Hs
        by (destruct newStatus; tauto).
      by rewrite (nonterminal_unfold w0 object newStatus msg Hs).
  - done.
  - by destruct (callLLM_frame request verbose random api w0) as (-> & _).
Qed.

Section EntryInvariant.

Variable P : string -> option Model -> Prop.

Lemma entries_alterKey (f : Usage -> Usage) (key : string) (t : UsageTable) :
  (forall u, model (f u) = model u) ->
  Forall (fun entry => P entry.1 (model entry.2)) t ->
  Forall (fun entry => P entry.1 (model entry.2)) (alterKey f key t).
Proof.
  intros Hf. induction 1 as [|[k u] t Hu Ht IH]; simpl; [done|].
  case_decide; constructor; simpl in *; by rewrite ?Hf.
Qed.

Lemma entries_ensured (key : string) (m : option Model) (t : UsageTable) :
  P key m ->
  Forall (fun entry => P entry.1 (model entry.2)) t ->
  Forall (fun entry => P entry.1 (model entry.2)) (ensured key m t).
Proof.
  intros Hm Ht. unfold ensured.
  destruct (getProperty key t) eqn:E; [done..|].
  destruct (getProperty_Absent _ _ E) as [Hk _].
  destruct (setKey_new key (freshUsage m) t Hk) as (l1 & l2 & -> & -> & _).
  apply Forall_app in Ht as [H1 H2].
  apply Forall_app. split; [done|]. by constructor.
Qed.

Lemma entries_recomputeCosts (t : UsageTable) :
  Forall (fun entry => P entry.1 (model entry.2)) t ->
  Forall (fun entry => P entry.1 (model entry.2)) (recomputeCosts t).1.
Proof.
  induction 1 as [|[k u] t Hu Ht IH]; simpl; [done|].
  destruct (calculateLLMCostForModel u); simpl; [by constructor|].
  destruct (recomputeCosts t) as [t' r]. by constructor.
Qed.

Lemma plainStep_entries (w w' : World) :
  plainStep w w' ->
  (forall key, isMock (run w) = true \/ openai (run w) = false ->
               P key (lookupKey key modelInfo)) ->
  (forall key m, lookupKey key modelInfo = Some m -> P (name m) (Some m)) ->
  Forall (fun entry => P entry.1 (model entry.2)) (usageOf w) ->
  Forall (fun entry => P entry.1 (model entry.2)) (usageOf w').
Proof.
  intros [w0 object newStatus msg Hne|w0 change
         |w0 request verbose random api Hplain] Hmock Hreal Ht.
  - destruct (decide (newStatus = Complete \/ newStatus = Rejected))
      as [Hterm|Hother].
    + destruct (terminal_unfold w0 object newStatus msg Hterm)
        as (ops & _ & _ & ->).
      destruct (allObjectsFinished w0 && negb (isStopped (run w0))); [|done].
      rewrite usageOf_emitStoppage. by apply entries_recomputeCosts.
    + assert (newStatus = Executing \/ newStatus = Pending
              \/ newStatus = Warning) as Hs
        by (destruct newStatus; tauto).
      by rewrite (nonterminal_unfold w0 object newStatus msg Hs).
  - done.
  - assert (Hrec : recordable (request_model request) (usageOf w0))
      by (by apply getProperty_plain).
    destruct (isMock (run w0)) eqn:Hm; [|destruct (openai (run w0)) eqn:Ho].
    + rewrite (callLLM_mock_mode _ _ _ _ _ (or_introl Hm)).
      destruct (callLLM_mock_world request random w0 Hrec)
        as (w1 & -> & _ & Hu).
      rewrite mockResponse_world, Hu.
      repeat apply entries_alterKey; try done.
      apply entries_ensured; [|done]. apply Hmock. by left.
    + rewrite (callLLM_real_mode _ _ _ _ _ Hm Ho), callLLM_real_usage by done.
      destruct api as [data|e]; [|done].
      destruct (verbose && bool_decide (choices data = [])); [done|].
      destruct (data_usage data) as [reported|]; [|done].
      destruct (lookupKey (request_model request) modelInfo) as [m|] eqn:Hk;
        [|done].
      unfold recordedReal. repeat apply entries_alterKey; try done.
      apply entries_ensured; [|done]. by apply (Hreal _ _ Hk).
    + rewrite (callLLM_mock_mode _ _ _ _ _ (or_intror Ho)).
      destruct (callLLM_mock_world request random w0 Hrec)
        as (w1 & -> & _ & Hu).
      rewrite mockResponse_world, Hu.
      repeat apply entries_alterKey; try done.
      apply entries_ensured; [|done]. apply Hmock. by right.
Qed.

End EntryInvariant.

Lemma priced_typed (t : UsageTable) :
  Forall (fun entry => model entry.2 = lookupKey entry.1 modelInfo) t ->
  typed t <-> Forall (fun key => is_Some (lookupKey key modelInfo)) t.*1.
Proof.
  unfold typed. induction 1 as [|[k u] t Hu Ht IH]; csimpl; [done|].
  rewrite !Forall_cons, IH. simpl in *. by rewrite Hu.
Qed.

(** X19: when costs can be computed.  From a new run on, along any
    sequence of status events other than [Error], changes of the items and
    calls for model names that are not inherited from the prototype, every
    usage record holds the model that the price table has for its key, and
    [undefined] when the table has none.  So
    [stop()] returns, and with it notifies its stoppage, exactly when every
    key of the usage table is a model of the price table; and a run with a
    backend that is not a mock never stores a record without a model, so
    that there [stop()] always returns. *)
Theorem usage_follows_price_table (graphArg : list (string * ObjRef))
    (objects : gmap ObjRef CannoliObject) (isMockArg : option bool)
    (canvasArg openaiArg : bool) (llmLimitArg : option nat) (w : World) :
  rtc plainStep
      (newRun graphArg objects isMockArg canvasArg openaiArg llmLimitArg) w ->
  Forall (fun entry => model entry.2 = lookupKey entry.1 modelInfo) (usageOf w)
  /\ ((stop w).2 = Returned tt
      <-> Forall (fun key => is_Some (lookupKey key modelInfo)) (usageOf w).*1)
  /\ (default false isMockArg = false -> openaiArg = true ->
      (stop w).2 = Returned tt).
Proof.
  intros Hsteps.
  assert (Forall (fun entry => model entry.2 = lookupKey entry.1 modelInfo)
                 (usageOf w)
          /\ isMock (run w) = default false isMockArg
          /\ openai (run w) = openaiArg
          /\ (default false isMockArg = false -> openaiArg = true ->
              typed (usageOf w))) as (Hpriced & _ & _ & Hreal).
  { revert w Hsteps.
    apply rtc_ind_r; [|intros w1 w2 Hsteps Hstep (IHp & IHm & IHo & IHt)].
    { split; [by constructor|]. split; [done|]. split; [done|].
      intros _ _. by constructor. }
    destruct (runStep_mode _ _ (plainStep_runStep _ _ Hstep)) as [Hm Ho].
    split; [|split; [congruence|split; [congruence|]]].
    - apply (plainStep_entries
               (fun key m => m = lookupKey key modelInfo) _ _ Hstep);
        [done| |done].
      intros key m Hk. by rewrite (modelInfo_name _ _ Hk).
    - intros Hmock Hopenai.
      apply (plainStep_entries (fun _ m => is_Some m) _ _ Hstep);
        [|by eauto|by apply IHt].
      intros key [?|?]; congruence. }
  split; [done|]. split.
  - by rewrite stop_outcome, priced_typed.
  - intros Hmock Hopenai. apply stop_outcome. by apply Hreal.
Qed.

Lemma usage_follows_price_table_witness :
  rtc plainStep (newRun [] ∅ (Some true) false false None)
      (callLLM (plainRequest "gpt-4-32k" "hi") false (num 0 1) sampleAnswer
               (newRun [] ∅ (Some true) false false None)).1
  /\ (stop (callLLM (plainRequest "gpt-4-32k" "hi") false (num 0 1)
                    sampleAnswer
                    (newRun [] ∅ (Some true) false false None)).1).2
     <> Returned tt.
Proof.
  assert (H : rtc plainStep (newRun [] ∅ (Some true) false false None)
                (callLLM (plainRequest "gpt-4-32k" "hi") false (num 0 1)
                         sampleAnswer
                         (newRun [] ∅ (Some true) false false None)).1).
  { apply rtc_once. by apply plain_call. }
  split; [exact H|].
  intros Hstop.
  apply (proj1 (proj1 (proj2 (usage_follows_price_table _ _ _ _ _ _ _ H))))
    in Hstop.
  by apply Forall_inv, is_Some_None in Hstop.
Defined.

(** * The completion check and the cost table on any usage table *)

(** **** C4 *)

(** C4, what the code does: on a [Complete] or [Rejected] status event the
    run checks whether every item of the graph is [Complete] or
    [Rejected]; if not, or if the run is stopped already, the handler
    returns and nothing changes in the flag or in what was notified.  If
    so, it sets [isStopped] and goes on to notify: when every usage record
    holds a model, one stoppage with reason [complete] is notified and the
    handler returns; when a record holds none, the cost computation throws
    a [TypeError] out of the handler, nothing is notified, and the flag
    stays set.  That state is reached from a new run in mock mode by one
    call for a model that the price table does not list: the last item
    completes, the run is stopped, and no stoppage ever comes. *)
Theorem completion_can_lose_its_stoppage :
  (forall (w : World) (object : CannoliObject)
          (newStatus : CannoliObjectStatus) (msg : option string),
      newStatus = Complete \/ newStatus = Rejected ->
      (allObjectsFinished w = true <->
       forall obj, obj ∈ graphValues (run w) ->
         exists o, store w !! obj = Some o /\
                   (status o = Complete \/ status o = Rejected))
      /\ exists w' out,
           objectUpdated object newStatus msg w = (w', out)
           /\ if allObjectsFinished w && negb (isStopped (run w))
              then isStopped (run w') = true
                   /\ ((typed (usageOf w) /\ out = Returned tt
                        /\ exists cost,
                             finished w' = finished w ++
                               [{| reason := complete;
                                   stoppage_usage := usage (run w);
                                   stoppage_totalCost := cost;
                                   message := None |}])
                       \/ (~ typed (usageOf w)
                           /\ (exists m, out = Thrown (TypeError m))
                           /\ finished w' = finished w))
              else out = Returned tt
                   /\ isStopped (run w') = isStopped (run w)
                   /\ finished w' = finished w)
  /\ (let w0 := newRun [("a", 0)] {[ 0 := plainItem "a" [] [] true ]}
                       (Some true) false false None in
      let w1 := (callLLM (plainRequest "gpt-4-32k" "hi") false (num 0 1)
                         sampleAnswer w0).1 in
      let w2 := withStore (alter (setStatus Complete) 0) w1 in
      let w3 := (objectUpdated (plainItem "a" [] [] true) Complete None
                               w2).1 in
      allObjectsFinished w2 = true /\ isStopped (run w2) = false
      /\ (objectUpdated (plainItem "a" [] [] true) Complete None w2).2
         = Thrown (TypeError
             "Cannot read properties of undefined (reading 'promptTokenPrice')")
      /\ finished w3 = [] /\ isStopped (run w3) = true
      /\ (objectUpdated (plainItem "a" [] [] true) Rejected None w3).2
         = Returned tt
      /\ finished (objectUpdated (plainItem "a" [] [] true) Rejected None
                                 w3).1 = []).
Proof.
  split; [|by vm_compute].
  intros w object newStatus msg Hstatus.
  split; [apply allObjectsFinished_spec|].
  destruct (terminal_unfold w object newStatus msg Hstatus)
    as (ops & _ & _ & ->).
  destruct (allObjectsFinished w && negb (isStopped (run w))).
  - destruct (stop_and_emit complete None (withCanvasOps ops w))
      as (w' & out & -> & Hrun & _ & _ & _ & Hcases).
    exists w', out. split; [done|]. split; [by rewrite Hrun|].
    destruct Hcases as [(Ht & -> & _ & Hfin)|(Ht & Hout & Hfin)].
    + left. split; [done|]. split; [done|]. by eexists.
    + by right.
  - by eexists _, _.
Qed.

(** **** C9 *)




